(** * TinyGPS: a shallow embedding of the NMEA sentence parser

    The development follows [TinyGPS.h] and [TinyGPS.cpp]: the object's
    members become record fields, every member function becomes a function
    on the record, and the millisecond clock [millis()] is an explicit
    argument of the functions that read it.

    Integers are modelled as [Z] with the wrap-around of their C type
    written out.  [unsigned long] and [long] are 32 bits wide on every
    Arduino target; the width of [int] and the signedness of plain [char]
    differ between targets and are taken from a [platform]. *)

From Stdlib Require Import ZArith List Bool Lia Ascii String.
Import ListNotations.
Open Scope Z_scope.

(** ** Machine integers *)

Definition u8 (x : Z) : Z := x mod 256.
Definition u16 (x : Z) : Z := x mod 65536.
Definition u32 (x : Z) : Z := x mod 4294967296.
Definition s32 (x : Z) : Z := (x + 2147483648) mod 4294967296 - 2147483648.

(** The two data models the library is built for: 8-bit AVR boards
    (16-bit [int], signed [char]) and 32-bit ARM boards such as the Teensy
    (32-bit [int], unsigned [char]). *)
Inductive platform : Type := AVR8 | ARM32.

Definition int_bits (pf : platform) : Z :=
  match pf with AVR8 => 16 | ARM32 => 32 end.

Definition char_signed (pf : platform) : bool :=
  match pf with AVR8 => true | ARM32 => false end.

(** Conversion to [unsigned int] and to [int]. *)
Definition uint (pf : platform) (x : Z) : Z := x mod 2 ^ int_bits pf.
Definition sint (pf : platform) (x : Z) : Z :=
  (x + 2 ^ (int_bits pf - 1)) mod 2 ^ int_bits pf - 2 ^ (int_bits pf - 1).

(** ** Characters

    A character is kept as the value of its byte, [0 .. 255].  [char_val]
    is the value the byte has once promoted to [int] as a plain [char]. *)

Definition ch (a : ascii) : Z := Z.of_N (N_of_ascii a).

Definition chars (s : string) : list Z := map ch (list_ascii_of_string s).

Definition char_val (pf : platform) (c : Z) : Z :=
  if char_signed pf && (128 <=? c) then c - 256 else c.

Definition CR : Z := 13.
Definition LF : Z := 10.

(** [bool gpsisdigit(char c) { return c >= '0' && c <= '9'; }] *)
Definition gpsisdigit (c : Z) : bool := (ch "0" <=? c) && (c <=? ch "9").

(** ** Arrays

    A C array is a list of its elements; [upd i x l] is the store
    [l[i] = x] for an index inside the array. *)

Fixpoint upd (i : nat) (x : Z) (l : list Z) : list Z :=
  match l with
  | [] => []
  | y :: r => match i with O => x :: r | S j => y :: upd j x r end
  end.

(** The C string held in an array: the elements before the first NUL. *)
Fixpoint cstr (l : list Z) : list Z :=
  match l with
  | [] => []
  | c :: r => if c =? 0 then [] else c :: cstr r
  end.

(** ** Sentinels and sentence tags (TinyGPS.h) *)

Definition GPS_INVALID_AGE : Z := 0xFFFFFFFF.
Definition GPS_INVALID_ANGLE : Z := 999999999.
Definition GPS_INVALID_ALTITUDE : Z := 999999999.
Definition GPS_INVALID_DATE : Z := 0.
Definition GPS_INVALID_TIME : Z := 0xFFFFFFFF.
Definition GPS_INVALID_SPEED : Z := 999999999.
Definition GPS_INVALID_FIX_TIME : Z := 0xFFFFFFFF.
Definition GPS_INVALID_SATELLITES : Z := 0xFF.
Definition GPS_INVALID_HDOP : Z := 0xFFFFFFFF.

Inductive sentence : Type :=
| _GPS_SENTENCE_GPGGA | _GPS_SENTENCE_GPRMC | _GPS_SENTENCE_GNGNS
| _GPS_SENTENCE_GNGSA | _GPS_SENTENCE_GPGSV | _GPS_SENTENCE_GLGSV
| _GPS_SENTENCE_GPZDA | _GPS_SENTENCE_PUBX | _GPS_SENTENCE_OTHER.

(** The enumerator's value. *)
Definition sentence_code (t : sentence) : Z :=
  match t with
  | _GPS_SENTENCE_GPGGA => 0 | _GPS_SENTENCE_GPRMC => 1
  | _GPS_SENTENCE_GNGNS => 2 | _GPS_SENTENCE_GNGSA => 3
  | _GPS_SENTENCE_GPGSV => 4 | _GPS_SENTENCE_GLGSV => 5
  | _GPS_SENTENCE_GPZDA => 6 | _GPS_SENTENCE_PUBX => 7
  | _GPS_SENTENCE_OTHER => 8
  end.

Definition sentence_eqb (a b : sentence) : bool :=
  sentence_code a =? sentence_code b.

Definition _GPRMC_TERM : list Z := chars "GPRMC".
Definition _GPGGA_TERM : list Z := chars "GPGGA".
Definition _GPGSA_TERM : list Z := chars "GPGSA".
Definition _GNRMC_TERM : list Z := chars "GNRMC".
Definition _GNGNS_TERM : list Z := chars "GNGNS".
Definition _GNGSA_TERM : list Z := chars "GNGSA".
Definition _GPGSV_TERM : list Z := chars "GPGSV".
Definition _GLGSV_TERM : list Z := chars "GLGSV".
Definition _GPZDA_TERM : list Z := chars "GPZDA".
Definition _PUBX_TERM : list Z := chars "PUBX".

(** ** The object (class TinyGPS)

    The members are grouped as the design groups them: the published fix,
    its staged shadow copy, the tokenizer's cursor, the satellite table and
    the statistics counters. *)

Record Fix : Type := mkFix {
  _time : Z; _date : Z; _latitude : Z; _longitude : Z; _altitude : Z;
  _speed : Z; _course : Z; _hdop : Z; _numsats : Z;
  _last_time_fix : Z; _last_position_fix : Z;
  _year : Z; _month : Z; _day : Z; _last_date_fix : Z }.

Record Staging : Type := mkStaging {
  _new_time : Z; _new_date : Z; _new_latitude : Z; _new_longitude : Z;
  _new_altitude : Z; _new_speed : Z; _new_course : Z; _new_hdop : Z;
  _new_numsats : Z; _new_time_fix : Z; _new_position_fix : Z;
  _new_year : Z; _new_month : Z; _new_day : Z; _new_date_fix : Z }.

Record Cursor : Type := mkCursor {
  _parity : Z;
  _is_checksum_term : bool;
  _term : list Z;                (* char _term[15] *)
  _sentence_type : sentence;
  _UBX_message_type : Z;
  _term_number : Z;
  _term_offset : Z;
  _gps_data_good : bool }.

Record Sats : Type := mkSats {
  _constellations : list Z;      (* char _constellations[6] *)
  _sat_used_count : Z;
  tracked_sat_rec : list Z;      (* uint32_t tracked_sat_rec[24] *)
  _tracked_satellites_index : Z;
  _sat_index : Z }.

Record Stats : Type := mkStats {
  _encoded_characters : Z; _good_sentences : Z;
  _failed_checksum : Z; _passed_checksum : Z }.

Record TinyGPS : Type := mkTinyGPS {
  fix_state : Fix; staged : Staging; cursor : Cursor; sats : Sats;
  statistics : Stats }.

(** Assignment to one member. *)
Definition set_time (v : Z) (r : Fix) : Fix :=
  mkFix v (_date r) (_latitude r) (_longitude r) (_altitude r) (_speed r)
    (_course r) (_hdop r) (_numsats r) (_last_time_fix r)
    (_last_position_fix r) (_year r) (_month r) (_day r) (_last_date_fix r).
Definition set_date (v : Z) (r : Fix) : Fix :=
  mkFix (_time r) v (_latitude r) (_longitude r) (_altitude r) (_speed r)
    (_course r) (_hdop r) (_numsats r) (_last_time_fix r)
    (_last_position_fix r) (_year r) (_month r) (_day r) (_last_date_fix r).
Definition set_latitude (v : Z) (r : Fix) : Fix :=
  mkFix (_time r) (_date r) v (_longitude r) (_altitude r) (_speed r)
    (_course r) (_hdop r) (_numsats r) (_last_time_fix r)
    (_last_position_fix r) (_year r) (_month r) (_day r) (_last_date_fix r).
Definition set_longitude (v : Z) (r : Fix) : Fix :=
  mkFix (_time r) (_date r) (_latitude r) v (_altitude r) (_speed r)
    (_course r) (_hdop r) (_numsats r) (_last_time_fix r)
    (_last_position_fix r) (_year r) (_month r) (_day r) (_last_date_fix r).
Definition set_altitude (v : Z) (r : Fix) : Fix :=
  mkFix (_time r) (_date r) (_latitude r) (_longitude r) v (_speed r)
    (_course r) (_hdop r) (_numsats r) (_last_time_fix r)
    (_last_position_fix r) (_year r) (_month r) (_day r) (_last_date_fix r).
Definition set_speed (v : Z) (r : Fix) : Fix :=
  mkFix (_time r) (_date r) (_latitude r) (_longitude r) (_altitude r) v
    (_course r) (_hdop r) (_numsats r) (_last_time_fix r)
    (_last_position_fix r) (_year r) (_month r) (_day r) (_last_date_fix r).
Definition set_course (v : Z) (r : Fix) : Fix :=
  mkFix (_time r) (_date r) (_latitude r) (_longitude r) (_altitude r)
    (_speed r) v (_hdop r) (_numsats r) (_last_time_fix r)
    (_last_position_fix r) (_year r) (_month r) (_day r) (_last_date_fix r).
Definition set_hdop (v : Z) (r : Fix) : Fix :=
  mkFix (_time r) (_date r) (_latitude r) (_longitude r) (_altitude r)
    (_speed r) (_course r) v (_numsats r) (_last_time_fix r)
    (_last_position_fix r) (_year r) (_month r) (_day r) (_last_date_fix r).
Definition set_numsats (v : Z) (r : Fix) : Fix :=
  mkFix (_time r) (_date r) (_latitude r) (_longitude r) (_altitude r)
    (_speed r) (_course r) (_hdop r) v (_last_time_fix r)
    (_last_position_fix r) (_year r) (_month r) (_day r) (_last_date_fix r).
Definition set_last_time_fix (v : Z) (r : Fix) : Fix :=
  mkFix (_time r) (_date r) (_latitude r) (_longitude r) (_altitude r)
    (_speed r) (_course r) (_hdop r) (_numsats r) v (_last_position_fix r)
    (_year r) (_month r) (_day r) (_last_date_fix r).
Definition set_last_position_fix (v : Z) (r : Fix) : Fix :=
  mkFix (_time r) (_date r) (_latitude r) (_longitude r) (_altitude r)
    (_speed r) (_course r) (_hdop r) (_numsats r) (_last_time_fix r) v
    (_year r) (_month r) (_day r) (_last_date_fix r).
Definition set_year (v : Z) (r : Fix) : Fix :=
  mkFix (_time r) (_date r) (_latitude r) (_longitude r) (_altitude r)
    (_speed r) (_course r) (_hdop r) (_numsats r) (_last_time_fix r)
    (_last_position_fix r) v (_month r) (_day r) (_last_date_fix r).
Definition set_month (v : Z) (r : Fix) : Fix :=
  mkFix (_time r) (_date r) (_latitude r) (_longitude r) (_altitude r)
    (_speed r) (_course r) (_hdop r) (_numsats r) (_last_time_fix r)
    (_last_position_fix r) (_year r) v (_day r) (_last_date_fix r).
Definition set_day (v : Z) (r : Fix) : Fix :=
  mkFix (_time r) (_date r) (_latitude r) (_longitude r) (_altitude r)
    (_speed r) (_course r) (_hdop r) (_numsats r) (_last_time_fix r)
    (_last_position_fix r) (_year r) (_month r) v (_last_date_fix r).
Definition set_last_date_fix (v : Z) (r : Fix) : Fix :=
  mkFix (_time r) (_date r) (_latitude r) (_longitude r) (_altitude r)
    (_speed r) (_course r) (_hdop r) (_numsats r) (_last_time_fix r)
    (_last_position_fix r) (_year r) (_month r) (_day r) v.
Definition set_new_time (v : Z) (r : Staging) : Staging :=
  mkStaging v (_new_date r) (_new_latitude r) (_new_longitude r)
    (_new_altitude r) (_new_speed r) (_new_course r) (_new_hdop r)
    (_new_numsats r) (_new_time_fix r) (_new_position_fix r) (_new_year r)
    (_new_month r) (_new_day r) (_new_date_fix r).
Definition set_new_date (v : Z) (r : Staging) : Staging :=
  mkStaging (_new_time r) v (_new_latitude r) (_new_longitude r)
    (_new_altitude r) (_new_speed r) (_new_course r) (_new_hdop r)
    (_new_numsats r) (_new_time_fix r) (_new_position_fix r) (_new_year r)
    (_new_month r) (_new_day r) (_new_date_fix r).
Definition set_new_latitude (v : Z) (r : Staging) : Staging :=
  mkStaging (_new_time r) (_new_date r) v (_new_longitude r)
    (_new_altitude r) (_new_speed r) (_new_course r) (_new_hdop r)
    (_new_numsats r) (_new_time_fix r) (_new_position_fix r) (_new_year r)
    (_new_month r) (_new_day r) (_new_date_fix r).
Definition set_new_longitude (v : Z) (r : Staging) : Staging :=
  mkStaging (_new_time r) (_new_date r) (_new_latitude r) v
    (_new_altitude r) (_new_speed r) (_new_course r) (_new_hdop r)
    (_new_numsats r) (_new_time_fix r) (_new_position_fix r) (_new_year r)
    (_new_month r) (_new_day r) (_new_date_fix r).
Definition set_new_altitude (v : Z) (r : Staging) : Staging :=
  mkStaging (_new_time r) (_new_date r) (_new_latitude r) (_new_longitude r)
    v (_new_speed r) (_new_course r) (_new_hdop r) (_new_numsats r)
    (_new_time_fix r) (_new_position_fix r) (_new_year r) (_new_month r)
    (_new_day r) (_new_date_fix r).
Definition set_new_speed (v : Z) (r : Staging) : Staging :=
  mkStaging (_new_time r) (_new_date r) (_new_latitude r) (_new_longitude r)
    (_new_altitude r) v (_new_course r) (_new_hdop r) (_new_numsats r)
    (_new_time_fix r) (_new_position_fix r) (_new_year r) (_new_month r)
    (_new_day r) (_new_date_fix r).
Definition set_new_course (v : Z) (r : Staging) : Staging :=
  mkStaging (_new_time r) (_new_date r) (_new_latitude r) (_new_longitude r)
    (_new_altitude r) (_new_speed r) v (_new_hdop r) (_new_numsats r)
    (_new_time_fix r) (_new_position_fix r) (_new_year r) (_new_month r)
    (_new_day r) (_new_date_fix r).
Definition set_new_hdop (v : Z) (r : Staging) : Staging :=
  mkStaging (_new_time r) (_new_date r) (_new_latitude r) (_new_longitude r)
    (_new_altitude r) (_new_speed r) (_new_course r) v (_new_numsats r)
    (_new_time_fix r) (_new_position_fix r) (_new_year r) (_new_month r)
    (_new_day r) (_new_date_fix r).
Definition set_new_numsats (v : Z) (r : Staging) : Staging :=
  mkStaging (_new_time r) (_new_date r) (_new_latitude r) (_new_longitude r)
    (_new_altitude r) (_new_speed r) (_new_course r) (_new_hdop r) v
    (_new_time_fix r) (_new_position_fix r) (_new_year r) (_new_month r)
    (_new_day r) (_new_date_fix r).
Definition set_new_time_fix (v : Z) (r : Staging) : Staging :=
  mkStaging (_new_time r) (_new_date r) (_new_latitude r) (_new_longitude r)
    (_new_altitude r) (_new_speed r) (_new_course r) (_new_hdop r)
    (_new_numsats r) v (_new_position_fix r) (_new_year r) (_new_month r)
    (_new_day r) (_new_date_fix r).
Definition set_new_position_fix (v : Z) (r : Staging) : Staging :=
  mkStaging (_new_time r) (_new_date r) (_new_latitude r) (_new_longitude r)
    (_new_altitude r) (_new_speed r) (_new_course r) (_new_hdop r)
    (_new_numsats r) (_new_time_fix r) v (_new_year r) (_new_month r)
    (_new_day r) (_new_date_fix r).
Definition set_new_year (v : Z) (r : Staging) : Staging :=
  mkStaging (_new_time r) (_new_date r) (_new_latitude r) (_new_longitude r)
    (_new_altitude r) (_new_speed r) (_new_course r) (_new_hdop r)
    (_new_numsats r) (_new_time_fix r) (_new_position_fix r) v
    (_new_month r) (_new_day r) (_new_date_fix r).
Definition set_new_month (v : Z) (r : Staging) : Staging :=
  mkStaging (_new_time r) (_new_date r) (_new_latitude r) (_new_longitude r)
    (_new_altitude r) (_new_speed r) (_new_course r) (_new_hdop r)
    (_new_numsats r) (_new_time_fix r) (_new_position_fix r) (_new_year r) v
    (_new_day r) (_new_date_fix r).
Definition set_new_day (v : Z) (r : Staging) : Staging :=
  mkStaging (_new_time r) (_new_date r) (_new_latitude r) (_new_longitude r)
    (_new_altitude r) (_new_speed r) (_new_course r) (_new_hdop r)
    (_new_numsats r) (_new_time_fix r) (_new_position_fix r) (_new_year r)
    (_new_month r) v (_new_date_fix r).
Definition set_new_date_fix (v : Z) (r : Staging) : Staging :=
  mkStaging (_new_time r) (_new_date r) (_new_latitude r) (_new_longitude r)
    (_new_altitude r) (_new_speed r) (_new_course r) (_new_hdop r)
    (_new_numsats r) (_new_time_fix r) (_new_position_fix r) (_new_year r)
    (_new_month r) (_new_day r) v.
Definition set_parity (v : Z) (r : Cursor) : Cursor :=
  mkCursor v (_is_checksum_term r) (_term r) (_sentence_type r)
    (_UBX_message_type r) (_term_number r) (_term_offset r)
    (_gps_data_good r).
Definition set_is_checksum_term (v : bool) (r : Cursor) : Cursor :=
  mkCursor (_parity r) v (_term r) (_sentence_type r) (_UBX_message_type r)
    (_term_number r) (_term_offset r) (_gps_data_good r).
Definition set_term (v : list Z) (r : Cursor) : Cursor :=
  mkCursor (_parity r) (_is_checksum_term r) v (_sentence_type r)
    (_UBX_message_type r) (_term_number r) (_term_offset r)
    (_gps_data_good r).
Definition set_sentence_type (v : sentence) (r : Cursor) : Cursor :=
  mkCursor (_parity r) (_is_checksum_term r) (_term r) v
    (_UBX_message_type r) (_term_number r) (_term_offset r)
    (_gps_data_good r).
Definition set_UBX_message_type (v : Z) (r : Cursor) : Cursor :=
  mkCursor (_parity r) (_is_checksum_term r) (_term r) (_sentence_type r) v
    (_term_number r) (_term_offset r) (_gps_data_good r).
Definition set_term_number (v : Z) (r : Cursor) : Cursor :=
  mkCursor (_parity r) (_is_checksum_term r) (_term r) (_sentence_type r)
    (_UBX_message_type r) v (_term_offset r) (_gps_data_good r).
Definition set_term_offset (v : Z) (r : Cursor) : Cursor :=
  mkCursor (_parity r) (_is_checksum_term r) (_term r) (_sentence_type r)
    (_UBX_message_type r) (_term_number r) v (_gps_data_good r).
Definition set_gps_data_good (v : bool) (r : Cursor) : Cursor :=
  mkCursor (_parity r) (_is_checksum_term r) (_term r) (_sentence_type r)
    (_UBX_message_type r) (_term_number r) (_term_offset r) v.
Definition set_constellations (v : list Z) (r : Sats) : Sats :=
  mkSats v (_sat_used_count r) (tracked_sat_rec r)
    (_tracked_satellites_index r) (_sat_index r).
Definition set_sat_used_count (v : Z) (r : Sats) : Sats :=
  mkSats (_constellations r) v (tracked_sat_rec r)
    (_tracked_satellites_index r) (_sat_index r).
Definition set_tracked_sat_rec (v : list Z) (r : Sats) : Sats :=
  mkSats (_constellations r) (_sat_used_count r) v
    (_tracked_satellites_index r) (_sat_index r).
Definition set_tracked_satellites_index (v : Z) (r : Sats) : Sats :=
  mkSats (_constellations r) (_sat_used_count r) (tracked_sat_rec r) v
    (_sat_index r).
Definition set_sat_index (v : Z) (r : Sats) : Sats :=
  mkSats (_constellations r) (_sat_used_count r) (tracked_sat_rec r)
    (_tracked_satellites_index r) v.
Definition set_encoded_characters (v : Z) (r : Stats) : Stats :=
  mkStats v (_good_sentences r) (_failed_checksum r) (_passed_checksum r).
Definition set_good_sentences (v : Z) (r : Stats) : Stats :=
  mkStats (_encoded_characters r) v (_failed_checksum r)
    (_passed_checksum r).
Definition set_failed_checksum (v : Z) (r : Stats) : Stats :=
  mkStats (_encoded_characters r) (_good_sentences r) v (_passed_checksum r).
Definition set_passed_checksum (v : Z) (r : Stats) : Stats :=
  mkStats (_encoded_characters r) (_good_sentences r) (_failed_checksum r) v.
Definition set_fix_state (v : Fix) (r : TinyGPS) : TinyGPS :=
  mkTinyGPS v (staged r) (cursor r) (sats r) (statistics r).
Definition set_staged (v : Staging) (r : TinyGPS) : TinyGPS :=
  mkTinyGPS (fix_state r) v (cursor r) (sats r) (statistics r).
Definition set_cursor (v : Cursor) (r : TinyGPS) : TinyGPS :=
  mkTinyGPS (fix_state r) (staged r) v (sats r) (statistics r).
Definition set_sats (v : Sats) (r : TinyGPS) : TinyGPS :=
  mkTinyGPS (fix_state r) (staged r) (cursor r) v (statistics r).
Definition set_statistics (v : Stats) (r : TinyGPS) : TinyGPS :=
  mkTinyGPS (fix_state r) (staged r) (cursor r) (sats r) v.

(** ** Outcome of a call

    The only operation of the parser that C leaves undefined on some
    inputs is the store into [tracked_sat_rec], which has 24 elements.  A
    call that would store outside the array has no defined successor state
    and yields [OutOfBounds] with the offending index. *)

Inductive result (A : Type) : Type :=
| Ok (a : A)
| OutOfBounds (index : Z).
Arguments Ok {A} a.
Arguments OutOfBounds {A} index.

Definition bind {A B : Type} (r : result A) (k : A -> result B) : result B :=
  match r with
  | Ok a => k a
  | OutOfBounds i => OutOfBounds i
  end.

Notation "x <- r ;; k" := (bind r (fun x => k))
  (at level 61, r at next level, right associativity).

(** The clock: [millis()] is the low 32 bits of the elapsed milliseconds. *)
Definition millis (now : Z) : Z := u32 now.

(** ** Internal utilities *)

(** [int from_hex(char a)] *)
Definition from_hex (pf : platform) (a : Z) : Z :=
  let a := char_val pf a in
  if (ch "A" <=? a) && (a <=? ch "F") then a - ch "A" + 10
  else if (ch "a" <=? a) && (a <=? ch "f") then a - ch "a" + 10
  else a - ch "0".

(** [long gpsatol(const char *str)]: the string is the list of characters
    before its NUL, so the end of the list reads as the NUL. *)
Fixpoint gpsatol_loop (ret : Z) (str : list Z) : Z :=
  match str with
  | [] => ret
  | c :: r =>
      if gpsisdigit c then gpsatol_loop (s32 (10 * ret + c - ch "0")) r
      else ret
  end.

Definition gpsatol (str : list Z) : Z := gpsatol_loop 0 str.

(** [int gpsstrcmp(const char *str1, const char *str2)]: walks both strings
    while [*str1] is not NUL and equals [*str2], and returns [*str1].  The
    result is only ever tested against 0. *)
Fixpoint gpsstrcmp (str1 str2 : list Z) : Z :=
  match str1 with
  | [] => 0
  | c1 :: r1 =>
      if c1 =? 0 then 0
      else if c1 =? hd 0 str2 then gpsstrcmp r1 (tl str2)
      else c1
  end.

(** [while (gpsisdigit( *p )) ++p;] *)
Fixpoint skip_digits (p : list Z) : list Z :=
  match p with
  | [] => []
  | c :: r => if gpsisdigit c then skip_digits r else p
  end.

(** [unsigned long parse_decimal()] on the string held in [_term]. *)
Definition parse_decimal (term : list Z) : Z :=
  let isneg := hd 0 term =? ch "-" in
  let p := if isneg then tl term else term in
  let ret := u32 (100 * u32 (gpsatol p)) in
  let p := skip_digits p in
  let ret :=
    if hd 0 p =? ch "." then
      if gpsisdigit (nth 1 p 0) then
        let ret := u32 (ret + 10 * (nth 1 p 0 - ch "0")) in
        if gpsisdigit (nth 2 p 0) then u32 (ret + (nth 2 p 0 - ch "0"))
        else ret
      else ret
    else ret in
  if isneg then u32 (- ret) else ret.

(** The loop [while (gpsisdigit( *++p )) { ... mult /= 10; }] of
    [parse_degrees], entered with [p] just after the decimal point. *)
Fixpoint degrees_fraction (mult hundred1000ths_of_minute : Z) (p : list Z)
  : Z :=
  match p with
  | [] => hundred1000ths_of_minute
  | c :: r =>
      if gpsisdigit c then
        degrees_fraction (mult / 10)
          (u32 (hundred1000ths_of_minute + u32 (mult * (c - ch "0")))) r
      else hundred1000ths_of_minute
  end.

(** [unsigned long parse_degrees()], a string in the form ddmm.mmmmmmm *)
Definition parse_degrees (term : list Z) : Z :=
  let left_of_decimal := u32 (gpsatol term) in
  let hundred1000ths_of_minute := u32 ((left_of_decimal mod 100) * 100000) in
  let p := skip_digits term in
  let hundred1000ths_of_minute :=
    if hd 0 p =? ch "." then
      degrees_fraction 10000 hundred1000ths_of_minute (tl p)
    else hundred1000ths_of_minute in
  u32 (u32 ((left_of_decimal / 100) * 1000000)
       + u32 (hundred1000ths_of_minute + 3) / 6).

(** The C library's [atoi]: optional white space, an optional sign, then
    decimal digits.  A value that does not fit [int] (undefined in C) is
    wrapped to the width of [int]. *)
Definition isspace (c : Z) : bool := (c =? 32) || ((9 <=? c) && (c <=? 13)).

Fixpoint skip_spaces (p : list Z) : list Z :=
  match p with
  | [] => []
  | c :: r => if isspace c then skip_spaces r else p
  end.

Fixpoint digits_value (acc : Z) (p : list Z) : Z :=
  match p with
  | [] => acc
  | c :: r =>
      if gpsisdigit c then digits_value (10 * acc + (c - ch "0")) r else acc
  end.

Definition atoi (pf : platform) (str : list Z) : Z :=
  let p := skip_spaces str in
  if hd 0 p =? ch "-" then sint pf (- digits_value 0 (tl p))
  else if hd 0 p =? ch "+" then sint pf (digits_value 0 (tl p))
  else sint pf (digits_value 0 p).

(** [strncpy(_constellations, _term, 5); _constellations[5] = 0;] *)
Definition copy_constellations (term : list Z) : list Z :=
  firstn 5 (term ++ repeat 0 5) ++ [0].

(** [#define COMBINE(sentence_type, term_number)
       (((unsigned)(sentence_type) << 5) | term_number)] *)
Definition COMBINE (pf : platform) (sentence_type term_number : Z) : Z :=
  Z.lor (uint pf (Z.shiftl sentence_type 5)) term_number.

(** [#define UBX_MESSAGE(message_type)
       (((unsigned)(_GPS_SENTENCE_PUBX) << 5) | message_type)] *)
Definition UBX_MESSAGE (pf : platform) (message_type : Z) : Z :=
  Z.lor (uint pf (Z.shiftl (sentence_code _GPS_SENTENCE_PUBX) 5)) message_type.

(** ** The commit protocol (the checksum branch of [term_complete]) *)

(** [if (_sentence_type == _GPS_SENTENCE_GPRMC ||
        (_sentence_type == _GPS_SENTENCE_PUBX && _UBX_message_type == 4))] *)
Definition carries_clock (c : Cursor) : bool :=
  match _sentence_type c with
  | _GPS_SENTENCE_GPRMC => true
  | _GPS_SENTENCE_PUBX => _UBX_message_type c =? 4
  | _ => false
  end.

(** "set the time and date even if not tracking" *)
Definition promote_clock (n : Staging) (f : Fix) : Fix :=
  set_last_time_fix (_new_time_fix n)
    (set_date (_new_date n) (set_time (_new_time n) f)).

(** The [_GPS_SENTENCE_GPZDA] block. *)
Definition promote_zda (n : Staging) (f : Fix) : Fix :=
  set_last_date_fix (_new_date_fix n)
    (set_year (_new_year n)
      (set_month (_new_month n)
        (set_day (_new_day n)
          (set_last_time_fix (_new_time_fix n)
            (set_time (_new_time n) f))))).

(** The two assignments at the head of the [if (_gps_data_good)] block. *)
Definition promote_fix_times (n : Staging) (f : Fix) : Fix :=
  set_last_position_fix (_new_position_fix n)
    (set_last_time_fix (_new_time_fix n) f).

(** [switch(_sentence_type)] inside the [if (_gps_data_good)] block. *)
Definition promote_fields (c : Cursor) (n : Staging) (f : Fix) : Fix :=
  match _sentence_type c with
  | _GPS_SENTENCE_GPRMC =>
      set_course (_new_course n)
        (set_speed (_new_speed n)
          (set_longitude (_new_longitude n)
            (set_latitude (_new_latitude n)
              (set_date (_new_date n)
                (set_time (_new_time n) f)))))
  | _GPS_SENTENCE_GPGGA =>
      set_hdop (_new_hdop n)
        (set_numsats (_new_numsats n)
          (set_longitude (_new_longitude n)
            (set_latitude (_new_latitude n)
              (set_time (_new_time n)
                (set_altitude (_new_altitude n) f)))))
  | _GPS_SENTENCE_PUBX =>
      if _UBX_message_type c =? 0 then
        set_hdop (_new_hdop n)
          (set_numsats (_new_numsats n)
            (set_altitude (_new_altitude n)
              (set_course (_new_course n)
                (set_speed (_new_speed n)
                  (set_longitude (_new_longitude n)
                    (set_latitude (_new_latitude n)
                      (set_time (_new_time n) f)))))))
      else f
  | _ => f
  end.

(** [byte checksum = 16 * from_hex(_term[0]) + from_hex(_term[1]);] *)
Definition checksum (pf : platform) (c : Cursor) : Z :=
  u8 (16 * from_hex pf (nth 0 (_term c) 0) + from_hex pf (nth 1 (_term c) 0)).

Definition commit (pf : platform) (g : TinyGPS) : bool * TinyGPS :=
  let c := cursor g in
  let n := staged g in
  if checksum pf c =? _parity c then
    let f := fix_state g in
    let f := if carries_clock c then promote_clock n f else f in
    let f :=
      match _sentence_type c with
      | _GPS_SENTENCE_GPZDA => promote_zda n f
      | _ => f
      end in
    if _gps_data_good c then
      let st := statistics g in
      let st := set_good_sentences (u16 (_good_sentences st + 1)) st in
      let f := promote_fix_times n f in
      let f := promote_fields c n f in
      (true, set_statistics st (set_fix_state f g))
    else
      (false, set_fix_state f g)
  else
    let st := statistics g in
    (false, set_statistics (set_failed_checksum (u16 (_failed_checksum st + 1)) st) g).

(** ** The field dispatcher (the [switch] of [term_complete]) *)

(** The first term determines the sentence type. *)
Definition classify (term : list Z) : sentence :=
  if (gpsstrcmp term _GPRMC_TERM =? 0) || (gpsstrcmp term _GNRMC_TERM =? 0)
  then _GPS_SENTENCE_GPRMC
  else if gpsstrcmp term _GPGGA_TERM =? 0 then _GPS_SENTENCE_GPGGA
  else if gpsstrcmp term _GNGNS_TERM =? 0 then _GPS_SENTENCE_GNGNS
  else if (gpsstrcmp term _GNGSA_TERM =? 0) || (gpsstrcmp term _GPGSA_TERM =? 0)
  then _GPS_SENTENCE_GNGSA
  else if gpsstrcmp term _GPGSV_TERM =? 0 then _GPS_SENTENCE_GPGSV
  else if gpsstrcmp term _GLGSV_TERM =? 0 then _GPS_SENTENCE_GLGSV
  else if gpsstrcmp term _GPZDA_TERM =? 0 then _GPS_SENTENCE_GPZDA
  else if gpsstrcmp term _PUBX_TERM =? 0 then _GPS_SENTENCE_PUBX
  else _GPS_SENTENCE_OTHER.

(** [for (uint8_t x = first; x < first + 12; x++) tracked_sat_rec[x] = 0;] *)
Definition reset_slots (first : nat) (table : list Z) : list Z :=
  fold_left (fun t x => upd x 0 t) (seq first 12) table.

(** The store [tracked_sat_rec[index] = v]. *)
Definition store_sat (index v : Z) (g : TinyGPS) : result TinyGPS :=
  if (0 <=? index) && (index <? 24) then
    Ok (set_sats
          (set_tracked_sat_rec
             (upd (Z.to_nat index) v (tracked_sat_rec (sats g))) (sats g)) g)
  else OutOfBounds index.

(** The index of the slot a strength field is stored to:
    [_sat_index + (_term_number-7)/4]. *)
Definition sat_slot (g : TinyGPS) : Z :=
  _sat_index (sats g) + Z.quot (_term_number (cursor g) - 7) 4.

Definition dispatch (pf : platform) (now : Z) (g : TinyGPS) : result TinyGPS :=
  let c := cursor g in
  let n := staged g in
  let term := cstr (_term c) in
  let t0 := nth 0 (_term c) 0 in
  let t1 := nth 1 (_term c) 0 in
  let GPGGA := sentence_code _GPS_SENTENCE_GPGGA in
  let GPRMC := sentence_code _GPS_SENTENCE_GPRMC in
  let GNGNS := sentence_code _GPS_SENTENCE_GNGNS in
  let GNGSA := sentence_code _GPS_SENTENCE_GNGSA in
  let GPGSV := sentence_code _GPS_SENTENCE_GPGSV in
  let GLGSV := sentence_code _GPS_SENTENCE_GLGSV in
  let GPZDA := sentence_code _GPS_SENTENCE_GPZDA in
  let sentence_type :=
    match _sentence_type c with
    | _GPS_SENTENCE_PUBX => UBX_MESSAGE pf (_UBX_message_type c)
    | t => sentence_code t
    end in
  let key := COMBINE pf sentence_type (_term_number c) in
  let case (st tn : Z) : bool := key =? COMBINE pf st tn in
  if case GPRMC 1 || case GPGGA 1 || case GNGNS 1 || case GPZDA 1
     || case (UBX_MESSAGE pf 0) 2 || case (UBX_MESSAGE pf 4) 2 then
    Ok (set_staged
          (set_new_time_fix (millis now)
             (set_new_time (parse_decimal term) n)) g)
  else if case GPRMC 2 then
    Ok (set_cursor (set_gps_data_good (t0 =? ch "A") c) g)
  else if case GPRMC 3 || case GPGGA 2 || case GNGNS 2
          || case (UBX_MESSAGE pf 0) 3 then
    Ok (set_staged
          (set_new_position_fix (millis now)
             (set_new_latitude (s32 (parse_degrees term)) n)) g)
  else if case GPRMC 4 || case GPGGA 3 || case GNGNS 3
          || case (UBX_MESSAGE pf 0) 4 then
    if t0 =? ch "S" then
      Ok (set_staged (set_new_latitude (s32 (- _new_latitude n)) n) g)
    else Ok g
  else if case GPRMC 5 || case GPGGA 4 || case GNGNS 4
          || case (UBX_MESSAGE pf 0) 5 then
    Ok (set_staged (set_new_longitude (s32 (parse_degrees term)) n) g)
  else if case GPRMC 6 || case GPGGA 5 || case GNGNS 5
          || case (UBX_MESSAGE pf 0) 6 then
    if t0 =? ch "W" then
      Ok (set_staged (set_new_longitude (s32 (- _new_longitude n)) n) g)
    else Ok g
  else if case GNGNS 6 then
    Ok (set_sats (set_constellations (copy_constellations term) (sats g)) g)
  else if case GPRMC 7 || case (UBX_MESSAGE pf 0) 11 then
    Ok (set_staged (set_new_speed (parse_decimal term) n) g)
  else if case GPRMC 8 || case (UBX_MESSAGE pf 0) 12 then
    Ok (set_staged (set_new_course (parse_decimal term) n) g)
  else if case GPRMC 9 || case (UBX_MESSAGE pf 4) 3 then
    Ok (set_staged (set_new_date (u32 (gpsatol term)) n) g)
  else if case GPZDA 2 then
    Ok (set_staged
          (set_new_date_fix (millis now)
             (set_new_day (u32 (gpsatol term)) n)) g)
  else if case GPZDA 3 then
    Ok (set_staged
          (set_new_date_fix (millis now)
             (set_new_month (u32 (gpsatol term)) n)) g)
  else if case GPZDA 4 then
    Ok (set_staged
          (set_new_date_fix (millis now)
             (set_new_year (u32 (gpsatol term)) n)) g)
  else if case GPGGA 6 then
    Ok (set_cursor (set_gps_data_good (char_val pf t0 >? ch "0") c) g)
  else if case GPGGA 7 || case GNGNS 7 || case (UBX_MESSAGE pf 0) 18 then
    Ok (set_staged (set_new_numsats (u8 (atoi pf term)) n) g)
  else if case GPGGA 8 || case (UBX_MESSAGE pf 0) 15 then
    Ok (set_staged (set_new_hdop (parse_decimal term) n) g)
  else if case GPGGA 9 || case (UBX_MESSAGE pf 0) 7 then
    Ok (set_staged (set_new_altitude (s32 (parse_decimal term)) n) g)
  else if case (UBX_MESSAGE pf 0) 8 then
    Ok (set_cursor
          (set_gps_data_good
             ((t0 =? ch "G") || ((t0 =? ch "D") && negb (t1 =? ch "R"))) c) g)
  else if case GNGSA 3 then
    Ok g
  else if case GPGSV 2 || case GLGSV 2 then
    let msgId := u8 (atoi pf term - 1) in
    let s := sats g in
    let table :=
      if msgId =? 0 then
        match _sentence_type c with
        | _GPS_SENTENCE_GPGSV => reset_slots 0 (tracked_sat_rec s)
        | _ => reset_slots 12 (tracked_sat_rec s)
        end
      else tracked_sat_rec s in
    let sat_index :=
      match _sentence_type c with
      | _GPS_SENTENCE_GLGSV => u8 (msgId * 4 + 12)
      | _ => u8 (msgId * 4)
      end in
    Ok (set_sats (set_sat_index sat_index (set_tracked_sat_rec table s)) g)
  else if case GPGSV 4 || case GPGSV 8 || case GPGSV 12 || case GPGSV 16
          || case GLGSV 4 || case GLGSV 8 || case GLGSV 12 || case GLGSV 16
  then
    Ok (set_sats (set_tracked_satellites_index (atoi pf term) (sats g)) g)
  else if case GPGSV 7 || case GPGSV 11 || case GPGSV 15 || case GPGSV 19
          || case GLGSV 7 || case GLGSV 11 || case GLGSV 15 || case GLGSV 19
  then
    let stren := u8 (atoi pf term) in
    if stren =? 0 then store_sat (sat_slot g) 0 g
    else
      store_sat (sat_slot g)
        (u32 (Z.lor (sint pf (Z.shiftl (_tracked_satellites_index (sats g)) 8))
                    (Z.shiftl stren 1))) g
  else Ok g.

(** [bool TinyGPS::term_complete()]: processes a just-completed term. *)
Definition term_complete (pf : platform) (now : Z) (g : TinyGPS)
  : result (bool * TinyGPS) :=
  let c := cursor g in
  if _is_checksum_term c then Ok (commit pf g)
  else if _term_number c =? 0 then
    Ok (false, set_cursor (set_sentence_type (classify (cstr (_term c))) c) g)
  else if sentence_eqb (_sentence_type c) _GPS_SENTENCE_PUBX
          && (_term_number c =? 1) then
    Ok (false,
        set_cursor
          (set_UBX_message_type (uint pf (gpsatol (cstr (_term c)))) c) g)
  else if negb (sentence_eqb (_sentence_type c) _GPS_SENTENCE_OTHER)
          && negb (nth 0 (_term c) 0 =? 0) then
    g' <- dispatch pf now g ;; Ok (false, g')
  else Ok (false, g).

(** ** The tokenizer *)

Definition is_terminator (c : Z) : bool :=
  (c =? ch ",") || (c =? CR) || (c =? LF) || (c =? ch "*").

(** [bool TinyGPS::encode(char c)], called when the clock reads [now]. *)
Definition encode (pf : platform) (now c : Z) (g : TinyGPS)
  : result (bool * TinyGPS) :=
  let st := statistics g in
  let g :=
    set_statistics
      (set_encoded_characters (u32 (_encoded_characters st + 1)) st) g in
  if is_terminator c then
    (* case ',': _parity ^= c; then falls through *)
    let g :=
      if c =? ch "," then
        set_cursor
          (set_parity (u8 (Z.lxor (_parity (cursor g)) c)) (cursor g)) g
      else g in
    r <- (if _term_offset (cursor g) <? 15 then
            let k := cursor g in
            term_complete pf now
              (set_cursor
                 (set_term (upd (Z.to_nat (_term_offset k)) 0 (_term k)) k) g)
          else Ok (false, g)) ;;
    let '(valid_sentence, g) := r in
    let k := cursor g in
    Ok (valid_sentence,
        set_cursor
          (set_is_checksum_term (c =? ch "*")
             (set_term_offset 0
                (set_term_number (u8 (_term_number k + 1)) k))) g)
  else if c =? ch "$" then
    let k := cursor g in
    Ok (false,
        set_cursor
          (set_gps_data_good false
             (set_is_checksum_term false
                (set_sentence_type _GPS_SENTENCE_OTHER
                   (set_parity 0
                      (set_term_offset 0 (set_term_number 0 k)))))) g)
  else
    (* ordinary characters *)
    let k := cursor g in
    let k :=
      if _term_offset k <? 15 - 1 then
        set_term_offset (u8 (_term_offset k + 1))
          (set_term (upd (Z.to_nat (_term_offset k)) c (_term k)) k)
      else k in
    let k :=
      if negb (_is_checksum_term k) then
        set_parity (u8 (Z.lxor (_parity k) c)) k
      else k in
    Ok (false, set_cursor k g).

(** Feeding a stream: each character comes with the clock value at which
    [encode] is called on it.  The result lists the value every call
    returned, in order. *)
Fixpoint feed (pf : platform) (input : list (Z * Z)) (g : TinyGPS)
  : result (list bool * TinyGPS) :=
  match input with
  | [] => Ok ([], g)
  | (now, c) :: rest =>
      r <- encode pf now c g ;;
      r' <- feed pf rest (snd r) ;;
      Ok (fst r :: fst r', snd r')
  end.

(** A stream received while the clock stands at [now]. *)
Definition at_time (now : Z) (cs : list Z) : list (Z * Z) :=
  map (fun c => (now, c)) cs.

(** ** Construction *)

(** [TinyGPS::TinyGPS()].  The constructor initialises the published fix,
    the cursor and three counters; every other member keeps what the
    storage [mem] of the object held. *)
Definition TinyGPS_ctor (mem : TinyGPS) : TinyGPS :=
  mkTinyGPS
    (mkFix GPS_INVALID_TIME GPS_INVALID_DATE GPS_INVALID_ANGLE
       GPS_INVALID_ANGLE GPS_INVALID_ALTITUDE GPS_INVALID_SPEED
       GPS_INVALID_ANGLE GPS_INVALID_HDOP GPS_INVALID_SATELLITES
       GPS_INVALID_FIX_TIME GPS_INVALID_FIX_TIME
       GPS_INVALID_DATE GPS_INVALID_DATE GPS_INVALID_DATE
       GPS_INVALID_FIX_TIME)
    (staged mem)
    (mkCursor 0 false (upd 0 0 (_term (cursor mem))) _GPS_SENTENCE_OTHER
       0 0 0 false)
    (sats mem)
    (mkStats 0 0 0 (_passed_checksum (statistics mem))).

(** Zero-initialised storage, as for an object with static storage
    duration (the usual global [TinyGPS gps;] of a sketch). *)
Definition zeroed : TinyGPS :=
  mkTinyGPS
    (mkFix 0 0 0 0 0 0 0 0 0 0 0 0 0 0 0)
    (mkStaging 0 0 0 0 0 0 0 0 0 0 0 0 0 0 0)
    (mkCursor 0 false (repeat 0 15%nat) _GPS_SENTENCE_GPGGA 0 0 0 false)
    (mkSats (repeat 0 6%nat) 0 (repeat 0 24%nat) 0 0)
    (mkStats 0 0 0 0).

(** The arrays of the object have their declared sizes. *)
Definition well_formed (g : TinyGPS) : Prop :=
  List.length (_term (cursor g)) = 15%nat
  /\ List.length (tracked_sat_rec (sats g)) = 24%nat.

(** ** Accessors *)

(** [get_position(&latitude, &longitude, &fix_age)] *)
Definition get_position (now : Z) (g : TinyGPS) : Z * Z * Z :=
  let f := fix_state g in
  (_latitude f, _longitude f,
   if _last_position_fix f =? GPS_INVALID_FIX_TIME then GPS_INVALID_AGE
   else u32 (millis now - _last_position_fix f)).

(** [get_datetime(&date, &time, &age)] *)
Definition get_datetime (now : Z) (g : TinyGPS) : Z * Z * Z :=
  let f := fix_state g in
  (_date f, _time f,
   if _last_time_fix f =? GPS_INVALID_FIX_TIME then GPS_INVALID_AGE
   else u32 (millis now - _last_time_fix f)).

Definition altitude (g : TinyGPS) : Z := _altitude (fix_state g).
Definition course (g : TinyGPS) : Z := _course (fix_state g).
Definition speed (g : TinyGPS) : Z := _speed (fix_state g).
Definition satellites (g : TinyGPS) : Z := _numsats (fix_state g).
Definition hdop (g : TinyGPS) : Z := _hdop (fix_state g).
Definition trackedSatellites (g : TinyGPS) : list Z :=
  tracked_sat_rec (sats g).

(** [stats(&chars, &sentences, &failed_cs)] *)
Definition stats (g : TinyGPS) : Z * Z * Z :=
  let st := statistics g in
  (_encoded_characters st, _good_sentences st, _failed_checksum st).


(** * Vocabulary of the properties

    The definitions below name what the theorems talk about: the pieces of
    a call of [encode], the shape of a sentence, what a sentence stages and
    publishes, and the sample streams. *)

(** ** The pieces of a call of [encode] *)

Definition is_ordinary (c : Z) : bool :=
  negb (is_terminator c) && negb (c =? ch "$").

(** The state [term_complete] runs on when [c] closes a term: the
    character is counted, a comma is folded into the parity, and the
    buffer is terminated at the current offset. *)
Definition closed (c : Z) (g : TinyGPS) : TinyGPS :=
  let k := cursor g in
  let st := statistics g in
  mkTinyGPS (fix_state g) (staged g)
    (mkCursor (if c =? ch "," then u8 (Z.lxor (_parity k) c) else _parity k)
       (_is_checksum_term k)
       (upd (Z.to_nat (_term_offset k)) 0 (_term k))
       (_sentence_type k) (_UBX_message_type k) (_term_number k)
       (_term_offset k) (_gps_data_good k))
    (sats g)
    (set_encoded_characters (u32 (_encoded_characters st + 1)) st).

(** The cursor moves on to the next term. *)
Definition advance (c : Z) (g : TinyGPS) : TinyGPS :=
  let k := cursor g in
  set_cursor
    (set_is_checksum_term (c =? ch "*")
       (set_term_offset 0 (set_term_number (u8 (_term_number k + 1)) k))) g.

(** The effect of an ordinary character. *)
Definition ordinary_step (c : Z) (g : TinyGPS) : TinyGPS :=
  let k := cursor g in
  let st := statistics g in
  let stored := _term_offset k <? 14 in
  mkTinyGPS (fix_state g) (staged g)
    (mkCursor
       (if _is_checksum_term k then _parity k else u8 (Z.lxor (_parity k) c))
       (_is_checksum_term k)
       (if stored then upd (Z.to_nat (_term_offset k)) c (_term k) else _term k)
       (_sentence_type k) (_UBX_message_type k) (_term_number k)
       (if stored then u8 (_term_offset k + 1) else _term_offset k)
       (_gps_data_good k))
    (sats g)
    (set_encoded_characters (u32 (_encoded_characters st + 1)) st).

(** The effect of the sentence-start marker. *)
Definition start_step (g : TinyGPS) : TinyGPS :=
  let k := cursor g in
  let st := statistics g in
  mkTinyGPS (fix_state g) (staged g)
    (mkCursor 0 false (_term k) _GPS_SENTENCE_OTHER (_UBX_message_type k)
       0 0 false)
    (sats g)
    (set_encoded_characters (u32 (_encoded_characters st + 1)) st).

(** The running parity: the exclusive-or of the characters folded in so
    far, kept in a byte. *)
Definition xor_fold (p : Z) (cs : list Z) : Z :=
  fold_left (fun p c => u8 (Z.lxor p c)) cs p.

(** Counting one more character, and [n] more. *)
Definition bump (st : Stats) : Stats :=
  set_encoded_characters (u32 (_encoded_characters st + 1)) st.

Definition bumps (n : nat) (st : Stats) : Stats := Nat.iter n bump st.

(** The buffer after the characters [w] arrived with the offset at [o]:
    at most the first [14 - o] of them are stored. *)
Definition stored (o : nat) (w t : list Z) : list Z :=
  firstn o t ++ firstn (14 - o) w ++ skipn (Nat.min (o + List.length w) 14) t.

(** The state after the ordinary characters [w], entered with the offset
    at [o]. *)
Definition after_chars (o : nat) (w : list Z) (g : TinyGPS) : TinyGPS :=
  let k := cursor g in
  mkTinyGPS (fix_state g) (staged g)
    (mkCursor
       (if _is_checksum_term k then _parity k else xor_fold (_parity k) w)
       (_is_checksum_term k)
       (stored o w (_term k))
       (_sentence_type k) (_UBX_message_type k) (_term_number k)
       (Z.of_nat (Nat.min (o + List.length w) 14))
       (_gps_data_good k))
    (sats g)
    (bumps (List.length w) (statistics g)).

(** The string the dispatcher decodes when the characters [w] were
    received for a field: the first 14 of them. *)
Definition term_of (w : list Z) : list Z := cstr (firstn 14 w).

(** ** Sentences and their parity *)

(** A character that can stand between the sentence-start marker and the
    checksum marker: anything but the two markers and the line
    terminators. *)
Definition in_body (c : Z) : bool :=
  negb (c =? ch "$") && negb (c =? ch "*") && negb (c =? CR) && negb (c =? LF).

Definition is_eol (c : Z) : Prop := c = CR \/ c = LF.

Definition is_byte (c : Z) : Prop := 0 <= c < 256.

Definition is_byteb (c : Z) : bool := (0 <=? c) && (c <? 256).

(** The parity of a character sequence: the exclusive-or of all its
    characters, as a byte. *)
Definition parity_of (cs : list Z) : Z := u8 (fold_left Z.lxor cs 0).

(** A sentence body: a tag and its fields, each introduced by a comma. *)
Definition joined (w : list Z) (fs : list (list Z)) : list Z :=
  w ++ List.concat (map (cons (ch ",")) fs).

(** The tokenizer's invariant between two calls. *)
Definition ready (g : TinyGPS) : Prop :=
  0 <= _term_offset (cursor g) <= 14
  /\ List.length (_term (cursor g)) = 15%nat.

(** ** The published fix *)

(** The position part of the fix: the fields that only a validated
    sentence can promote. *)
Definition position_part (f : Fix) : Z * Z * Z * Z * Z * Z * Z * Z :=
  (_latitude f, _longitude f, _altitude f, _speed f, _course f, _hdop f,
   _numsats f, _last_position_fix f).

(** The call closes the checksum field of a sentence that carries the
    clock, with a matching checksum and without a fix. *)
Definition clock_only_commit (pf : platform) (c : Z) (g : TinyGPS) : Prop :=
  is_terminator c = true
  /\ _is_checksum_term (cursor g) = true
  /\ checksum pf (cursor (closed c g)) = _parity (cursor (closed c g))
  /\ _gps_data_good (cursor g) = false
  /\ (carries_clock (cursor g) = true
      \/ _sentence_type (cursor g) = _GPS_SENTENCE_GPZDA).

(** No call of the stream closes a clock-only commit. *)
Fixpoint no_clock_commit (pf : platform) (input : list (Z * Z)) (g : TinyGPS)
  : Prop :=
  match input with
  | [] => True
  | (now, c) :: rest =>
      ~ clock_only_commit pf c g
      /\ match encode pf now c g with
         | Ok (_, g') => no_clock_commit pf rest g'
         | OutOfBounds _ => True
         end
  end.

(** The counters that only the commit protocol touches. *)
Definition same_counts (st st' : Stats) : Prop :=
  _good_sentences st' = _good_sentences st
  /\ _failed_checksum st' = _failed_checksum st.

(** ** The satellite table *)

(** The first slot of the constellation a GSV sentence reports on. *)
Definition constellation_base (t : sentence) : Z :=
  match t with _GPS_SENTENCE_GPGSV => 0 | _ => 12 end.

Definition is_gsv (t : sentence) : Prop :=
  t = _GPS_SENTENCE_GPGSV \/ t = _GPS_SENTENCE_GLGSV.

(** What the strength field stores for PRN [p] and strength [s]. *)
Definition packed (pf : platform) (p s : Z) : Z :=
  if s =? 0 then 0
  else u32 (Z.lor (sint pf (Z.shiftl p 8)) (Z.shiftl s 1)).

(** ** What an RMC sentence stages and publishes *)

(** What the dispatcher stages for field [k] of an RMC sentence, and what
    it makes of the data-good flag; [ms] is the reading of the clock. *)
Definition rmc_stage (ms k : Z) (term : list Z) (n : Staging) : Staging :=
  if k =? 1 then set_new_time_fix ms (set_new_time (parse_decimal term) n)
  else if k =? 3 then
    set_new_position_fix ms (set_new_latitude (s32 (parse_degrees term)) n)
  else if k =? 4 then
    if hd 0 term =? ch "S" then set_new_latitude (s32 (- _new_latitude n)) n
    else n
  else if k =? 5 then set_new_longitude (s32 (parse_degrees term)) n
  else if k =? 6 then
    if hd 0 term =? ch "W" then set_new_longitude (s32 (- _new_longitude n)) n
    else n
  else if k =? 7 then set_new_speed (parse_decimal term) n
  else if k =? 8 then set_new_course (parse_decimal term) n
  else if k =? 9 then set_new_date (u32 (gpsatol term)) n
  else n.

Definition rmc_good (k : Z) (term : list Z) (good : bool) : bool :=
  if k =? 2 then hd 0 term =? ch "A" else good.

Definition rmc_field (ms k : Z) (term : list Z) (acc : Staging * bool)
  : Staging * bool :=
  if hd 0 term =? 0 then acc
  else (rmc_stage ms k term (fst acc), rmc_good k term (snd acc)).

(** The staged values and the data-good flag after the fields [w :: fs]
    of an RMC sentence, [w] being field [k]. *)
Fixpoint rmc_run (ms k : Z) (w : list Z) (fs : list (list Z))
         (acc : Staging * bool) : Staging * bool :=
  match fs with
  | [] => rmc_field ms k (term_of w) acc
  | f :: r => rmc_run ms (k + 1) f r (rmc_field ms k (term_of w) acc)
  end.

(** The hemisphere fields: absent, or negating the staged angle, or
    leaving it as it is. *)
Definition hemisphere (w : list Z) (letter : Z) (angle : Z) : Z :=
  if hd 0 w =? 0 then angle
  else if hd 0 w =? letter then s32 (- angle) else angle.

(** The staged values after a populated RMC sentence, as a function of
    its fields. *)
Definition rmc_staged (ms : Z) (f1 f3 f4 f5 f6 f7 f8 f9 : list Z)
           (n : Staging) : Staging :=
  let n := set_new_time_fix ms (set_new_time (parse_decimal (term_of f1)) n) in
  let n :=
    set_new_position_fix ms
      (set_new_latitude (s32 (parse_degrees (term_of f3))) n) in
  let n := set_new_latitude (hemisphere f4 (ch "S") (_new_latitude n)) n in
  let n := set_new_longitude (s32 (parse_degrees (term_of f5))) n in
  let n := set_new_longitude (hemisphere f6 (ch "W") (_new_longitude n)) n in
  let n := set_new_speed (parse_decimal (term_of f7)) n in
  let n := set_new_course (parse_decimal (term_of f8)) n in
  set_new_date (u32 (gpsatol (term_of f9))) n.

(** Two stagings that agree on everything an RMC sentence publishes. *)
Definition agree_rmc (a b : Staging) : Prop :=
  _new_time a = _new_time b /\ _new_date a = _new_date b
  /\ _new_latitude a = _new_latitude b
  /\ _new_longitude a = _new_longitude b
  /\ _new_speed a = _new_speed b /\ _new_course a = _new_course b
  /\ _new_time_fix a = _new_time_fix b
  /\ _new_position_fix a = _new_position_fix b.

(** What a matching checksum publishes for an RMC sentence. *)
Definition rmc_publish (n : Staging) (good : bool) (f : Fix) : Fix :=
  if good then
    set_course (_new_course n)
      (set_speed (_new_speed n)
        (set_longitude (_new_longitude n)
          (set_latitude (_new_latitude n)
            (set_date (_new_date n)
              (set_time (_new_time n)
                (promote_fix_times n (promote_clock n f)))))))
  else promote_clock n f.

(** ** Sample streams and states *)

(** A parser constructed in zero-initialised storage. *)
Definition fresh : TinyGPS := TinyGPS_ctor zeroed.

(** The state a stream leaves the parser in, and the values the calls
    returned. *)
Definition state_after (pf : platform) (input : list (Z * Z)) (g : TinyGPS)
  : TinyGPS :=
  match feed pf input g with
  | Ok (_, g') => g'
  | OutOfBounds _ => g
  end.

Definition returns_of (pf : platform) (input : list (Z * Z)) (g : TinyGPS)
  : list bool :=
  match feed pf input g with
  | Ok (vs, _) => vs
  | OutOfBounds _ => []
  end.

Definition rmc_body : list Z :=
  chars "GPRMC,045103.000,A,3014.1984,N,09749.2872,W,0.67,161.46,030913,,,A".

Definition rmc_sentence : list Z := ch "$" :: rmc_body ++ chars "*7C".

Definition rmc_tag : list Z := chars "GPRMC".

Definition rmc_fields : list (list Z) :=
  map chars
    ["A"; "3014.1984"; "N"; "09749.2872"; "W"; "0.67"; "161.46"; "030913";
     ""; ""; "A"]%string.

(** An RMC sentence sent without a fix (status V), checksum correct. *)
Definition rmc_nofix_body : list Z :=
  chars "GPRMC,045103.000,V,,,,,,,030913,,,N".

Definition rmc_nofix_sentence : list Z :=
  ch "$" :: rmc_nofix_body ++ chars "*46".

(** The known-good body followed by a wrong checksum. *)
Definition rmc_bad_checksum : list (Z * Z) :=
  (1000, ch "$") :: at_time 1000 rmc_body
    ++ [(1000, ch "*"); (1000, ch "7"); (1000, ch "D")].

Definition rmc_to_checksum : list (Z * Z) :=
  (1000, ch "$") :: at_time 1000 rmc_body
    ++ [(1000, ch "*")] ++ at_time 1000 (chars "7C").

(** The state in which the checksum field of the known-good sentence is
    closed. *)
Definition rmc_at_checksum : TinyGPS :=
  Eval vm_compute in
    closed CR (state_after ARM32 (at_time 1000 rmc_sentence) fresh).

(** A capture that starts inside one sentence and stops inside the
    next. *)
Definition rotated : list Z :=
  chars "7C" ++ [CR; LF] ++ ch "$" :: rmc_body ++ [ch "*"].

(** The fourth GSV message of a GLONASS sequence, up to the strength
    field of its first satellite. *)
Definition glgsv_fourth : list Z := chars "$GLGSV,4,4,13,88,10,100,30,".

(** The state in which field 2 of a first GSV message is closed. *)
Definition gsv_at_index : TinyGPS :=
  Eval vm_compute in
    closed (ch ",")
      (state_after ARM32 (at_time 1000 (chars "$GPGSV,3,1")) fresh).

(** The state in which the strength field of the first satellite of that
    message is closed: PRN 3, strength 30. *)
Definition gsv_at_strength : TinyGPS :=
  Eval vm_compute in
    closed (ch ",")
      (state_after ARM32
         (at_time 1000 (chars "$GPGSV,3,1,11,03,03,111,30")) fresh).

(** A field of 18 characters. *)
Definition long_field : list (Z * Z) :=
  at_time 1000 (chars "3014.1984000000000").

(** * Vocabulary of the further properties *)

(** ** Decimal notation *)

(** The character of a digit value, the string of a list of digit values
    and the number that string denotes. *)
Definition digit (d : Z) : Z := ch "0" + d.

Definition digits (ds : list Z) : list Z := map digit ds.

Definition is_digit (d : Z) : Prop := 0 <= d <= 9.

Definition is_digitb (d : Z) : bool := (0 <=? d) && (d <=? 9).

Definition decimal (ds : list Z) : Z :=
  fold_left (fun a d => 10 * a + d) ds 0.

(** The value of the text [ds.fs] in hundredths, the digits after the
    second decimal dropped. *)
Definition hundredths_of (ds fs : list Z) : Z :=
  100 * decimal ds + 10 * nth 0 fs 0 + nth 1 fs 0.

(** The first five decimals of the minutes, in hundred-thousandths of a
    minute. *)
Definition minute_fraction (fs : list Z) : Z :=
  10000 * nth 0 fs 0 + 1000 * nth 1 fs 0 + 100 * nth 2 fs 0
  + 10 * nth 3 fs 0 + nth 4 fs 0.

(** What the loop of [parse_degrees] adds for the decimals [fs] when it
    is entered with the multiplier [mult]. *)
Fixpoint fraction (mult : Z) (fs : list Z) : Z :=
  match fs with
  | [] => 0
  | f :: r => mult * f + fraction (mult / 10) r
  end.

(** The angle written [ddmm.mmmmm], in hundred-thousandths of a minute,
    and in millionths of a degree as [parse_degrees] rounds it. *)
Definition angle_minutes (ds fs : list Z) : Z :=
  6000000 * (decimal ds / 100) + 100000 * (decimal ds mod 100)
  + minute_fraction fs.

Definition millionths (ds fs : list Z) : Z :=
  (decimal ds / 100) * 1000000
  + ((decimal ds mod 100) * 100000 + minute_fraction fs + 3) / 6.

(** The digit of a hexadecimal value, in either case. *)
Definition hex_digit (upper : bool) (d : Z) : Z :=
  if d <? 10 then ch "0" + d
  else (if upper then ch "A" else ch "a") + (d - 10).

(** ** The sentence tags *)

Fixpoint prefixb (a b : list Z) : bool :=
  match a with
  | [] => true
  | x :: a' =>
      match b with
      | [] => false
      | y :: b' => (x =? y) && prefixb a' b'
      end
  end.

(** The tags in the order [term_complete] tries them. *)
Definition tag_table : list (list Z * sentence) :=
  [ (_GPRMC_TERM, _GPS_SENTENCE_GPRMC); (_GNRMC_TERM, _GPS_SENTENCE_GPRMC);
    (_GPGGA_TERM, _GPS_SENTENCE_GPGGA); (_GNGNS_TERM, _GPS_SENTENCE_GNGNS);
    (_GNGSA_TERM, _GPS_SENTENCE_GNGSA); (_GPGSA_TERM, _GPS_SENTENCE_GNGSA);
    (_GPGSV_TERM, _GPS_SENTENCE_GPGSV); (_GLGSV_TERM, _GPS_SENTENCE_GLGSV);
    (_GPZDA_TERM, _GPS_SENTENCE_GPZDA); (_PUBX_TERM, _GPS_SENTENCE_PUBX) ].

Fixpoint lookup_tag (term : list Z) (table : list (list Z * sentence))
  : sentence :=
  match table with
  | [] => _GPS_SENTENCE_OTHER
  | (tag, t) :: r => if prefixb term tag then t else lookup_tag term r
  end.

(** ** The date and time accessors *)

(** What the accessors store through their eight pointers, all of them
    given. *)
Record DateTime : Type := mkDateTime {
  year : Z; month : Z; day : Z;
  hour : Z; minute : Z; second : Z; hundredths : Z;
  age : Z }.

(** [get_datetime(&year, &month, &day, &hour, &minute, &second,
    &hundredths, &age)]: the overload that reads the date a ZDA sentence
    published.  [year] is an [int], the other fields are bytes. *)
Definition get_datetime_fields (pf : platform) (now : Z) (g : TinyGPS)
  : DateTime :=
  let f := fix_state g in
  mkDateTime
    (sint pf (_year f)) (u8 (_month f)) (u8 (_day f))
    (u8 (_time f / 1000000)) (u8 ((_time f / 10000) mod 100))
    (u8 ((_time f / 100) mod 100)) (u8 (_time f mod 100))
    (if _last_date_fix f =? GPS_INVALID_FIX_TIME then GPS_INVALID_AGE
     else u32 (millis now - _last_date_fix f)).

(** [crack_datetime(&year, &month, &day, &hour, &minute, &second,
    &hundredths, &fix_age)] *)
Definition crack_datetime (pf : platform) (now : Z) (g : TinyGPS)
  : DateTime :=
  let '(date, time, fix_age) := get_datetime now g in
  let y := sint pf (date mod 100) in
  let y := sint pf (y + (if y >? 80 then 1900 else 2000)) in
  mkDateTime
    y (u8 ((date / 100) mod 100)) (u8 (date / 10000))
    (u8 (time / 1000000)) (u8 ((time / 10000) mod 100))
    (u8 ((time / 100) mod 100)) (u8 (time mod 100))
    fix_age.

(** [constellations()] *)
Definition constellations (g : TinyGPS) : list Z := _constellations (sats g).

(** ** What the fields of a sentence stage

    The dispatcher writes three parts of the object: the staged values,
    the data-good flag and the satellite data.  A [stager] gives, for one
    sentence type, what closing field [k] on the string [term] makes of
    them when the clock reads [ms]. *)

Definition stager : Type := Z -> Z -> list Z -> (Staging * bool * Sats) -> result (Staging * bool * Sats).

(** An empty field is not dispatched. *)
Definition field_of (stage : stager) (ms k : Z) (term : list Z)
           (acc : (Staging * bool * Sats)) : result (Staging * bool * Sats) :=
  if hd 0 term =? 0 then Ok acc else stage ms k term acc.

(** The fields [w :: fs] of a sentence, [w] being field [k]. *)
Fixpoint run_fields (stage : stager) (ms k : Z) (w : list Z)
         (fs : list (list Z)) (acc : (Staging * bool * Sats)) : result (Staging * bool * Sats) :=
  match fs with
  | [] => field_of stage ms k (term_of w) acc
  | f :: r =>
      a <- field_of stage ms k (term_of w) acc ;;
      run_fields stage ms (k + 1) f r a
  end.

(** The state rebuilt from the parts the dispatcher writes. *)
Definition restaged (g : TinyGPS) (a : (Staging * bool * Sats)) : TinyGPS :=
  mkTinyGPS (fix_state g) (fst (fst a))
    (set_gps_data_good (snd (fst a)) (cursor g)) (snd a) (statistics g).

(** The fields shared by the sentences that carry a position: time,
    latitude, N/S, longitude, E/W, counted from field [k0]. *)
Definition position_stage (ms k0 k : Z) (term : list Z) (n : Staging)
  : Staging :=
  if k =? k0 then set_new_time_fix ms (set_new_time (parse_decimal term) n)
  else if k =? k0 + 1 then
    set_new_position_fix ms (set_new_latitude (s32 (parse_degrees term)) n)
  else if k =? k0 + 2 then
    if hd 0 term =? ch "S" then set_new_latitude (s32 (- _new_latitude n)) n
    else n
  else if k =? k0 + 3 then set_new_longitude (s32 (parse_degrees term)) n
  else if k =? k0 + 4 then
    if hd 0 term =? ch "W" then set_new_longitude (s32 (- _new_longitude n)) n
    else n
  else n.

(** GGA: time, position, fix quality, satellites used, hdop, altitude. *)
Definition gga_stage (pf : platform) : stager :=
  fun ms k term acc =>
  let '(n, good, s) := acc in
  if k <=? 5 then Ok (position_stage ms 1 k term n, good, s)
  else if k =? 6 then Ok (n, char_val pf (hd 0 term) >? ch "0", s)
  else if k =? 7 then Ok (set_new_numsats (u8 (atoi pf term)) n, good, s)
  else if k =? 8 then Ok (set_new_hdop (parse_decimal term) n, good, s)
  else if k =? 9 then
    Ok (set_new_altitude (s32 (parse_decimal term)) n, good, s)
  else Ok acc.

(** GNS: time, position, constellations, satellites used. *)
Definition gns_stage (pf : platform) : stager :=
  fun ms k term acc =>
  let '(n, good, s) := acc in
  if k <=? 5 then Ok (position_stage ms 1 k term n, good, s)
  else if k =? 6 then
    Ok (n, good, set_constellations (copy_constellations term) s)
  else if k =? 7 then Ok (set_new_numsats (u8 (atoi pf term)) n, good, s)
  else Ok acc.

(** GSA: nothing is decoded. *)
Definition gsa_stage : stager := fun ms k term acc => Ok acc.

(** ZDA: time, day, month, year. *)
Definition zda_stage : stager :=
  fun ms k term acc =>
  let '(n, good, s) := acc in
  if k =? 1 then
    Ok (set_new_time_fix ms (set_new_time (parse_decimal term) n), good, s)
  else if k =? 2 then
    Ok (set_new_date_fix ms (set_new_day (u32 (gpsatol term)) n), good, s)
  else if k =? 3 then
    Ok (set_new_date_fix ms (set_new_month (u32 (gpsatol term)) n), good, s)
  else if k =? 4 then
    Ok (set_new_date_fix ms (set_new_year (u32 (gpsatol term)) n), good, s)
  else Ok acc.

(** PUBX,00: time, position, altitude, navigation status, speed, course,
    hdop, satellites used. *)
Definition pubx00_stage (pf : platform) : stager :=
  fun ms k term acc =>
  let '(n, good, s) := acc in
  if k <=? 6 then Ok (position_stage ms 2 k term n, good, s)
  else if k =? 7 then
    Ok (set_new_altitude (s32 (parse_decimal term)) n, good, s)
  else if k =? 8 then
    Ok (n,
        (hd 0 term =? ch "G")
        || ((hd 0 term =? ch "D") && negb (nth 1 term 0 =? ch "R")), s)
  else if k =? 11 then Ok (set_new_speed (parse_decimal term) n, good, s)
  else if k =? 12 then Ok (set_new_course (parse_decimal term) n, good, s)
  else if k =? 15 then Ok (set_new_hdop (parse_decimal term) n, good, s)
  else if k =? 18 then Ok (set_new_numsats (u8 (atoi pf term)) n, good, s)
  else Ok acc.

(** PUBX,04: time and date. *)
Definition pubx04_stage : stager :=
  fun ms k term acc =>
  let '(n, good, s) := acc in
  if k =? 2 then
    Ok (set_new_time_fix ms (set_new_time (parse_decimal term) n), good, s)
  else if k =? 3 then Ok (set_new_date (u32 (gpsatol term)) n, good, s)
  else Ok acc.

(** The store [tracked_sat_rec[index] = v] on the satellite data. *)
Definition store_slot (index v : Z) (s : Sats) : result Sats :=
  if (0 <=? index) && (index <? 24) then
    Ok (set_tracked_sat_rec (upd (Z.to_nat index) v (tracked_sat_rec s)) s)
  else OutOfBounds index.

(** GSV of the constellation [ty]: message number, then PRN and strength
    of up to four satellites. *)
Definition gsv_stage (pf : platform) (ty : sentence) : stager :=
  fun ms k term acc =>
  let '(n, good, s) := acc in
  if k =? 2 then
    let msgId := u8 (atoi pf term - 1) in
    let table :=
      if msgId =? 0 then
        match ty with
        | _GPS_SENTENCE_GPGSV => reset_slots 0 (tracked_sat_rec s)
        | _ => reset_slots 12 (tracked_sat_rec s)
        end
      else tracked_sat_rec s in
    let sat_index :=
      match ty with
      | _GPS_SENTENCE_GLGSV => u8 (msgId * 4 + 12)
      | _ => u8 (msgId * 4)
      end in
    Ok (n, good, set_sat_index sat_index (set_tracked_sat_rec table s))
  else if (k =? 4) || (k =? 8) || (k =? 12) || (k =? 16) then
    Ok (n, good, set_tracked_satellites_index (atoi pf term) s)
  else if (k =? 7) || (k =? 11) || (k =? 15) || (k =? 19) then
    s' <- store_slot (_sat_index s + Z.quot (k - 7) 4)
            (packed pf (_tracked_satellites_index s) (u8 (atoi pf term))) s ;;
    Ok (n, good, s')
  else Ok acc.

(** What a matching checksum publishes for a sentence of type [ty] (PUBX
    message [ubx]) received with the data-good flag [good]. *)
Definition published (ty : sentence) (ubx : Z) (good : bool) (n : Staging)
           (f : Fix) : Fix :=
  let c := mkCursor 0 true [] ty ubx 0 0 good in
  let f := if carries_clock c then promote_clock n f else f in
  let f :=
    match ty with
    | _GPS_SENTENCE_GPZDA => promote_zda n f
    | _ => f
    end in
  if good then promote_fields c n (promote_fix_times n f) else f.

(** ** What the populated sentences stage *)

(** The staged values after the five fields time, latitude, N/S,
    longitude, E/W. *)
Definition position_staged (ms : Z) (ft flat fns flon few : list Z)
           (n : Staging) : Staging :=
  let n := set_new_time_fix ms (set_new_time (parse_decimal (term_of ft)) n) in
  let n :=
    set_new_position_fix ms
      (set_new_latitude (s32 (parse_degrees (term_of flat))) n) in
  let n := set_new_latitude (hemisphere fns (ch "S") (_new_latitude n)) n in
  let n := set_new_longitude (s32 (parse_degrees (term_of flon))) n in
  set_new_longitude (hemisphere few (ch "W") (_new_longitude n)) n.

(** The fix quality field of a GGA sentence: absent, or a character above
    ['0']. *)
Definition quality (pf : platform) (w : list Z) : bool :=
  if hd 0 w =? 0 then false else char_val pf (hd 0 w) >? ch "0".

(** The navigation status field of a PUBX,00 sentence: absent, or [G.],
    or [D.] other than [DR]. *)
Definition navstat (w : list Z) : bool :=
  if hd 0 w =? 0 then false
  else (hd 0 w =? ch "G")
       || ((hd 0 w =? ch "D") && negb (nth 1 (term_of w) 0 =? ch "R")).

(** A field that fits the field buffer and holds no NUL reaches the
    decoder as it was sent. *)
Definition fits (w : list Z) : Prop :=
  (List.length w <= 14)%nat /\ Forall (fun c => c <> 0) w.

(** The decimal digits of a number below 100, and below 10000. *)
Definition two (x : Z) : list Z := [x / 10; x mod 10].

Definition four (x : Z) : list Z :=
  [x / 1000; (x / 100) mod 10; (x / 10) mod 10; x mod 10].

(** An angle with the sign its hemisphere letter gives it. *)
Definition signed (negative : bool) (x : Z) : Z :=
  if negative then - x else x.

(** The age an accessor reports at clock [now'] for a timestamp taken at
    clock [now]. *)
Definition age_at (now now' : Z) : Z :=
  if millis now =? GPS_INVALID_FIX_TIME then GPS_INVALID_AGE
  else u32 (now' - now).

(** A stager that never sets the data-good flag. *)
Definition keeps_flag (stage : stager) : Prop :=
  forall (ms k : Z) (term : list Z) (n : Staging) (good : bool) (s : Sats)
         (a : Staging * bool * Sats),
  stage ms k term (n, good, s) = Ok a -> snd (fst a) = good.

(** The sentence types that carry no validity field: GNS, GSA, the two
    GSV and the sentences the parser does not know. *)
Definition unvalidated (ty : sentence) : Prop :=
  ty = _GPS_SENTENCE_GNGNS \/ ty = _GPS_SENTENCE_GNGSA
  \/ ty = _GPS_SENTENCE_GPGSV \/ ty = _GPS_SENTENCE_GLGSV
  \/ ty = _GPS_SENTENCE_OTHER.

(** The stager of such a sentence type. *)
Definition unvalidated_stage (pf : platform) (ty : sentence) : stager :=
  match ty with
  | _GPS_SENTENCE_GNGNS => gns_stage pf
  | _GPS_SENTENCE_GPGSV | _GPS_SENTENCE_GLGSV => gsv_stage pf ty
  | _ => gsa_stage
  end.

(** ** Further sample streams *)

(** A GNS sentence with a position and a matching checksum. *)
Definition gns_fields : list (list Z) :=
  map chars
    ["3014.1984"; "N"; "09749.2872"; "W"; "AAN"; "12"; "0.9"; "206.9";
     "-26.3"; ""; ""]%string.

Definition gns_sentence : list Z :=
  ch "$" :: joined (chars "GNGNS") (chars "045103.00" :: gns_fields)
    ++ ch "*" :: [ch "2"; ch "4"; CR].

(** The number of calls that returned true. *)
Definition count_true (vs : list bool) : Z :=
  Z.of_nat (List.length (filter (fun v => v) vs)).

(** ** A GSV message *)

(** The slot the first satellite of a GSV message is stored to, from the
    text of the message-number field. *)
Definition gsv_base (pf : platform) (ty : sentence) (term : list Z) : Z :=
  let msgId := u8 (atoi pf term - 1) in
  match ty with
  | _GPS_SENTENCE_GLGSV => u8 (msgId * 4 + 12)
  | _ => u8 (msgId * 4)
  end.

(** The table after the message-number field: the first message of a
    sequence clears the twelve slots of its constellation. *)
Definition gsv_cleared (pf : platform) (ty : sentence) (term : list Z)
           (table : list Z) : list Z :=
  if u8 (atoi pf term - 1) =? 0 then
    match ty with
    | _GPS_SENTENCE_GPGSV => reset_slots 0 table
    | _ => reset_slots 12 table
    end
  else table.

(** The four fields of a satellite in a GSV message: PRN, elevation,
    azimuth and strength. *)
Record SatBlock : Type := mkSatBlock {
  prn : list Z;
  elevation : list Z;
  azimuth : list Z;
  snr : list Z
}.

Definition block_fields (blk : SatBlock) : list (list Z) :=
  [prn blk; elevation blk; azimuth blk; snr blk].

(** The record of satellite [j] of a message: PRN and strength packed
    into slot [b + j]; a satellite without a strength leaves the slot as
    it is. *)
Definition gsv_record (pf : platform) (b j : Z) (blk : SatBlock)
           (table : list Z) : list Z :=
  if hd 0 (snr blk) =? 0 then table
  else
    upd (Z.to_nat (b + j))
      (packed pf (atoi pf (term_of (prn blk)))
         (u8 (atoi pf (term_of (snr blk))))) table.

(** The records of the satellites of a message, the first one being
    satellite [j]. *)
Fixpoint gsv_records (pf : platform) (b j : Z) (blocks : list SatBlock)
         (table : list Z) : list Z :=
  match blocks with
  | [] => table
  | blk :: rest => gsv_records pf b (j + 1) rest (gsv_record pf b j blk table)
  end.

(** The first message of a GPS sequence; the second of its four
    satellites is not tracked and the fourth reports the strength 00. *)
Definition gsv_blocks : list SatBlock :=
  [mkSatBlock (chars "03") (chars "03") (chars "111") (chars "30");
   mkSatBlock (chars "04") (chars "15") (chars "270") [];
   mkSatBlock (chars "06") (chars "01") (chars "010") (chars "12");
   mkSatBlock (chars "13") (chars "06") (chars "292") (chars "00")].

(** A GGA sentence of 34 empty fields and the letter A, and the state in
    which its last field is closed. *)
Definition gga_long : list Z :=
  chars "$GPGGA" ++ repeat (ch ",") 34 ++ chars "A".

Definition gga_long_state : TinyGPS :=
  Eval vm_compute in
    closed (ch ",") (state_after ARM32 (at_time 1000 gga_long) fresh).

(** * Properties *)

(** ** Frame lemmas: what a dispatched term can change *)

Ltac split_if :=
  match goal with
  | |- (if ?b then _ else _) = _ -> _ => destruct b
  | |- (match ?t with _GPS_SENTENCE_GPGGA => _ | _ => _ end) = _ -> _ =>
      destruct t
  end.

Ltac inv_ok :=
  let H := fresh "H" in
  intro H; injection H as <-.

Lemma store_sat_frame (index v : Z) (g g' : TinyGPS) :
  store_sat index v g = Ok g' ->
  fix_state g' = fix_state g /\ staged g' = staged g
  /\ cursor g' = cursor g /\ statistics g' = statistics g.
Proof.
  unfold store_sat. destruct ((0 <=? index) && (index <? 24)); [|discriminate].
  inv_ok. simpl. auto.
Qed.

(** A dispatched term never touches the published fix, the counters or
    the tokenizer's part of the cursor. *)
Lemma dispatch_frame (pf : platform) (now : Z) (g g' : TinyGPS) :
  dispatch pf now g = Ok g' ->
  fix_state g' = fix_state g
  /\ statistics g' = statistics g
  /\ _parity (cursor g') = _parity (cursor g)
  /\ _is_checksum_term (cursor g') = _is_checksum_term (cursor g)
  /\ _term (cursor g') = _term (cursor g)
  /\ _sentence_type (cursor g') = _sentence_type (cursor g)
  /\ _UBX_message_type (cursor g') = _UBX_message_type (cursor g)
  /\ _term_number (cursor g') = _term_number (cursor g)
  /\ _term_offset (cursor g') = _term_offset (cursor g).
Proof.
  unfold dispatch. cbv zeta.
  repeat split_if;
    solve [ inv_ok; simpl; repeat split; reflexivity
          | intro H; apply store_sat_frame in H;
            destruct H as (-> & _ & -> & ->); repeat split; reflexivity ].
Qed.

Lemma upd_length (i : nat) (x : Z) (l : list Z) :
  List.length (upd i x l) = List.length l.
Proof.
  revert i; induction l as [|y l IH]; intros [|i]; simpl; auto.
Qed.

Lemma reset_slots_length (first : nat) (table : list Z) :
  List.length (reset_slots first table) = List.length table.
Proof.
  unfold reset_slots. generalize (seq first 12). intros xs; revert table.
  induction xs as [|x xs IH]; intros table; simpl; [reflexivity|].
  rewrite IH. apply upd_length.
Qed.

Lemma store_sat_table_length (index v : Z) (g g' : TinyGPS) :
  store_sat index v g = Ok g' ->
  List.length (tracked_sat_rec (sats g'))
  = List.length (tracked_sat_rec (sats g)).
Proof.
  unfold store_sat. destruct ((0 <=? index) && (index <? 24)); [|discriminate].
  inv_ok. simpl. apply upd_length.
Qed.

Lemma dispatch_table_length (pf : platform) (now : Z) (g g' : TinyGPS) :
  dispatch pf now g = Ok g' ->
  List.length (tracked_sat_rec (sats g'))
  = List.length (tracked_sat_rec (sats g)).
Proof.
  unfold dispatch. cbv zeta.
  repeat split_if;
    try solve [ inv_ok; simpl; reflexivity
              | intro H; apply store_sat_table_length in H; exact H ].
  all: inv_ok; simpl; destruct (u8 _ =? 0); [|reflexivity];
    destruct (_sentence_type (cursor g)); apply reset_slots_length.
Qed.

(** ** One call of [term_complete] outside the checksum field *)

Lemma term_complete_plain (pf : platform) (now : Z) (g g' : TinyGPS) (v : bool) :
  _is_checksum_term (cursor g) = false ->
  term_complete pf now g = Ok (v, g') ->
  v = false
  /\ fix_state g' = fix_state g
  /\ statistics g' = statistics g
  /\ _parity (cursor g') = _parity (cursor g)
  /\ _is_checksum_term (cursor g') = false
  /\ _term (cursor g') = _term (cursor g)
  /\ _term_number (cursor g') = _term_number (cursor g)
  /\ _term_offset (cursor g') = _term_offset (cursor g)
  /\ List.length (tracked_sat_rec (sats g'))
     = List.length (tracked_sat_rec (sats g)).
Proof.
  intros Hck. unfold term_complete. rewrite Hck.
  destruct (_term_number (cursor g) =? 0).
  { intro H; injection H as <- <-. simpl. rewrite Hck. repeat split; reflexivity. }
  destruct (sentence_eqb _ _ && _).
  { intro H; injection H as <- <-. simpl. rewrite Hck. repeat split; reflexivity. }
  destruct (negb _ && _).
  - destruct (dispatch pf now g) as [g1|i] eqn:Hd; simpl; [|discriminate].
    intro H; injection H as <- <-.
    pose proof (dispatch_table_length _ _ _ _ Hd) as Hlen.
    apply dispatch_frame in Hd.
    destruct Hd as (-> & -> & -> & -> & -> & _ & _ & -> & ->).
    rewrite Hck. repeat split; auto.
  - intro H; injection H as <- <-. rewrite Hck. repeat split; reflexivity.
Qed.

(** ** One call of [encode] *)

Lemma encode_terminator (pf : platform) (now c : Z) (g : TinyGPS) :
  is_terminator c = true ->
  _term_offset (cursor g) < 15 ->
  encode pf now c g
  = (r <- term_complete pf now (closed c g) ;; Ok (fst r, advance c (snd r))).
Proof.
  intros Hc Hoff. unfold encode. rewrite Hc.
  assert (Hlt : (_term_offset (cursor g) <? 15) = true) by (apply Z.ltb_lt; exact Hoff).
  unfold closed. destruct (c =? ch ","); simpl; rewrite Hlt;
    match goal with
    | |- bind ?a _ = bind ?b _ => change a with b; destruct b as [[v g1]|i]
    end; reflexivity.
Qed.

Lemma encode_ordinary (pf : platform) (now c : Z) (g : TinyGPS) :
  is_ordinary c = true ->
  encode pf now c g = Ok (false, ordinary_step c g).
Proof.
  unfold is_ordinary. intros H. apply andb_prop in H. destruct H as [Ht Hd].
  apply negb_true_iff in Ht, Hd.
  unfold encode, ordinary_step. rewrite Ht, Hd.
  destruct g as [f n [par ck t ty ubx tn off good] s st]. simpl.
  change (15 - 1) with 14.
  destruct (off <? 14); destruct ck; reflexivity.
Qed.

Lemma encode_start (pf : platform) (now : Z) (g : TinyGPS) :
  encode pf now (ch "$") g = Ok (false, start_step g).
Proof. reflexivity. Qed.

(** ** Streams *)

Lemma feed_app (pf : platform) (a b : list (Z * Z)) (g : TinyGPS) :
  feed pf (a ++ b) g
  = (r <- feed pf a g ;; r' <- feed pf b (snd r) ;;
     Ok (fst r ++ fst r', snd r')).
Proof.
  revert g; induction a as [|[now c] a IH]; intros g; simpl.
  - destruct (feed pf b g) as [[vs g']|i]; reflexivity.
  - destruct (encode pf now c g) as [[v g1]|i]; simpl; [|reflexivity].
    rewrite IH. destruct (feed pf a g1) as [[vs g2]|i]; simpl; [|reflexivity].
    destruct (feed pf b g2) as [[vs' g3]|i]; reflexivity.
Qed.

Lemma feed_cons_ok (pf : platform) (now c : Z) (rest : list (Z * Z))
      (g g1 : TinyGPS) (v : bool) :
  encode pf now c g = Ok (v, g1) ->
  feed pf ((now, c) :: rest) g
  = (r <- feed pf rest g1 ;; Ok (v :: fst r, snd r)).
Proof. intros H. simpl. rewrite H. reflexivity. Qed.

(** *** Ordinary characters fill the field buffer *)

Lemma firstn_upd_succ (o : nat) (c : Z) (t : list Z) :
  (o < List.length t)%nat ->
  firstn (S o) (upd o c t) = firstn o t ++ [c].
Proof.
  revert o; induction t as [|y t IH]; intros o Ho; simpl in Ho; [lia|].
  destruct o as [|o]; [reflexivity|].
  change (firstn (S (S o)) (upd (S o) c (y :: t)))
    with (y :: firstn (S o) (upd o c t)).
  rewrite IH by lia. reflexivity.
Qed.

Lemma skipn_upd_below (o n : nat) (c : Z) (t : list Z) :
  (o < n)%nat -> skipn n (upd o c t) = skipn n t.
Proof.
  revert o n; induction t as [|y t IH]; intros o n Hlt;
    [destruct o; reflexivity|].
  destruct n as [|n]; [lia|]. destruct o as [|o]; simpl; [reflexivity|].
  apply IH. lia.
Qed.

Lemma stored_cons (o : nat) (c : Z) (w t : list Z) :
  (o < 14)%nat -> (o < List.length t)%nat ->
  stored (S o) w (upd o c t) = stored o (c :: w) t.
Proof.
  intros Ho Hlen. unfold stored.
  rewrite firstn_upd_succ by exact Hlen.
  rewrite skipn_upd_below by lia.
  replace (14 - o)%nat with (S (14 - S o)) by lia.
  simpl List.length. replace (o + S (List.length w))%nat
    with (S o + List.length w)%nat by lia.
  rewrite <- app_assoc. reflexivity.
Qed.

Lemma stored_full (w t : list Z) :
  (14 <= List.length t)%nat -> stored 14 w t = t.
Proof.
  intros Hlen. unfold stored.
  replace (Nat.min (14 + List.length w) 14) with 14%nat by lia.
  replace (14 - 14)%nat with 0%nat by lia.
  simpl firstn at 2. simpl app at 2. apply firstn_skipn.
Qed.

Lemma stored_nil (o : nat) (t : list Z) : (o <= 14)%nat -> stored o [] t = t.
Proof.
  intros Ho. unfold stored. rewrite firstn_nil. simpl List.length.
  rewrite Nat.add_0_r. replace (Nat.min o 14) with o by lia.
  simpl app. apply firstn_skipn.
Qed.

Lemma after_chars_cons (o : nat) (c : Z) (w : list Z) (g : TinyGPS) :
  _term_offset (cursor g) = Z.of_nat o ->
  (o <= 14)%nat ->
  List.length (_term (cursor g)) = 15%nat ->
  after_chars (if (o <? 14)%nat then S o else o) w (ordinary_step c g)
  = after_chars o (c :: w) g.
Proof.
  destruct g as [f n [par ck t ty ubx tn off good] s st].
  simpl. intros -> Ho Hlen.
  unfold after_chars, ordinary_step. simpl cursor. simpl statistics.
  cbv beta iota zeta. simpl _is_checksum_term. simpl _parity.
  simpl _term. simpl _sentence_type. simpl _UBX_message_type.
  simpl _term_number. simpl _gps_data_good. simpl fix_state.
  simpl staged. simpl sats.
  fold (bump st). unfold bumps. simpl List.length. rewrite Nat.iter_succ_r.
  destruct (Nat.ltb_spec o 14) as [Hlt|Hge].
  - assert (Hz : (Z.of_nat o <? 14) = true) by (apply Z.ltb_lt; lia).
    rewrite Hz. rewrite Nat2Z.id. rewrite stored_cons by lia.
    replace (Nat.min (S o + List.length w) 14)
      with (Nat.min (o + S (List.length w)) 14) by lia.
    replace (u8 (Z.of_nat o + 1)) with (Z.of_nat (S o))
      by (unfold u8; rewrite Z.mod_small; lia).
    destruct ck; reflexivity.
  - assert (Hz : (Z.of_nat o <? 14) = false) by (apply Z.ltb_ge; lia).
    rewrite Hz. assert (o = 14%nat) by lia. subst o.
    rewrite !stored_full by lia.
    replace (Nat.min (14 + S (List.length w)) 14)
      with (Nat.min (14 + List.length w) 14) by lia.
    destruct ck; reflexivity.
Qed.

Lemma after_chars_nil (o : nat) (g : TinyGPS) :
  _term_offset (cursor g) = Z.of_nat o ->
  (o <= 14)%nat ->
  after_chars o [] g = g.
Proof.
  destruct g as [f n [par ck t ty ubx tn off good] s st].
  simpl. intros -> Ho. unfold after_chars. simpl.
  rewrite stored_nil by exact Ho. rewrite Nat.add_0_r.
  replace (Nat.min o 14) with o by lia.
  destruct ck; reflexivity.
Qed.

Lemma ordinary_step_shape (c : Z) (g : TinyGPS) (o : nat) :
  _term_offset (cursor g) = Z.of_nat o ->
  (o <= 14)%nat ->
  _term_offset (cursor (ordinary_step c g))
  = Z.of_nat (if (o <? 14)%nat then S o else o)
  /\ List.length (_term (cursor (ordinary_step c g)))
     = List.length (_term (cursor g)).
Proof.
  intros Hoff Ho. unfold ordinary_step. simpl. rewrite Hoff.
  destruct (Nat.ltb_spec o 14) as [Hlt|Hge].
  - assert (Hz : (Z.of_nat o <? 14) = true) by (apply Z.ltb_lt; lia).
    rewrite Hz. split; [unfold u8; rewrite Z.mod_small; lia|apply upd_length].
  - assert (Hz : (Z.of_nat o <? 14) = false) by (apply Z.ltb_ge; lia).
    rewrite Hz. split; reflexivity.
Qed.

Lemma feed_ordinary (pf : platform) (w : list (Z * Z)) :
  forall (o : nat) (g : TinyGPS),
  Forall (fun p => is_ordinary (snd p) = true) w ->
  _term_offset (cursor g) = Z.of_nat o ->
  (o <= 14)%nat ->
  List.length (_term (cursor g)) = 15%nat ->
  feed pf w g
  = Ok (repeat false (List.length w), after_chars o (map snd w) g).
Proof.
  induction w as [|[now c] w IH]; intros o g Hall Hoff Ho Hlen.
  - simpl. rewrite after_chars_nil by assumption. reflexivity.
  - inversion Hall as [|? ? Hc Hw]; subst. simpl in Hc.
    rewrite (feed_cons_ok _ _ _ _ _ _ _ (encode_ordinary pf now c g Hc)).
    destruct (ordinary_step_shape c g o Hoff Ho) as [Hoff' Hlen'].
    rewrite (IH (if (o <? 14)%nat then S o else o)); auto.
    + simpl. rewrite after_chars_cons by assumption. reflexivity.
    + destruct (o <? 14)%nat eqn:E; [apply Nat.ltb_lt in E|]; lia.
    + congruence.
Qed.

(** ** The body of a sentence *)

Lemma in_body_cases (c : Z) :
  in_body c = true -> c = ch "," \/ is_ordinary c = true.
Proof.
  unfold in_body, is_ordinary, is_terminator. intros H.
  destruct (c =? ch ",") eqn:E; [left; apply Z.eqb_eq; exact E|right].
  destruct (c =? ch "$"), (c =? ch "*"), (c =? CR), (c =? LF);
    simpl in *; congruence.
Qed.

Lemma closed_plain (c : Z) (g : TinyGPS) :
  fix_state (closed c g) = fix_state g
  /\ _is_checksum_term (cursor (closed c g)) = _is_checksum_term (cursor g)
  /\ _term_offset (cursor (closed c g)) = _term_offset (cursor g)
  /\ List.length (_term (cursor (closed c g)))
     = List.length (_term (cursor g))
  /\ tracked_sat_rec (sats (closed c g)) = tracked_sat_rec (sats g).
Proof. unfold closed; simpl. rewrite upd_length. repeat split. Qed.

(** A terminator met outside the checksum field. *)
Lemma encode_terminator_plain (pf : platform) (now c : Z) (g g' : TinyGPS)
      (v : bool) :
  is_terminator c = true ->
  _is_checksum_term (cursor g) = false ->
  ready g ->
  encode pf now c g = Ok (v, g') ->
  v = false
  /\ fix_state g' = fix_state g
  /\ _parity (cursor g')
     = (if c =? ch "," then u8 (Z.lxor (_parity (cursor g)) c)
        else _parity (cursor g))
  /\ _is_checksum_term (cursor g') = (c =? ch "*")
  /\ _term_offset (cursor g') = 0
  /\ List.length (_term (cursor g')) = 15%nat
  /\ List.length (tracked_sat_rec (sats g'))
     = List.length (tracked_sat_rec (sats g)).
Proof.
  intros Hc Hck [Hoff Hlen] He.
  rewrite encode_terminator in He by (assumption || lia).
  destruct (term_complete pf now (closed c g)) as [[v1 g1]|i] eqn:Ht;
    simpl in He; [|discriminate].
  injection He as <- <-.
  destruct (closed_plain c g) as (Hf & Hk & _ & Hl & Htab).
  apply term_complete_plain in Ht; [|congruence].
  destruct Ht as (-> & Hf1 & _ & Hp1 & _ & Ht1 & _ & _ & Hl1).
  unfold advance; simpl. repeat split; try congruence.
  rewrite Hp1. unfold closed; simpl. reflexivity.
Qed.

Lemma encode_body_char (pf : platform) (now c : Z) (g g' : TinyGPS) (v : bool) :
  in_body c = true ->
  _is_checksum_term (cursor g) = false ->
  ready g ->
  encode pf now c g = Ok (v, g') ->
  v = false
  /\ fix_state g' = fix_state g
  /\ _parity (cursor g') = u8 (Z.lxor (_parity (cursor g)) c)
  /\ _is_checksum_term (cursor g') = false
  /\ ready g'
  /\ List.length (tracked_sat_rec (sats g'))
     = List.length (tracked_sat_rec (sats g)).
Proof.
  intros Hb Hck Hr He. destruct (in_body_cases c Hb) as [->|Ho].
  - apply encode_terminator_plain in He; auto.
    destruct He as (-> & Hf & Hp & Hk & Hoff & Hl & Htab).
    change (ch "," =? ch ",") with true in Hp.
    change (ch "," =? ch "*") with false in Hk.
    unfold ready. rewrite Hoff. repeat split; auto; lia.
  - rewrite encode_ordinary in He by exact Ho. injection He as <- <-.
    destruct Hr as [Hoff Hlen].
    destruct (ordinary_step_shape c g (Z.to_nat (_term_offset (cursor g))))
      as [Hoff' Hlen']; [lia|lia|].
    assert (Hr' : ready (ordinary_step c g)).
    { unfold ready. rewrite Hoff', Hlen'. split; [|exact Hlen].
      destruct (Z.to_nat (_term_offset (cursor g)) <? 14)%nat eqn:E;
        [apply Nat.ltb_lt in E|apply Nat.ltb_ge in E]; lia. }
    unfold ordinary_step in *; simpl in *. rewrite Hck.
    repeat split; auto; apply Hr'.
Qed.

Lemma feed_body (pf : platform) (body : list (Z * Z)) :
  forall (g g' : TinyGPS) (vs : list bool),
  Forall (fun p => in_body (snd p) = true) body ->
  _is_checksum_term (cursor g) = false ->
  ready g ->
  feed pf body g = Ok (vs, g') ->
  Forall (fun v => v = false) vs
  /\ fix_state g' = fix_state g
  /\ _parity (cursor g') = xor_fold (_parity (cursor g)) (map snd body)
  /\ _is_checksum_term (cursor g') = false
  /\ ready g'
  /\ List.length (tracked_sat_rec (sats g'))
     = List.length (tracked_sat_rec (sats g)).
Proof.
  induction body as [|[now c] body IH]; intros g g' vs Hall Hck Hr Hf.
  - simpl in Hf. injection Hf as <- <-. repeat split; auto; apply Hr.
  - inversion Hall as [|? ? Hc Hb]; subst. simpl in Hc. simpl in Hf.
    destruct (encode pf now c g) as [[v g1]|i] eqn:He; simpl in Hf;
      [|discriminate].
    destruct (feed pf body g1) as [[vs1 g2]|i] eqn:Hf1; simpl in Hf;
      [|discriminate].
    injection Hf as <- <-.
    apply encode_body_char in He; auto.
    destruct He as (-> & Hfx & Hp & Hk & Hr1 & Htab).
    apply IH in Hf1; auto.
    destruct Hf1 as (Hvs & Hfx2 & Hp2 & Hk2 & Hr2 & Htab2).
    repeat split; try (apply Hr2); try congruence.
    + constructor; auto.
    + rewrite Hp2, Hp. reflexivity.
Qed.

(** From the sentence-start marker to the checksum marker. *)
Lemma feed_to_checksum (pf : platform) (t0 t1 : Z) (body : list (Z * Z))
      (g g' : TinyGPS) (vs : list bool) :
  Forall (fun p => in_body (snd p) = true) body ->
  List.length (_term (cursor g)) = 15%nat ->
  feed pf ((t0, ch "$") :: body ++ [(t1, ch "*")]) g = Ok (vs, g') ->
  Forall (fun v => v = false) vs
  /\ fix_state g' = fix_state g
  /\ _parity (cursor g') = xor_fold 0 (map snd body)
  /\ _is_checksum_term (cursor g') = true
  /\ _term_offset (cursor g') = 0
  /\ List.length (_term (cursor g')) = 15%nat
  /\ List.length (tracked_sat_rec (sats g'))
     = List.length (tracked_sat_rec (sats g)).
Proof.
  intros Hall Hlen Hf.
  rewrite (feed_cons_ok _ _ _ _ _ _ _ (encode_start pf t0 g)) in Hf.
  rewrite feed_app in Hf.
  destruct (feed pf body (start_step g)) as [[vs1 g1]|i] eqn:Hb;
    simpl in Hf; [|discriminate].
  destruct (encode pf t1 (ch "*") g1) as [[v2 g2]|i] eqn:He;
    simpl in Hf; [|discriminate].
  injection Hf as <- <-.
  apply feed_body in Hb; auto; [|split; simpl; [lia|exact Hlen]].
  destruct Hb as (Hvs & Hfx & Hp & Hk & Hr & Htab).
  apply encode_terminator_plain in He; auto.
  destruct He as (-> & Hfx2 & Hp2 & Hk2 & Hoff2 & Hl2 & Htab2).
  change (ch "*" =? ch ",") with false in Hp2.
  change (ch "*" =? ch "*") with true in Hk2.
  change (fix_state (start_step g)) with (fix_state g) in Hfx.
  change (_parity (cursor (start_step g))) with 0 in Hp.
  change (tracked_sat_rec (sats (start_step g)))
    with (tracked_sat_rec (sats g)) in Htab.
  repeat split; auto; try congruence.
  constructor. { reflexivity. }
  apply Forall_app. split; [exact Hvs|repeat constructor].
Qed.

(** ** The checksum *)

Lemma u8_lxor (a b : Z) : u8 (Z.lxor a b) = Z.lxor (u8 a) (u8 b).
Proof.
  unfold u8. change 256 with (2 ^ 8).
  apply Z.bits_inj'. intros n Hn. rewrite Z.lxor_spec.
  destruct (Z.ltb_spec n 8).
  - rewrite !Z.mod_pow2_bits_low by lia. rewrite Z.lxor_spec. reflexivity.
  - rewrite !Z.mod_pow2_bits_high by lia. reflexivity.
Qed.

Lemma u8_u8 (x : Z) : u8 (u8 x) = u8 x.
Proof. unfold u8. apply Z.mod_mod. lia. Qed.

Lemma u8_byte (x : Z) : is_byte x -> u8 x = x.
Proof. unfold u8, is_byte. intros H. apply Z.mod_small. exact H. Qed.

Lemma xor_fold_u8 (cs : list Z) :
  forall p q : Z, u8 p = u8 q ->
  u8 (xor_fold p cs) = u8 (fold_left Z.lxor cs q).
Proof.
  unfold xor_fold. induction cs as [|c cs IH]; intros p q Hpq; simpl.
  - exact Hpq.
  - apply IH. rewrite u8_u8, !u8_lxor, Hpq. reflexivity.
Qed.

Lemma xor_fold_byte (cs : list Z) (p : Z) :
  is_byte p -> is_byte (xor_fold p cs).
Proof.
  unfold xor_fold. revert p; induction cs as [|c cs IH]; intros p Hp; simpl.
  - exact Hp.
  - apply IH. unfold is_byte, u8. apply Z.mod_pos_bound. lia.
Qed.

Lemma xor_fold_parity (cs : list Z) : xor_fold 0 cs = parity_of cs.
Proof.
  unfold parity_of. rewrite <- (xor_fold_u8 cs 0 0 eq_refl). symmetry.
  apply u8_byte.
  apply xor_fold_byte. unfold is_byte. lia.
Qed.

Lemma lxor_byte (a b : Z) : is_byte a -> is_byte b -> is_byte (Z.lxor a b).
Proof.
  intros Ha Hb. rewrite <- (u8_byte a Ha), <- (u8_byte b Hb), <- u8_lxor.
  unfold is_byte, u8. apply Z.mod_pos_bound. lia.
Qed.

Lemma parity_of_bytes (cs : list Z) :
  Forall is_byte cs -> parity_of cs = fold_left Z.lxor cs 0.
Proof.
  intros H. unfold parity_of. apply u8_byte.
  assert (Hgen : forall p, is_byte p -> is_byte (fold_left Z.lxor cs p)).
  { induction H as [|c cs Hc Hcs IH]; intros p Hp; simpl; [exact Hp|].
    apply IH. apply lxor_byte; assumption. }
  apply Hgen. unfold is_byte. lia.
Qed.

(** A terminator met inside the checksum field runs the commit protocol
    on the closed term. *)
Lemma encode_checksum_term (pf : platform) (now c : Z) (g : TinyGPS) :
  is_terminator c = true ->
  _is_checksum_term (cursor g) = true ->
  _term_offset (cursor g) < 15 ->
  encode pf now c g
  = Ok (fst (commit pf (closed c g)), advance c (snd (commit pf (closed c g)))).
Proof.
  intros Hc Hck Hoff. rewrite encode_terminator by assumption.
  unfold term_complete.
  change (_is_checksum_term (cursor (closed c g)))
    with (_is_checksum_term (cursor g)).
  rewrite Hck. reflexivity.
Qed.

Lemma commit_mismatch (pf : platform) (g : TinyGPS) :
  checksum pf (cursor g) <> _parity (cursor g) ->
  fst (commit pf g) = false /\ fix_state (snd (commit pf g)) = fix_state g.
Proof.
  intros H. unfold commit. apply Z.eqb_neq in H. rewrite H. simpl. auto.
Qed.

Lemma eol_terminator (c : Z) :
  is_eol c -> is_terminator c = true /\ (c =? ch ",") = false.
Proof. intros [->| ->]; split; reflexivity. Qed.

(** [C5] When the checksum field of a sentence is closed by a line
    terminator, the commit protocol runs on a state whose parity is the
    exclusive-or of exactly the characters received between the ['$'] and
    the ['*'], commas included, whatever the checksum field holds. *)
Theorem parity_at_checksum (pf : platform) (t0 t1 now eol : Z)
        (body ck : list (Z * Z)) (g g1 : TinyGPS) (vs : list bool) :
  Forall (fun p => in_body (snd p) = true) body ->
  Forall (fun p => is_byte (snd p)) body ->
  Forall (fun p => is_ordinary (snd p) = true) ck ->
  is_eol eol ->
  List.length (_term (cursor g)) = 15%nat ->
  feed pf ((t0, ch "$") :: body ++ [(t1, ch "*")] ++ ck) g = Ok (vs, g1) ->
  encode pf now eol g1
  = Ok (fst (commit pf (closed eol g1)),
        advance eol (snd (commit pf (closed eol g1))))
  /\ _is_checksum_term (cursor (closed eol g1)) = true
  /\ _parity (cursor (closed eol g1)) = fold_left Z.lxor (map snd body) 0.
Proof.
  intros Hbody Hbytes Hck Heol Hlen Hf.
  rewrite app_assoc, app_comm_cons, feed_app in Hf.
  destruct (feed pf ((t0, ch "$") :: body ++ [(t1, ch "*")]) g)
    as [[vs0 g0]|i] eqn:H0; simpl in Hf; [|discriminate].
  apply feed_to_checksum in H0; auto.
  destruct H0 as (_ & _ & Hp & Hk & Hoff & Hl & _).
  rewrite (feed_ordinary pf ck 0 g0) in Hf by (auto; lia).
  simpl in Hf. injection Hf as _ <-.
  destruct (eol_terminator eol Heol) as [Ht Hcomma].
  split; [|split].
  - apply encode_checksum_term; [exact Ht|exact Hk|].
    unfold after_chars; simpl. lia.
  - unfold closed, after_chars; simpl. exact Hk.
  - unfold closed, after_chars; simpl. rewrite Hcomma, Hk, Hp.
    rewrite xor_fold_parity. apply parity_of_bytes.
    apply Forall_map. exact Hbytes.
Qed.

(** [C1] A sentence whose two checksum digits do not give the parity of
    its body leaves the published fix exactly as it was before the
    sentence began: no call of the sentence changes it, and the call that
    closes the checksum field returns false. *)
Theorem failed_checksum_keeps_fix (pf : platform) (t0 t1 t2 t3 t4 : Z)
        (body : list (Z * Z)) (h1 h2 eol : Z) (g g1 : TinyGPS)
        (vs : list bool) :
  Forall (fun p => in_body (snd p) = true) body ->
  is_ordinary h1 = true ->
  is_ordinary h2 = true ->
  is_eol eol ->
  List.length (_term (cursor g)) = 15%nat ->
  feed pf ((t0, ch "$") :: body ++ [(t1, ch "*"); (t2, h1); (t3, h2)]) g
  = Ok (vs, g1) ->
  u8 (16 * from_hex pf h1 + from_hex pf h2) <> parity_of (map snd body) ->
  Forall (fun v => v = false) vs
  /\ fix_state g1 = fix_state g
  /\ exists g2 : TinyGPS,
       encode pf t4 eol g1 = Ok (false, g2) /\ fix_state g2 = fix_state g.
Proof.
  intros Hbody Hh1 Hh2 Heol Hlen Hf Hbad.
  change [(t1, ch "*"); (t2, h1); (t3, h2)]
    with ([(t1, ch "*")] ++ [(t2, h1); (t3, h2)]) in Hf.
  rewrite app_assoc, app_comm_cons, feed_app in Hf.
  destruct (feed pf ((t0, ch "$") :: body ++ [(t1, ch "*")]) g)
    as [[vs0 g0]|i] eqn:H0; [|discriminate].
  unfold bind at 1 in Hf. unfold snd at 1, fst at 1 in Hf.
  apply feed_to_checksum in H0; auto.
  destruct H0 as (Hvs0 & Hfx & Hp & Hk & Hoff & Hl & _).
  rewrite (feed_ordinary pf [(t2, h1); (t3, h2)] 0 g0) in Hf
    by (auto; lia).
  simpl in Hf. injection Hf as <- <-.
  destruct (eol_terminator eol Heol) as [Ht Hcomma].
  split; [|split].
  - apply Forall_app. split; [exact Hvs0|repeat constructor].
  - exact Hfx.
  - eexists. rewrite encode_checksum_term; [| exact Ht | exact Hk | simpl; lia].
    destruct (commit_mismatch pf (closed eol (after_chars 0 [h1; h2] g0)))
      as [Hv Hfix].
    + unfold closed, after_chars, checksum; simpl.
      rewrite Hcomma, Hk, Hp, xor_fold_parity.
      destruct (_term (cursor g0)) as [|x0 [|x1 [|x2 t]]];
        try (simpl in Hl; discriminate).
      exact Hbad.
    + rewrite Hv. split; [reflexivity|].
      unfold advance; simpl. rewrite Hfix. exact Hfx.
Qed.

(** ** The commit protocol *)

(** [C3] On a checksum field that matches the parity, the staged clock
    values are promoted for RMC, PUBX-4 and ZDA sentences whatever the
    data-good flag says; when the flag is set the per-sentence fields are
    promoted as well and [term_complete] returns true. *)
Theorem commit_promotes (pf : platform) (now : Z) (g : TinyGPS) :
  _is_checksum_term (cursor g) = true ->
  checksum pf (cursor g) = _parity (cursor g) ->
  exists (v : bool) (g' : TinyGPS),
    term_complete pf now g = Ok (v, g')
    /\ let k := cursor g in
       let n := staged g in
       let f := fix_state g' in
       ((_sentence_type k = _GPS_SENTENCE_GPRMC
         \/ (_sentence_type k = _GPS_SENTENCE_PUBX /\ _UBX_message_type k = 4)) ->
        _time f = _new_time n /\ _date f = _new_date n
        /\ _last_time_fix f = _new_time_fix n)
       /\ (_sentence_type k = _GPS_SENTENCE_GPZDA ->
           _time f = _new_time n /\ _last_time_fix f = _new_time_fix n
           /\ _day f = _new_day n /\ _month f = _new_month n
           /\ _year f = _new_year n /\ _last_date_fix f = _new_date_fix n)
       /\ (_gps_data_good k = true ->
           v = true
           /\ _last_time_fix f = _new_time_fix n
           /\ _last_position_fix f = _new_position_fix n
           /\ (_sentence_type k = _GPS_SENTENCE_GPRMC ->
               _time f = _new_time n /\ _date f = _new_date n
               /\ _latitude f = _new_latitude n
               /\ _longitude f = _new_longitude n
               /\ _speed f = _new_speed n /\ _course f = _new_course n)
           /\ (_sentence_type k = _GPS_SENTENCE_GPGGA ->
               _altitude f = _new_altitude n /\ _time f = _new_time n
               /\ _latitude f = _new_latitude n
               /\ _longitude f = _new_longitude n
               /\ _numsats f = _new_numsats n /\ _hdop f = _new_hdop n)
           /\ (_sentence_type k = _GPS_SENTENCE_PUBX
               /\ _UBX_message_type k = 0 ->
               _time f = _new_time n /\ _latitude f = _new_latitude n
               /\ _longitude f = _new_longitude n
               /\ _speed f = _new_speed n /\ _course f = _new_course n
               /\ _altitude f = _new_altitude n
               /\ _numsats f = _new_numsats n /\ _hdop f = _new_hdop n)).
Proof.
  intros Hck Hsum. unfold term_complete. rewrite Hck.
  exists (fst (commit pf g)), (snd (commit pf g)).
  split; [destruct (commit pf g); reflexivity|].
  unfold commit. apply Z.eqb_eq in Hsum. rewrite Hsum.
  destruct g as [f n [par ck t ty ubx tn off good] s st]. simpl.
  clear Hck Hsum.
  unfold carries_clock, promote_fields. simpl.
  destruct (ubx =? 4) eqn:E4; destruct (ubx =? 0) eqn:E0;
    destruct good; destruct ty; simpl;
    intuition (subst; simpl in *; try discriminate; try reflexivity).
Qed.

(** ** Which calls change the published fix *)

Lemma commit_false (pf : platform) (g : TinyGPS) :
  fst (commit pf g) = false ->
  position_part (fix_state (snd (commit pf g))) = position_part (fix_state g)
  /\ (fix_state (snd (commit pf g)) = fix_state g
      \/ (checksum pf (cursor g) = _parity (cursor g)
          /\ _gps_data_good (cursor g) = false
          /\ (carries_clock (cursor g) = true
              \/ _sentence_type (cursor g) = _GPS_SENTENCE_GPZDA))).
Proof.
  unfold commit.
  destruct (checksum pf (cursor g) =? _parity (cursor g)) eqn:E;
    [apply Z.eqb_eq in E|simpl; auto].
  destruct (_gps_data_good (cursor g)); simpl; [discriminate|].
  intros _. split.
  - destruct (carries_clock (cursor g)), (_sentence_type (cursor g));
      reflexivity.
  - destruct (carries_clock (cursor g)) eqn:Hc.
    + right. auto.
    + destruct (_sentence_type (cursor g)) eqn:Ht; auto.
Qed.

Lemma fix_state_advance (c : Z) (g : TinyGPS) :
  fix_state (advance c g) = fix_state g.
Proof. reflexivity. Qed.

(** What a call that returns false can have done to the fix. *)
Lemma encode_returns_false (pf : platform) (now c : Z) (g g' : TinyGPS) :
  encode pf now c g = Ok (false, g') ->
  position_part (fix_state g') = position_part (fix_state g)
  /\ (fix_state g' = fix_state g \/ clock_only_commit pf c g).
Proof.
  intros He. destruct (is_terminator c) eqn:Ht.
  - destruct (Z.ltb_spec (_term_offset (cursor g)) 15) as [Hlt|Hge].
    + destruct (_is_checksum_term (cursor g)) eqn:Hck.
      * rewrite encode_checksum_term in He by assumption.
        injection He as Hv' <-.
        destruct (commit_false pf (closed c g) Hv') as [Hpos Hrest].
        rewrite fix_state_advance. split; [exact Hpos|].
        destruct Hrest as [Hsame|(Hsum & Hgood & Htype)];
          [left; exact Hsame|right].
        unfold clock_only_commit. repeat split; assumption.
      * rewrite encode_terminator in He by assumption.
        destruct (term_complete pf now (closed c g)) as [[v1 g1]|i] eqn:Htc;
          simpl in He; [|discriminate].
        injection He as -> <-.
        apply term_complete_plain in Htc; [|exact Hck].
        destruct Htc as (_ & Hfx & _). rewrite fix_state_advance.
        change (fix_state (closed c g)) with (fix_state g) in Hfx.
        rewrite Hfx. auto.
    + unfold encode in He. rewrite Ht in He.
      apply Z.ltb_ge in Hge.
      destruct (c =? ch ","); simpl in He; rewrite Hge in He;
        simpl in He; injection He as <-; simpl; auto.
  - destruct (c =? ch "$") eqn:Hd.
    + apply Z.eqb_eq in Hd. subst c. rewrite encode_start in He.
      injection He as <-. simpl. auto.
    + rewrite encode_ordinary in He
        by (unfold is_ordinary; rewrite Ht, Hd; reflexivity).
      injection He as <-. simpl. auto.
Qed.

(** [C2], as the code has it.  A call of [encode] that returns false
    leaves the position part of the fix unchanged, so a call that changes
    it returns true; a call that returns false can change the rest of the
    fix (time, date, year, month, day and their timestamps) only by
    closing a matching checksum field of an RMC, PUBX-4 or ZDA sentence
    received without a fix. *)
Theorem false_call_keeps_position (pf : platform) (now c : Z)
        (g g' : TinyGPS) (v : bool) :
  encode pf now c g = Ok (v, g') ->
  (position_part (fix_state g') <> position_part (fix_state g) -> v = true)
  /\ (v = false ->
      position_part (fix_state g') = position_part (fix_state g)
      /\ (fix_state g' = fix_state g \/ clock_only_commit pf c g)).
Proof.
  intros He. split.
  - intros Hne. destruct v; [reflexivity|].
    destruct (encode_returns_false _ _ _ _ _ He) as [Hpos _]. contradiction.
  - intros ->. exact (encode_returns_false _ _ _ _ _ He).
Qed.

(** ** Concrete streams *)

Lemma Forall_forallb {A : Type} (f : A -> bool) (l : list A) :
  forallb f l = true -> Forall (fun x => f x = true) l.
Proof. intros H. apply Forall_forall. apply forallb_forall. exact H. Qed.

Lemma Forall_is_byte {A : Type} (f : A -> Z) (l : list A) :
  forallb (fun x => is_byteb (f x)) l = true ->
  Forall (fun x => is_byte (f x)) l.
Proof.
  intros H. apply Forall_forall. intros x Hx.
  rewrite forallb_forall in H. specialize (H x Hx).
  unfold is_byteb in H. apply andb_prop in H. destruct H as [H1 H2].
  apply Z.leb_le in H1. apply Z.ltb_lt in H2. split; assumption.
Qed.

Lemma well_formed_ctor (mem : TinyGPS) :
  well_formed mem -> well_formed (TinyGPS_ctor mem).
Proof.
  intros [H1 H2]. split; [|exact H2].
  unfold TinyGPS_ctor. cbn [cursor _term]. rewrite upd_length. exact H1.
Qed.

(** [C2], counterexample.  The call that closes the checksum field of an
    RMC sentence received without a fix returns false, and yet it
    publishes the staged time: the fix after the call differs from the
    fix before it. *)
Lemma false_call_changes_time :
  encode ARM32 1000 CR
    (state_after ARM32 (at_time 1000 rmc_nofix_sentence) fresh)
  = Ok (false,
        state_after ARM32 (at_time 1000 (rmc_nofix_sentence ++ [CR])) fresh)
  /\ _time (fix_state
       (state_after ARM32 (at_time 1000 rmc_nofix_sentence) fresh))
     = GPS_INVALID_TIME
  /\ _time (fix_state
       (state_after ARM32 (at_time 1000 (rmc_nofix_sentence ++ [CR])) fresh))
     = 4510300.
Proof. split; [|split]; vm_compute; reflexivity. Qed.

(** ** The field buffer *)

Lemma upd_app_at (a b : list Z) (x : Z) :
  upd (List.length a) x (a ++ b) = a ++ upd 0 x b.
Proof. induction a as [|y a IH]; simpl; [reflexivity|]. rewrite IH. reflexivity. Qed.

Lemma cstr_app_nul (a b : list Z) : cstr (a ++ 0 :: b) = cstr a.
Proof.
  induction a as [|y a IH]; simpl; [reflexivity|].
  destruct (y =? 0); [reflexivity|]. rewrite IH. reflexivity.
Qed.

Lemma stored_0 (w t : list Z) :
  stored 0 w t = firstn 14 w ++ skipn (Nat.min (List.length w) 14) t.
Proof. reflexivity. Qed.

Lemma length_firstn_14 (w : list Z) :
  List.length (firstn 14 w) = Nat.min (List.length w) 14.
Proof. rewrite length_firstn. lia. Qed.

Lemma stored_length (w t : list Z) :
  List.length t = 15%nat -> List.length (stored 0 w t) = 15%nat.
Proof.
  intros H. rewrite stored_0, length_app, length_firstn_14, length_skipn. lia.
Qed.

Lemma closed_buffer (w t : list Z) :
  List.length t = 15%nat ->
  exists r : list Z,
    upd (Nat.min (List.length w) 14) 0 (stored 0 w t) = firstn 14 w ++ 0 :: r.
Proof.
  intros H. rewrite stored_0, <- length_firstn_14, upd_app_at.
  rewrite length_firstn_14.
  destruct (skipn (Nat.min (List.length w) 14) t) as [|y r] eqn:E.
  - apply (f_equal (@List.length Z)) in E. rewrite length_skipn in E.
    simpl in E. lia.
  - exists r. reflexivity.
Qed.

Lemma cstr_closed_buffer (w t : list Z) :
  List.length t = 15%nat ->
  cstr (upd (Nat.min (List.length w) 14) 0 (stored 0 w t)) = term_of w.
Proof.
  intros H. destruct (closed_buffer w t H) as [r ->]. apply cstr_app_nul.
Qed.


(** ** The satellite table *)

Lemma nth_upd (i j : nat) (x d : Z) (l : list Z) :
  nth i (upd j x l) d
  = if (i =? j)%nat && (j <? List.length l)%nat then x else nth i l d.
Proof.
  revert i j; induction l as [|y l IH]; intros i j; simpl.
  - destruct i, j; simpl; try reflexivity; rewrite andb_false_r; reflexivity.
  - destruct j as [|j]; destruct i as [|i]; simpl; try reflexivity.
    rewrite IH. reflexivity.
Qed.

Lemma nth_reset_range (n first i : nat) (d : Z) (table : list Z) :
  (first + n <= List.length table)%nat ->
  nth i (fold_left (fun t x => upd x 0 t) (seq first n) table) d
  = if (first <=? i)%nat && (i <? first + n)%nat then 0 else nth i table d.
Proof.
  revert first table; induction n as [|n IH]; intros first table Hlen; simpl.
  - destruct (Nat.leb_spec first i), (Nat.ltb_spec i (first + 0)); simpl;
      try reflexivity; lia.
  - rewrite IH by (rewrite upd_length; lia). rewrite nth_upd.
    destruct (Nat.leb_spec (S first) i), (Nat.ltb_spec i (S first + n)),
      (Nat.leb_spec first i), (Nat.ltb_spec i (first + S n)),
      (Nat.eqb_spec i first), (Nat.ltb_spec first (List.length table));
      simpl; try reflexivity; lia.
Qed.

Lemma nth_reset_slots (first i : nat) (d : Z) (table : list Z) :
  (first + 12 <= List.length table)%nat ->
  nth i (reset_slots first table) d
  = if (first <=? i)%nat && (i <? first + 12)%nat then 0 else nth i table d.
Proof. apply nth_reset_range. Qed.

Lemma dispatch_gsv_start (pf : platform) (now : Z) (g : TinyGPS) :
  is_gsv (_sentence_type (cursor g)) ->
  _term_number (cursor g) = 2 ->
  dispatch pf now g
  = let c := cursor g in
    let s := sats g in
    let msgId := u8 (atoi pf (cstr (_term c)) - 1) in
    Ok (set_sats
          (set_sat_index
             (match _sentence_type c with
              | _GPS_SENTENCE_GLGSV => u8 (msgId * 4 + 12)
              | _ => u8 (msgId * 4)
              end)
             (set_tracked_sat_rec
                (if msgId =? 0 then
                   match _sentence_type c with
                   | _GPS_SENTENCE_GPGSV => reset_slots 0 (tracked_sat_rec s)
                   | _ => reset_slots 12 (tracked_sat_rec s)
                   end
                 else tracked_sat_rec s) s)) g).
Proof.
  destruct g as [f n [par ck t ty ubx tn off good] s st]. simpl.
  intros [-> | ->] ->; destruct pf; reflexivity.
Qed.

Lemma dispatch_gsv_strength (pf : platform) (now : Z) (g : TinyGPS) :
  is_gsv (_sentence_type (cursor g)) ->
  In (_term_number (cursor g)) [7; 11; 15; 19] ->
  dispatch pf now g
  = store_sat (sat_slot g)
      (packed pf (_tracked_satellites_index (sats g))
         (u8 (atoi pf (cstr (_term (cursor g)))))) g.
Proof.
  destruct g as [f n [par ck t ty ubx tn off good] s st]. simpl.
  unfold packed.
  intros [-> | ->] [<- | [<- | [<- | [<- | []]]]]; destruct pf;
    unfold dispatch; cbv zeta;
    match goal with
    | |- (if ?b then _ else _) = _ => idtac
    end;
    simpl;
    destruct (u8 _ =? 0); reflexivity.
Qed.

Lemma term_complete_dispatch (pf : platform) (now : Z) (g : TinyGPS) :
  _is_checksum_term (cursor g) = false ->
  _term_number (cursor g) <> 0 ->
  _sentence_type (cursor g) <> _GPS_SENTENCE_OTHER ->
  (_sentence_type (cursor g) = _GPS_SENTENCE_PUBX ->
   _term_number (cursor g) <> 1) ->
  nth 0 (_term (cursor g)) 0 <> 0 ->
  term_complete pf now g = (g' <- dispatch pf now g ;; Ok (false, g')).
Proof.
  intros Hck Htn Hty Hpubx Ht0. unfold term_complete. rewrite Hck.
  apply Z.eqb_neq in Htn, Ht0. rewrite Htn, Ht0.
  destruct (_sentence_type (cursor g)) eqn:E; simpl; try reflexivity.
  - assert (H1 : (_term_number (cursor g) =? 1) = false)
      by (apply Z.eqb_neq; apply Hpubx; reflexivity).
    rewrite H1. reflexivity.
  - congruence.
Qed.

Lemma lor_bound (n a b : Z) :
  0 < n -> 0 <= a < 2 ^ n -> 0 <= b < 2 ^ n -> 0 <= Z.lor a b < 2 ^ n.
Proof.
  intros Hn Ha Hb.
  assert (H0 : 0 <= Z.lor a b) by (apply Z.lor_nonneg; lia).
  split; [exact H0|].
  destruct (Z.eq_dec (Z.lor a b) 0) as [E|E]; [rewrite E; lia|].
  apply Z.log2_lt_pow2; [lia|].
  rewrite Z.log2_lor by lia.
  apply Z.max_lub_lt.
  - destruct (Z.eq_dec a 0) as [->|]; [simpl; lia|].
    apply Z.log2_lt_pow2; lia.
  - destruct (Z.eq_dec b 0) as [->|]; [simpl; lia|].
    apply Z.log2_lt_pow2; lia.
Qed.

Lemma packed_exact (pf : platform) (p s : Z) :
  s <> 0 -> 0 <= s < 256 ->
  0 <= p < 2 ^ (int_bits pf - 9) ->
  packed pf p s = Z.lor (Z.shiftl p 8) (Z.shiftl s 1).
Proof.
  intros Hs0 Hs Hp. unfold packed. apply Z.eqb_neq in Hs0. rewrite Hs0.
  rewrite !Z.shiftl_mul_pow2 by lia.
  assert (Hp31 : 0 <= p * 2 ^ 8 < 2 ^ (int_bits pf - 1)).
  { replace (int_bits pf - 1) with ((int_bits pf - 9) + 8) by lia.
    destruct pf; simpl in *; lia. }
  assert (Hsint : sint pf (p * 2 ^ 8) = p * 2 ^ 8).
  { unfold sint. destruct pf; simpl in *; rewrite Z.mod_small; lia. }
  rewrite Hsint. unfold u32. apply Z.mod_small.
  assert (H := lor_bound 31 (p * 2 ^ 8) (s * 2 ^ 1)).
  destruct pf; simpl in *; lia.
Qed.


(** [C10], failing input.  GSV message 4 of a GLONASS sequence puts the
    write cursor at [3 * 4 + 12 = 24]: the strength field of its first
    satellite is stored to [tracked_sat_rec[24]], one past the end of the
    array. *)
Theorem gsv_store_out_of_bounds (pf : platform) :
  feed pf (at_time 1000 glgsv_fourth) fresh = OutOfBounds 24.
Proof. destruct pf; vm_compute; reflexivity. Qed.

(** ** Sentinel values *)

Lemma feed_unvalidated (pf : platform) (input : list (Z * Z)) :
  forall (g g' : TinyGPS) (vs : list bool),
  feed pf input g = Ok (vs, g') ->
  Forall (fun v => v = false) vs ->
  position_part (fix_state g') = position_part (fix_state g)
  /\ (no_clock_commit pf input g -> fix_state g' = fix_state g).
Proof.
  induction input as [|[now c] input IH]; intros g g' vs Hf Hvs.
  - simpl in Hf. injection Hf as <- <-. auto.
  - simpl in Hf.
    destruct (encode pf now c g) as [[v g1]|i] eqn:He; simpl in Hf;
      [|discriminate].
    destruct (feed pf input g1) as [[vs1 g2]|i] eqn:Hf1; simpl in Hf;
      [|discriminate].
    injection Hf as <- <-.
    inversion Hvs as [|? ? Hv Hvs1]; subst.
    destruct (encode_returns_false _ _ _ _ _ He) as [Hpos Hrest].
    destruct (IH _ _ _ Hf1 Hvs1) as [Hpos1 Hrest1].
    split; [congruence|].
    simpl. rewrite He. intros [Hno Hnext].
    rewrite (Hrest1 Hnext).
    destruct Hrest as [Hsame|Hcommit]; [exact Hsame|contradiction].
Qed.

(** [C9], as the code has it.  From construction on, and as long as no
    call of [encode] has returned true, the position, altitude, course,
    speed, hdop and satellite accessors return their sentinels and
    [get_position] reports [GPS_INVALID_AGE]; date, time and the age of
    [get_datetime] keep their sentinels as long as, in addition, no RMC,
    PUBX-4 or ZDA sentence has passed its checksum without a fix. *)
Theorem sentinels_until_validated (pf : platform) (mem : TinyGPS)
        (input : list (Z * Z)) (now : Z) (g : TinyGPS) (vs : list bool) :
  feed pf input (TinyGPS_ctor mem) = Ok (vs, g) ->
  Forall (fun v => v = false) vs ->
  get_position now g
  = (GPS_INVALID_ANGLE, GPS_INVALID_ANGLE, GPS_INVALID_AGE)
  /\ altitude g = GPS_INVALID_ALTITUDE
  /\ course g = GPS_INVALID_ANGLE
  /\ speed g = GPS_INVALID_SPEED
  /\ hdop g = GPS_INVALID_HDOP
  /\ satellites g = GPS_INVALID_SATELLITES
  /\ (no_clock_commit pf input (TinyGPS_ctor mem) ->
      get_datetime now g
      = (GPS_INVALID_DATE, GPS_INVALID_TIME, GPS_INVALID_AGE)).
Proof.
  intros Hf Hvs.
  destruct (feed_unvalidated pf input _ _ _ Hf Hvs) as [Hpos Hall].
  unfold position_part in Hpos. simpl in Hpos.
  injection Hpos as Hlat Hlon Halt Hspeed Hcourse Hhdop Hsats Hfixt.
  unfold get_position, get_datetime, altitude, course, speed, hdop, satellites.
  rewrite Hlat, Hlon, Halt, Hspeed, Hcourse, Hhdop, Hsats, Hfixt.
  repeat (split; [reflexivity|]).
  intros Hno. rewrite (Hall Hno). reflexivity.
Qed.

(** [C9], counterexample.  After an RMC sentence received without a fix
    no call of [encode] has returned true, and yet [get_datetime] reports
    the date and time of the sentence and a valid age. *)
Lemma unvalidated_clock_is_published :
  forallb negb
    (returns_of ARM32 (at_time 1000 (rmc_nofix_sentence ++ [CR])) fresh)
  = true
  /\ get_datetime 2000
       (state_after ARM32 (at_time 1000 (rmc_nofix_sentence ++ [CR])) fresh)
     = (30913, 4510300, 1000)
  /\ GPS_INVALID_TIME <> 4510300.
Proof. split; [|split]; vm_compute; (reflexivity || discriminate). Qed.

(** ** Decoding an RMC sentence *)

Lemma nth0_cstr (t : list Z) : nth 0 t 0 = hd 0 (cstr t).
Proof.
  destruct t as [|c t]; simpl; [reflexivity|].
  destruct (c =? 0) eqn:E; [apply Z.eqb_eq in E; exact E|reflexivity].
Qed.

Lemma dispatch_rmc (pf : platform) (now : Z) (g : TinyGPS) :
  _sentence_type (cursor g) = _GPS_SENTENCE_GPRMC ->
  1 <= _term_number (cursor g) < 32 ->
  dispatch pf now g
  = let k := _term_number (cursor g) in
    let term := cstr (_term (cursor g)) in
    Ok (mkTinyGPS (fix_state g)
          (rmc_stage (millis now) k term (staged g))
          (set_gps_data_good
             (rmc_good k term (_gps_data_good (cursor g))) (cursor g))
          (sats g) (statistics g)).
Proof.
  destruct g as [f n [par ck t ty ubx k off good] s st]. simpl.
  intros -> Hk. unfold dispatch. cbv zeta. simpl cursor. simpl staged.
  simpl sats. simpl _term. simpl _sentence_type. simpl _term_number.
  rewrite !nth0_cstr.
  assert (H :
     k = 1 \/ k = 2 \/ k = 3 \/ k = 4 \/ k = 5 \/ k = 6 \/ k = 7 \/ k
     = 8 \/ k = 9 \/ k = 10 \/ k = 11 \/ k = 12 \/ k = 13 \/ k = 14 \/
     k = 15 \/ k = 16 \/ k = 17 \/ k = 18 \/ k = 19 \/ k = 20 \/ k =
     21 \/ k = 22 \/ k = 23 \/ k = 24 \/ k = 25 \/ k = 26 \/ k = 27 \/
     k = 28 \/ k = 29 \/ k = 30 \/ k = 31)
    by lia.
  unfold rmc_stage, rmc_good.
  repeat (destruct H as [->|H]); try subst k; destruct pf;
    first [ reflexivity
          | destruct (hd 0 (cstr t) =? ch "S"); reflexivity
          | destruct (hd 0 (cstr t) =? ch "W"); reflexivity ].
Qed.

Lemma term_complete_rmc (pf : platform) (now : Z) (g : TinyGPS) :
  _is_checksum_term (cursor g) = false ->
  _sentence_type (cursor g) = _GPS_SENTENCE_GPRMC ->
  1 <= _term_number (cursor g) < 32 ->
  term_complete pf now g
  = let acc :=
      rmc_field (millis now) (_term_number (cursor g))
        (cstr (_term (cursor g)))
        (staged g, _gps_data_good (cursor g)) in
    Ok (false,
        mkTinyGPS (fix_state g) (fst acc)
          (set_gps_data_good (snd acc) (cursor g)) (sats g) (statistics g)).
Proof.
  intros Hck Hty Hk. unfold term_complete. rewrite Hck.
  assert (Hk0 : (_term_number (cursor g) =? 0) = false)
    by (apply Z.eqb_neq; lia).
  rewrite Hk0, Hty. simpl sentence_eqb. cbv iota. simpl negb. simpl andb.
  rewrite dispatch_rmc by assumption. cbv zeta. unfold rmc_field.
  rewrite nth0_cstr.
  destruct (hd 0 (cstr (_term (cursor g))) =? 0); simpl; [|reflexivity].
  destruct g as [f n [par ck t ty ubx k off good] s st]. reflexivity.
Qed.

Lemma at_time_app (now : Z) (a b : list Z) :
  at_time now (a ++ b) = at_time now a ++ at_time now b.
Proof. apply map_app. Qed.

Lemma at_time_snd (now : Z) (w : list Z) : map snd (at_time now w) = w.
Proof.
  unfold at_time. rewrite map_map. simpl. apply map_id.
Qed.

Lemma at_time_ordinary (now : Z) (w : list Z) :
  Forall (fun c => is_ordinary c = true) w ->
  Forall (fun p => is_ordinary (snd p) = true) (at_time now w).
Proof.
  intros H. unfold at_time. apply Forall_map. simpl. exact H.
Qed.

(** A term and the terminator that closes it. *)
Lemma feed_term (pf : platform) (now : Z) (w : list Z) (c : Z) (g : TinyGPS) :
  Forall (fun c => is_ordinary c = true) w ->
  is_terminator c = true ->
  _term_offset (cursor g) = 0 ->
  List.length (_term (cursor g)) = 15%nat ->
  feed pf (at_time now (w ++ [c])) g
  = (r <- term_complete pf now (closed c (after_chars 0 w g)) ;;
     Ok (repeat false (List.length w) ++ [fst r], advance c (snd r))).
Proof.
  intros Hw Hc Hoff Hlen.
  rewrite at_time_app, feed_app.
  rewrite (feed_ordinary pf (at_time now w) 0 g)
    by (auto using at_time_ordinary; lia).
  rewrite at_time_snd. unfold at_time at 1. rewrite length_map.
  unfold bind at 1. unfold snd at 1, fst at 1.
  simpl at_time. unfold feed.
  rewrite encode_terminator; [|exact Hc|unfold after_chars; simpl; lia].
  destruct (term_complete pf now (closed c (after_chars 0 w g)))
    as [[v g1]|i]; reflexivity.
Qed.

Lemma same_counts_refl (st : Stats) : same_counts st st.
Proof. split; reflexivity. Qed.

Lemma same_counts_trans (a b c : Stats) :
  same_counts a b -> same_counts b c -> same_counts a c.
Proof. unfold same_counts. intros [? ?] [? ?]. split; congruence. Qed.

Lemma same_counts_bumps (n : nat) (st : Stats) : same_counts st (bumps n st).
Proof.
  induction n as [|n IH]; [apply same_counts_refl|].
  destruct IH as [H1 H2]. split; simpl; assumption.
Qed.

Lemma is_separator (c : Z) :
  c = ch "," \/ c = ch "*" -> is_terminator c = true.
Proof. intros [->| ->]; reflexivity. Qed.

(** One field of an RMC sentence, closed by a comma or by the checksum
    marker. *)
Lemma rmc_term_step (pf : platform) (now : Z) (w : list Z) (c : Z)
      (f : Fix) (n : Staging) (par : Z) (t : list Z) (ubx k : Z)
      (good : bool) (s : Sats) (st : Stats) :
  Forall (fun c => is_ordinary c = true) w ->
  c = ch "," \/ c = ch "*" ->
  List.length t = 15%nat ->
  1 <= k < 32 ->
  let acc := rmc_field (millis now) k (term_of w) (n, good) in
  exists (t' : list Z) (st' : Stats),
    List.length t' = 15%nat
    /\ same_counts st st'
    /\ feed pf (at_time now (w ++ [c]))
         (mkTinyGPS f n
            (mkCursor par false t _GPS_SENTENCE_GPRMC ubx k 0 good) s st)
       = Ok (repeat false (S (List.length w)),
             mkTinyGPS f (fst acc)
               (mkCursor
                  (if c =? ch "," then xor_fold par (w ++ [c])
                   else xor_fold par w)
                  (c =? ch "*") t' _GPS_SENTENCE_GPRMC ubx (k + 1) 0 (snd acc))
               s st').
Proof.
  intros Hw Hc Hlen Hk acc.
  exists (upd (Nat.min (List.length w) 14) 0 (stored 0 w t)).
  exists (bumps (S (List.length w)) st).
  split; [rewrite upd_length; apply stored_length; exact Hlen|].
  split; [apply same_counts_bumps|].
  rewrite feed_term; auto using is_separator.
  rewrite term_complete_rmc; [| reflexivity | reflexivity | exact Hk].
  unfold closed, after_chars, advance. simpl.
  rewrite Nat2Z.id, cstr_closed_buffer by exact Hlen.
  fold acc.
  replace (u8 (k + 1)) with (k + 1) by (unfold u8; rewrite Z.mod_small; lia).
  replace (repeat false (List.length w) ++ [false])
    with (repeat false (S (List.length w)))
    by (simpl; rewrite repeat_cons; reflexivity).
  unfold xor_fold. rewrite fold_left_app. simpl.
  destruct (c =? ch ","); reflexivity.
Qed.

Lemma joined_cons (w f : list Z) (fs : list (list Z)) :
  joined w (f :: fs) = (w ++ [ch ","]) ++ joined f fs.
Proof. unfold joined. simpl. rewrite <- app_assoc. reflexivity. Qed.

Lemma joined_nil (w : list Z) : joined w [] = w.
Proof. unfold joined. simpl. apply app_nil_r. Qed.

Lemma xor_fold_app (p : Z) (a b : list Z) :
  xor_fold p (a ++ b) = xor_fold (xor_fold p a) b.
Proof. unfold xor_fold. apply fold_left_app. Qed.

Lemma rmc_terms (pf : platform) (now : Z) (fs : list (list Z)) :
  forall (w : list Z) (k : Z) (f : Fix) (n : Staging) (par : Z)
         (t : list Z) (ubx : Z) (good : bool) (s : Sats) (st : Stats),
  Forall (fun c => is_ordinary c = true) w ->
  Forall (Forall (fun c => is_ordinary c = true)) fs ->
  List.length t = 15%nat ->
  1 <= k ->
  k + Z.of_nat (List.length fs) < 32 ->
  let acc := rmc_run (millis now) k w fs (n, good) in
  exists (vs : list bool) (t' : list Z) (st' : Stats),
    List.length t' = 15%nat
    /\ same_counts st st'
    /\ Forall (fun v => v = false) vs
    /\ feed pf (at_time now (joined w fs ++ [ch "*"]))
         (mkTinyGPS f n
            (mkCursor par false t _GPS_SENTENCE_GPRMC ubx k 0 good) s st)
       = Ok (vs,
             mkTinyGPS f (fst acc)
               (mkCursor (xor_fold par (joined w fs)) true t'
                  _GPS_SENTENCE_GPRMC ubx (k + 1 + Z.of_nat (List.length fs))
                  0 (snd acc))
               s st').
Proof.
  induction fs as [|f1 fs IH];
    intros w k f n par t ubx good s st Hw Hfs Hlen Hk Hbound acc.
  - destruct (rmc_term_step pf now w (ch "*") f n par t ubx k good s st)
      as (t' & st' & Hlen' & Hst & Hfeed); auto.
    { simpl in Hbound. lia. }
    exists (repeat false (S (List.length w))), t', st'.
    rewrite joined_nil. simpl List.length. rewrite Z.add_0_r.
    repeat split; try assumption; try apply Hst.
    apply Forall_forall. intros v Hv. apply repeat_spec in Hv. exact Hv.
  - inversion Hfs as [|? ? Hf1 Hfs']; subst.
    simpl List.length in Hbound.
    destruct (rmc_term_step pf now w (ch ",") f n par t ubx k good s st)
      as (t1 & st1 & Hlen1 & Hst1 & Hfeed1); auto; [lia|].
    cbv zeta in Hfeed1.
    remember (rmc_field (millis now) k (term_of w) (n, good)) as acc1 eqn:E1.
    destruct (IH f1 (k + 1) f (fst acc1)
                (xor_fold par (w ++ [ch ","])) t1 ubx (snd acc1) s st1)
      as (vs2 & t2 & st2 & Hlen2 & Hst2 & Hvs2 & Hfeed2); auto; try lia.
    cbv zeta in Hfeed2.
    exists (repeat false (S (List.length w)) ++ vs2), t2, st2.
    split; [exact Hlen2|].
    split; [eapply same_counts_trans; eassumption|].
    split.
    { apply Forall_app. split; [|exact Hvs2].
      apply Forall_forall. intros v Hv. apply repeat_spec in Hv. exact Hv. }
    rewrite joined_cons, <- app_assoc, at_time_app, feed_app.
    rewrite Hfeed1. change (ch "," =? ch ",") with true. cbv iota.
    change (ch "," =? ch "*") with false.
    cbn [bind fst snd].
    rewrite Hfeed2. cbn [bind fst snd].
    replace (k + 1 + 1 + Z.of_nat (List.length fs))
      with (k + 1 + Z.of_nat (S (List.length fs))) by lia.
    rewrite !xor_fold_app.
    subst acc. simpl rmc_run. rewrite <- E1.
    destruct acc1 as [n1 good1]. reflexivity.
Qed.

(** The sentence-start marker and the tag. *)
Lemma tag_step (pf : platform) (now : Z) (tag : list Z) (g : TinyGPS) :
  Forall (fun c => is_ordinary c = true) tag ->
  List.length (_term (cursor g)) = 15%nat ->
  exists (t' : list Z) (st' : Stats),
    List.length t' = 15%nat
    /\ same_counts (statistics g) st'
    /\ feed pf (at_time now (ch "$" :: tag ++ [ch ","])) g
       = Ok (repeat false (S (S (List.length tag))),
             mkTinyGPS (fix_state g) (staged g)
               (mkCursor (xor_fold 0 (tag ++ [ch ","])) false t'
                  (classify (term_of tag)) (_UBX_message_type (cursor g))
                  1 0 false)
               (sats g) st').
Proof.
  intros Htag Hlen.
  exists (upd (Nat.min (List.length tag) 14) 0
            (stored 0 tag (_term (cursor g)))).
  exists (bumps (S (List.length tag)) (bump (statistics g))).
  split; [rewrite upd_length; apply stored_length; exact Hlen|].
  split.
  { eapply same_counts_trans; [apply (same_counts_bumps 1)|].
    apply same_counts_bumps. }
  change (at_time now (ch "$" :: tag ++ [ch ","]))
    with ((now, ch "$") :: at_time now (tag ++ [ch ","])).
  rewrite (feed_cons_ok _ _ _ _ _ _ _ (encode_start pf now g)).
  rewrite feed_term; auto.
  unfold term_complete, closed, after_chars, start_step, advance.
  cbn [cursor _is_checksum_term _term_number _term _term_offset bind fst snd
       fix_state staged sats statistics _parity _sentence_type
       _UBX_message_type _gps_data_good set_cursor set_sentence_type
       set_is_checksum_term set_term_offset set_term_number].
  change (0 =? 0) with true. cbv iota. cbn [bind fst snd].
  cbn [cursor _is_checksum_term _term_number _term _term_offset
       fix_state staged sats statistics _parity _sentence_type
       _UBX_message_type _gps_data_good set_cursor set_sentence_type
       set_is_checksum_term set_term_offset set_term_number].
  change (0 + List.length tag)%nat with (List.length tag).
  rewrite !Nat2Z.id, !cstr_closed_buffer by exact Hlen.
  rewrite xor_fold_app.
  replace (false :: repeat false (List.length tag) ++ [false])
    with (repeat false (S (S (List.length tag))))
    by (simpl; rewrite repeat_cons; reflexivity).
  reflexivity.
Qed.

(** The two checksum digits and the line terminator. *)
Lemma checksum_step (pf : platform) (now h1 h2 eol : Z)
      (f : Fix) (n : Staging) (par : Z) (t : list Z) (ubx k : Z)
      (good : bool) (s : Sats) (st : Stats) :
  is_ordinary h1 = true ->
  is_ordinary h2 = true ->
  is_eol eol ->
  List.length t = 15%nat ->
  u8 (16 * from_hex pf h1 + from_hex pf h2) = par ->
  exists (t' : list Z) (st' : Stats) (k' : Z),
    List.length t' = 15%nat
    /\ _good_sentences st'
       = (if good then u16 (_good_sentences st + 1) else _good_sentences st)
    /\ _failed_checksum st' = _failed_checksum st
    /\ feed pf (at_time now [h1; h2; eol])
         (mkTinyGPS f n
            (mkCursor par true t _GPS_SENTENCE_GPRMC ubx k 0 good) s st)
       = Ok ([false; false; good],
             mkTinyGPS (rmc_publish n good f) n
               (mkCursor par false t' _GPS_SENTENCE_GPRMC ubx k' 0 good)
               s st').
Proof.
  intros Hh1 Hh2 Heol Hlen Hsum.
  destruct (eol_terminator eol Heol) as [Hterm Hcomma].
  assert (Hstar : (eol =? ch "*") = false)
    by (destruct Heol as [->| ->]; reflexivity).
  change [h1; h2; eol] with ([h1; h2] ++ [eol]).
  rewrite feed_term; auto.
  do 3 (destruct t as [|? t]; [discriminate Hlen|]).
  unfold term_complete, closed, after_chars, advance, commit, checksum.
  cbn -[Z.mul Z.add Z.eqb u8 u16 u32 bump from_hex].
  change (ch ",") with 44 in Hcomma. change (ch "*") with 42 in Hstar.
  rewrite Hcomma, Hstar.
  change (Pos.to_nat 2) with 2%nat. cbn [upd nth].
  rewrite Hsum, Z.eqb_refl.
  unfold rmc_publish, carries_clock, promote_fields.
  cbn -[Z.mul Z.add Z.eqb u8 u16 u32 bump from_hex].
  simpl in Hlen.
  destruct good; cbn -[Z.mul Z.add Z.eqb u8 u16 u32 bump from_hex]; do 3 eexists;
    (split; [|split; [|split; [|reflexivity]]]);
    cbn -[Z.mul Z.add Z.eqb u8 u16 u32 bump from_hex];
    try reflexivity; lia.
Qed.

(** A complete RMC sentence with a matching checksum, received from any
    state of the parser: what it stages, what it publishes and what the
    closing call returns. *)
Lemma rmc_sentence_decoded (pf : platform) (now : Z) (g : TinyGPS)
      (tag f1 : list Z) (fs : list (list Z)) (h1 h2 eol : Z) :
  List.length (_term (cursor g)) = 15%nat ->
  Forall (fun c => is_ordinary c = true) tag ->
  classify (term_of tag) = _GPS_SENTENCE_GPRMC ->
  Forall (fun c => is_ordinary c = true) f1 ->
  Forall (Forall (fun c => is_ordinary c = true)) fs ->
  Z.of_nat (List.length fs) < 30 ->
  is_ordinary h1 = true ->
  is_ordinary h2 = true ->
  is_eol eol ->
  u8 (16 * from_hex pf h1 + from_hex pf h2)
  = parity_of (joined tag (f1 :: fs)) ->
  let acc := rmc_run (millis now) 1 f1 fs (staged g, false) in
  exists (vs : list bool) (g' : TinyGPS),
    feed pf
      (at_time now
         (ch "$" :: joined tag (f1 :: fs) ++ ch "*" :: [h1; h2; eol])) g
    = Ok (vs ++ [snd acc], g')
    /\ Forall (fun v => v = false) vs
    /\ fix_state g' = rmc_publish (fst acc) (snd acc) (fix_state g)
    /\ staged g' = fst acc
    /\ sats g' = sats g
    /\ List.length (_term (cursor g')) = 15%nat
    /\ _good_sentences (statistics g')
       = (if snd acc then u16 (_good_sentences (statistics g) + 1)
          else _good_sentences (statistics g))
    /\ _failed_checksum (statistics g') = _failed_checksum (statistics g).
Proof.
  intros Hlen Htag Hclass Hf1 Hfs Hcount Hh1 Hh2 Heol Hsum acc.
  assert (Hs : ch "$" :: joined tag (f1 :: fs) ++ ch "*" :: [h1; h2; eol]
               = (ch "$" :: tag ++ [ch ","])
                 ++ (joined f1 fs ++ [ch "*"]) ++ [h1; h2; eol]).
  { rewrite joined_cons. simpl. rewrite <- !app_assoc. reflexivity. }
  rewrite Hs. clear Hs.
  destruct (tag_step pf now tag g Htag Hlen)
    as (t0 & st0 & Hlen0 & Hst0 & Hfeed0).
  rewrite Hclass in Hfeed0.
  destruct (rmc_terms pf now fs f1 1 (fix_state g) (staged g)
              (xor_fold 0 (tag ++ [ch ","])) t0
              (_UBX_message_type (cursor g)) false (sats g) st0)
    as (vs1 & t1 & st1 & Hlen1 & Hst1 & Hvs1 & Hfeed1); auto; try lia.
  cbv zeta in Hfeed1. fold acc in Hfeed1.
  destruct (checksum_step pf now h1 h2 eol (fix_state g) (fst acc)
              (xor_fold (xor_fold 0 (tag ++ [ch ","])) (joined f1 fs)) t1
              (_UBX_message_type (cursor g))
              (1 + 1 + Z.of_nat (List.length fs)) (snd acc) (sats g) st1)
    as (t2 & st2 & k2 & Hlen2 & Hgood2 & Hfail2 & Hfeed2); auto.
  { rewrite Hsum, <- xor_fold_parity, joined_cons, xor_fold_app.
    reflexivity. }
  rewrite at_time_app, feed_app, Hfeed0. cbn [bind fst snd].
  rewrite at_time_app, feed_app, Hfeed1. cbn [bind fst snd].
  rewrite Hfeed2. cbn [bind fst snd].
  exists (repeat false (S (S (List.length tag))) ++ vs1 ++ [false; false]).
  eexists. split.
  { f_equal. f_equal. rewrite <- !app_assoc. reflexivity. }
  cbn [fix_state staged sats cursor statistics _term].
  destruct Hst0 as [Hg0 Hf0]. destruct Hst1 as [Hg1 Hf1'].
  repeat split; try reflexivity; try assumption; try congruence.
  - apply Forall_app. split.
    + apply Forall_forall. intros v Hv. apply repeat_spec in Hv. exact Hv.
    + apply Forall_app. split; [exact Hvs1|repeat constructor].
  - rewrite Hgood2, Hg1, Hg0. reflexivity.
Qed.

(** ** The known-good RMC sentence *)

Lemma all_ordinary (w : list Z) :
  forallb is_ordinary w = true -> Forall (fun c => is_ordinary c = true) w.
Proof. apply Forall_forallb. Qed.

Lemma all_fields_ordinary (fs : list (list Z)) :
  forallb (forallb is_ordinary) fs = true ->
  Forall (Forall (fun c => is_ordinary c = true)) fs.
Proof.
  intros H. apply Forall_forall. intros w Hw. apply all_ordinary.
  rewrite forallb_forall in H. apply H. exact Hw.
Qed.

(** The GGA sentence of the design notes, with the checksum its body has:
    altitude in centimetres, satellite count and hdop in hundredths. *)
Example known_good_gga :
  let g :=
    state_after AVR8
      (at_time 1000
         (chars
            "$GPGGA,045104.000,3014.1985,N,09749.2873,W,1,09,1.0,206.9,M,-26.3,M,,0000*6B"
          ++ [CR; LF])) fresh in
  (altitude g, satellites g, hdop g) = (20690, 9, 100).
Proof. vm_compute. reflexivity. Qed.

(** [C4] The known-good RMC sentence, fed to a freshly constructed parser
    and followed by a line terminator, publishes the decoded time,
    position, speed, course and date, and the call on the terminator
    returns true. *)
Theorem known_good_rmc (pf : platform) (now eol : Z) (mem : TinyGPS) :
  well_formed mem ->
  is_eol eol ->
  exists (vs : list bool) (g : TinyGPS),
    feed pf (at_time now (rmc_sentence ++ [eol])) (TinyGPS_ctor mem)
    = Ok (vs ++ [true], g)
    /\ Forall (fun v => v = false) vs
    /\ _time (fix_state g) = 4510300
    /\ _latitude (fix_state g) = 30236640
    /\ _longitude (fix_state g) = -97821453
    /\ _speed (fix_state g) = 67
    /\ _course (fix_state g) = 16146
    /\ _date (fix_state g) = 30913.
Proof.
  intros Hwf Heol.
  destruct (rmc_sentence_decoded pf now (TinyGPS_ctor mem) rmc_tag
              (chars "045103.000") rmc_fields (ch "7") (ch "C") eol)
    as (vs & g & Hfeed & Hvs & Hfix & _);
    try (apply all_ordinary; reflexivity);
    try (apply all_fields_ordinary; reflexivity);
    try reflexivity; try exact Heol.
  { exact (proj1 (well_formed_ctor mem Hwf)). }
  { destruct pf; reflexivity. }
  revert Hfeed Hfix. generalize (millis now). intros ms.
  generalize (staged (TinyGPS_ctor mem)). intros n.
  generalize (fix_state (TinyGPS_ctor mem)). intros f.
  cbv zeta.
  assert (Hgood : snd (rmc_run ms 1 (chars "045103.000") rmc_fields (n, false))
                  = true) by (vm_compute; reflexivity).
  rewrite Hgood. intros Hfeed Hfix.
  exists vs, g. split.
  { rewrite <- Hfeed. reflexivity. }
  split; [exact Hvs|].
  rewrite Hfix. repeat split; vm_compute; reflexivity.
Qed.

(** ** Feeding a sentence twice *)

(** Every call counts its character. *)
Lemma encode_counts (pf : platform) (now c : Z) (g g' : TinyGPS) (v : bool) :
  encode pf now c g = Ok (v, g') ->
  _encoded_characters (statistics g')
  = u32 (_encoded_characters (statistics g) + 1).
Proof.
  intros He. destruct (is_terminator c) eqn:Ht.
  - destruct (Z.ltb_spec (_term_offset (cursor g)) 15) as [Hlt|Hge].
    + destruct (_is_checksum_term (cursor g)) eqn:Hck.
      * rewrite encode_checksum_term in He by assumption.
        injection He as _ <-. unfold advance, commit. simpl.
        destruct (checksum pf _ =? _); [|reflexivity].
        destruct (_gps_data_good (cursor g)); reflexivity.
      * rewrite encode_terminator in He by assumption.
        destruct (term_complete pf now (closed c g)) as [[v1 g1]|i] eqn:Htc;
          simpl in He; [|discriminate].
        injection He as _ <-.
        apply term_complete_plain in Htc; [|exact Hck].
        destruct Htc as (_ & _ & Hst & _).
        unfold advance; simpl. rewrite Hst. reflexivity.
    + unfold encode in He. rewrite Ht in He.
      apply Z.ltb_ge in Hge.
      destruct (c =? ch ","); simpl in He; rewrite Hge in He;
        simpl in He; injection He as _ <-; reflexivity.
  - destruct (c =? ch "$") eqn:Hd.
    + apply Z.eqb_eq in Hd. subst c. rewrite encode_start in He.
      injection He as _ <-. reflexivity.
    + rewrite encode_ordinary in He
        by (unfold is_ordinary; rewrite Ht, Hd; reflexivity).
      injection He as _ <-. reflexivity.
Qed.

Lemma feed_counts (pf : platform) (input : list (Z * Z)) :
  forall (g g' : TinyGPS) (vs : list bool) (e : Z),
  feed pf input g = Ok (vs, g') ->
  _encoded_characters (statistics g) = u32 e ->
  _encoded_characters (statistics g')
  = u32 (e + Z.of_nat (List.length input)).
Proof.
  induction input as [|[now c] input IH]; intros g g' vs e Hf He.
  - simpl in Hf. injection Hf as _ <-. rewrite He, Z.add_0_r. reflexivity.
  - simpl in Hf.
    destruct (encode pf now c g) as [[v g1]|i] eqn:Henc; simpl in Hf;
      [|discriminate].
    destruct (feed pf input g1) as [[vs1 g2]|i] eqn:Hf1; simpl in Hf;
      [|discriminate].
    injection Hf as _ <-.
    apply encode_counts in Henc.
    rewrite (IH _ _ _ (e + 1) Hf1).
    + f_equal. simpl List.length. lia.
    + rewrite Henc, He. unfold u32. rewrite Zplus_mod_idemp_l. reflexivity.
Qed.

Lemma hd_term_of (w : list Z) : hd 0 (term_of w) = hd 0 w.
Proof.
  destruct w as [|c w]; [reflexivity|]. unfold term_of. simpl.
  destruct (c =? 0) eqn:E; [apply Z.eqb_eq in E; subst; reflexivity|].
  reflexivity.
Qed.

(** The fields after the ninth stage nothing. *)
Lemma rmc_field_late (ms k : Z) (term : list Z) (acc : Staging * bool) :
  10 <= k -> rmc_field ms k term acc = acc.
Proof.
  intros Hk. unfold rmc_field, rmc_stage, rmc_good.
  repeat match goal with
         | |- context [k =? ?i] =>
             replace (k =? i) with false by (symmetry; apply Z.eqb_neq; lia)
         end.
  destruct acc as [n good]. destruct (hd 0 term =? 0); reflexivity.
Qed.

Lemma rmc_run_late (ms : Z) (rest : list (list Z)) :
  forall (w : list Z) (k : Z) (acc : Staging * bool),
  10 <= k -> rmc_run ms k w rest acc = acc.
Proof.
  induction rest as [|r rest IH]; intros w k acc Hk; simpl.
  - apply rmc_field_late. exact Hk.
  - rewrite rmc_field_late by exact Hk. apply IH. lia.
Qed.

Lemma rmc_publish_agree (a b : Staging) (f : Fix) :
  agree_rmc a b ->
  rmc_publish a true (rmc_publish b true f) = rmc_publish b true f.
Proof.
  unfold agree_rmc. destruct a, b, f.
  cbn [_new_time _new_date _new_latitude _new_longitude _new_speed
       _new_course _new_time_fix _new_position_fix].
  intros (-> & -> & -> & -> & -> & -> & -> & ->).
  vm_compute. reflexivity.
Qed.

Lemma rmc_field_pair (ms k : Z) (w : list Z) (n : Staging) (good : bool) :
  rmc_field ms k (term_of w) (n, good)
  = if hd 0 w =? 0 then (n, good)
    else (rmc_stage ms k (term_of w) n, rmc_good k (term_of w) good).
Proof. unfold rmc_field. rewrite hd_term_of. reflexivity. Qed.

Lemma rmc_field_present (ms k : Z) (w : list Z) (n : Staging) (good : bool) :
  hd 0 w <> 0 ->
  rmc_field ms k (term_of w) (n, good)
  = (rmc_stage ms k (term_of w) n, rmc_good k (term_of w) good).
Proof.
  intros H. rewrite rmc_field_pair. apply Z.eqb_neq in H. rewrite H.
  reflexivity.
Qed.

Lemma rmc_field_ns (ms : Z) (w : list Z) (n : Staging) (good : bool) :
  rmc_field ms 4 (term_of w) (n, good)
  = (set_new_latitude (hemisphere w (ch "S") (_new_latitude n)) n, good).
Proof.
  rewrite rmc_field_pair. unfold hemisphere, rmc_stage, rmc_good.
  rewrite hd_term_of. cbn [Z.eqb Pos.eqb].
  destruct (hd 0 w =? 0); [destruct n; reflexivity|].
  destruct (hd 0 w =? ch "S"); [reflexivity|destruct n; reflexivity].
Qed.

Lemma rmc_field_ew (ms : Z) (w : list Z) (n : Staging) (good : bool) :
  rmc_field ms 6 (term_of w) (n, good)
  = (set_new_longitude (hemisphere w (ch "W") (_new_longitude n)) n, good).
Proof.
  rewrite rmc_field_pair. unfold hemisphere, rmc_stage, rmc_good.
  rewrite hd_term_of. cbn [Z.eqb Pos.eqb].
  destruct (hd 0 w =? 0); [destruct n; reflexivity|].
  destruct (hd 0 w =? ch "W"); [reflexivity|destruct n; reflexivity].
Qed.

(** An RMC sentence whose time, status, latitude, longitude, speed,
    course and date fields are present, with status A. *)
Lemma rmc_run_populated (ms : Z) (f1 f2 f3 f4 f5 f6 f7 f8 f9 : list Z)
      (rest : list (list Z)) (n : Staging) :
  hd 0 f1 <> 0 -> hd 0 f2 = ch "A" -> hd 0 f3 <> 0 -> hd 0 f5 <> 0 ->
  hd 0 f7 <> 0 -> hd 0 f8 <> 0 -> hd 0 f9 <> 0 ->
  rmc_run ms 1 f1 (f2 :: f3 :: f4 :: f5 :: f6 :: f7 :: f8 :: f9 :: rest)
    (n, false)
  = (rmc_staged ms f1 f3 f4 f5 f6 f7 f8 f9 n, true).
Proof.
  intros H1 H2 H3 H5 H7 H8 H9.
  cbn [rmc_run].
  change (1 + 1) with 2. change (2 + 1) with 3. change (3 + 1) with 4.
  change (4 + 1) with 5. change (5 + 1) with 6. change (6 + 1) with 7.
  change (7 + 1) with 8. change (8 + 1) with 9.
  assert (Hlast : forall acc, rmc_run ms 9 f9 rest acc
                              = rmc_field ms 9 (term_of f9) acc).
  { intros acc. destruct rest as [|r rest]; [reflexivity|].
    cbn [rmc_run]. apply rmc_run_late. lia. }
  rewrite Hlast.
  assert (H2' : hd 0 f2 <> 0) by (rewrite H2; discriminate).
  rewrite (rmc_field_present ms 1 f1) by exact H1.
  rewrite (rmc_field_present ms 2 f2) by exact H2'.
  rewrite (rmc_field_present ms 3 f3) by exact H3.
  rewrite rmc_field_ns.
  rewrite (rmc_field_present ms 5 f5) by exact H5.
  rewrite rmc_field_ew.
  rewrite (rmc_field_present ms 7 f7) by exact H7.
  rewrite (rmc_field_present ms 8 f8) by exact H8.
  rewrite (rmc_field_present ms 9 f9) by exact H9.
  unfold rmc_good. rewrite (hd_term_of f2), H2.
  reflexivity.
Qed.

Lemma rmc_staged_agree (ms : Z) (f1 f3 f4 f5 f6 f7 f8 f9 : list Z)
      (n m : Staging) :
  agree_rmc (rmc_staged ms f1 f3 f4 f5 f6 f7 f8 f9 n)
    (rmc_staged ms f1 f3 f4 f5 f6 f7 f8 f9 m).
Proof.
  unfold rmc_staged, agree_rmc.
  generalize (parse_decimal (term_of f1)) (parse_degrees (term_of f3))
    (parse_degrees (term_of f5)) (parse_decimal (term_of f7))
    (parse_decimal (term_of f8)) (gpsatol (term_of f9)).
  intros a b c d e h.
  generalize (hemisphere f4 (ch "S")) (hemisphere f6 (ch "W")).
  intros ns ew. destruct n, m. cbv zeta.
  repeat split; reflexivity.
Qed.



(** ** The theorems at concrete inputs *)

(** [C1] on the known-good body sent with the checksum 7D instead of
    7C. *)
Lemma failed_checksum_keeps_fix_witness :
  Forall (fun v => v = false) (returns_of ARM32 rmc_bad_checksum fresh)
  /\ fix_state (state_after ARM32 rmc_bad_checksum fresh) = fix_state fresh
  /\ exists g2 : TinyGPS,
       encode ARM32 1000 CR (state_after ARM32 rmc_bad_checksum fresh)
       = Ok (false, g2)
       /\ fix_state g2 = fix_state fresh.
Proof.
  apply (failed_checksum_keeps_fix ARM32 1000 1000 1000 1000 1000
           (at_time 1000 rmc_body) (ch "7") (ch "D") CR fresh).
  - apply (Forall_forallb (fun p => in_body (snd p))). vm_compute. reflexivity.
  - reflexivity.
  - reflexivity.
  - left. reflexivity.
  - reflexivity.
  - vm_compute. reflexivity.
  - vm_compute. discriminate.
Defined.

(** [C2] on the call that closes the RMC sentence received without a
    fix. *)
Lemma false_call_keeps_position_witness :
  position_part
    (fix_state
       (state_after ARM32 (at_time 1000 (rmc_nofix_sentence ++ [CR])) fresh))
  = position_part
      (fix_state (state_after ARM32 (at_time 1000 rmc_nofix_sentence) fresh)).
Proof.
  refine (proj1 (proj2
    (false_call_keeps_position ARM32 1000 CR
       (state_after ARM32 (at_time 1000 rmc_nofix_sentence) fresh)
       (state_after ARM32 (at_time 1000 (rmc_nofix_sentence ++ [CR])) fresh)
       false _) eq_refl)).
  vm_compute. reflexivity.
Defined.

(** [C3] on the checksum field of the known-good sentence. *)
Lemma commit_promotes_witness :
  exists g' : TinyGPS,
    term_complete ARM32 1000 rmc_at_checksum = Ok (true, g')
    /\ _latitude (fix_state g') = _new_latitude (staged rmc_at_checksum).
Proof.
  destruct (commit_promotes ARM32 1000 rmc_at_checksum)
    as (v & g' & Hrun & _ & _ & Hgood).
  - reflexivity.
  - vm_compute. reflexivity.
  - destruct (Hgood eq_refl) as (-> & _ & _ & Hrmc & _).
    exists g'. split; [exact Hrun|]. apply (Hrmc eq_refl).
Defined.

(** [C4] for a parser in zero-initialised storage, on a 32-bit target. *)
Lemma known_good_rmc_witness :
  exists (vs : list bool) (g : TinyGPS),
    feed ARM32 (at_time 1000 (rmc_sentence ++ [CR])) (TinyGPS_ctor zeroed)
    = Ok (vs ++ [true], g)
    /\ Forall (fun v => v = false) vs
    /\ _time (fix_state g) = 4510300
    /\ _latitude (fix_state g) = 30236640
    /\ _longitude (fix_state g) = -97821453
    /\ _speed (fix_state g) = 67
    /\ _course (fix_state g) = 16146
    /\ _date (fix_state g) = 30913.
Proof.
  apply (known_good_rmc ARM32 1000 CR zeroed).
  - split; reflexivity.
  - left. reflexivity.
Defined.

(** [C5] on the known-good sentence. *)
Lemma parity_at_checksum_witness :
  _parity (cursor (closed CR (state_after ARM32 rmc_to_checksum fresh)))
  = fold_left Z.lxor rmc_body 0.
Proof.
  refine (proj2 (proj2
    (parity_at_checksum ARM32 1000 1000 1000 CR (at_time 1000 rmc_body)
       (at_time 1000 (chars "7C")) fresh
       (state_after ARM32 rmc_to_checksum fresh)
       (returns_of ARM32 rmc_to_checksum fresh) _ _ _ _ _ _))).
  - apply (Forall_forallb (fun p => in_body (snd p))). vm_compute. reflexivity.
  - apply (Forall_is_byte snd). vm_compute. reflexivity.
  - apply (Forall_forallb (fun p => is_ordinary (snd p))).
    vm_compute. reflexivity.
  - left. reflexivity.
  - reflexivity.
  - vm_compute. reflexivity.
Defined.




(** [C9] after the RMC sentence received without a fix. *)
Lemma sentinels_until_validated_witness :
  get_position 2000
    (state_after ARM32 (at_time 1000 (rmc_nofix_sentence ++ [CR])) fresh)
  = (GPS_INVALID_ANGLE, GPS_INVALID_ANGLE, GPS_INVALID_AGE).
Proof.
  refine (proj1
    (sentinels_until_validated ARM32 zeroed
       (at_time 1000 (rmc_nofix_sentence ++ [CR])) 2000
       (state_after ARM32 (at_time 1000 (rmc_nofix_sentence ++ [CR])) fresh)
       (returns_of ARM32 (at_time 1000 (rmc_nofix_sentence ++ [CR])) fresh)
       _ _)).
  - vm_compute. reflexivity.
  - vm_compute. repeat constructor.
Defined.

(** * Further properties of the code *)

(** ** The string utilities *)

(** Checking a concrete text. *)
Lemma all_digits (ds : list Z) :
  forallb is_digitb ds = true -> Forall is_digit ds.
Proof.
  intros H. apply Forall_forall. intros d Hd.
  rewrite forallb_forall in H. specialize (H d Hd).
  unfold is_digitb in H. apply andb_prop in H. destruct H as [H1 H2].
  apply Z.leb_le in H1, H2. split; assumption.
Qed.

Lemma all_nonzero (w : list Z) :
  forallb (fun c => negb (c =? 0)) w = true -> Forall (fun c => c <> 0) w.
Proof.
  intros H. apply Forall_forall. intros c Hc.
  rewrite forallb_forall in H. specialize (H c Hc).
  apply negb_true_iff, Z.eqb_neq in H. exact H.
Qed.

Lemma gpsisdigit_digit (d : Z) : is_digit d -> gpsisdigit (digit d) = true.
Proof.
  unfold is_digit, gpsisdigit, digit. intros H.
  change (ch "0") with 48. change (ch "9") with 57.
  apply andb_true_intro. split; apply Z.leb_le; lia.
Qed.

Lemma decimal_loop_mono (ds : list Z) :
  forall a : Z, 0 <= a -> Forall is_digit ds ->
  a <= fold_left (fun a d => 10 * a + d) ds a.
Proof.
  induction ds as [|d ds IH]; intros a Ha Hds; cbn [fold_left]; [lia|].
  inversion Hds as [|? ? Hd Hds']; subst. unfold is_digit in Hd.
  specialize (IH (10 * a + d) ltac:(lia) Hds'). lia.
Qed.

Lemma decimal_nonneg (ds : list Z) : Forall is_digit ds -> 0 <= decimal ds.
Proof. intros H. apply (decimal_loop_mono ds 0); [lia|exact H]. Qed.

Lemma gpsatol_loop_digits (rest : list Z) (ds : list Z) :
  forall a : Z,
  0 <= a -> Forall is_digit ds ->
  fold_left (fun a d => 10 * a + d) ds a < 2 ^ 31 ->
  gpsisdigit (hd 0 rest) = false ->
  gpsatol_loop a (digits ds ++ rest) = fold_left (fun a d => 10 * a + d) ds a.
Proof.
  induction ds as [|d ds IH]; intros a Ha Hds Hlt Hrest;
    cbn [digits map app fold_left gpsatol_loop].
  - destruct rest as [|c r]; [reflexivity|]. cbn [hd] in Hrest.
    cbn [gpsatol_loop]. rewrite Hrest. reflexivity.
  - inversion Hds as [|? ? Hd Hds']; subst.
    rewrite gpsisdigit_digit by exact Hd.
    assert (Hmono := decimal_loop_mono ds (10 * a + d)
                       ltac:(unfold is_digit in Hd; lia) Hds').
    cbn [fold_left] in Hlt. fold (digits ds).
    replace (s32 (10 * a + digit d - ch "0")) with (10 * a + d).
    + apply IH; auto. unfold is_digit in Hd. lia.
    + unfold s32, digit. change (ch "0") with 48.
      unfold is_digit in Hd. rewrite Z.mod_small; lia.
Qed.

Lemma gpsatol_digits (ds rest : list Z) :
  Forall is_digit ds ->
  decimal ds < 2 ^ 31 - 48 ->
  gpsisdigit (hd 0 rest) = false ->
  gpsatol (digits ds ++ rest) = decimal ds.
Proof.
  intros Hds Hlt Hrest. unfold gpsatol, decimal.
  apply gpsatol_loop_digits; auto; [lia|]. unfold decimal in Hlt. lia.
Qed.

(** [X1] [gpsatol] reads the longest run of decimal digits at the head of
    the string and returns the number they denote, as long as that number
    can be accumulated in a [long]; it reads no sign, so a text that
    starts with one reads as 0. *)
Theorem gpsatol_decimal (ds rest : list Z) :
  Forall is_digit ds ->
  decimal ds < 2 ^ 31 - 48 ->
  gpsisdigit (hd 0 rest) = false ->
  gpsatol (digits ds ++ rest) = decimal ds
  /\ gpsatol (ch "-" :: digits ds ++ rest) = 0
  /\ gpsatol (ch "+" :: digits ds ++ rest) = 0.
Proof.
  intros Hds Hlt Hrest. split; [|split; reflexivity].
  apply gpsatol_digits; assumption.
Qed.

(** [X1] on the date field of the sample sentence. *)
Lemma gpsatol_decimal_witness :
  gpsatol (chars "030913,") = 30913
  /\ gpsatol (chars "-030913,") = 0
  /\ gpsatol (chars "+030913,") = 0.
Proof.
  apply (gpsatol_decimal [0; 3; 0; 9; 1; 3] (chars ",")).
  - apply all_digits. reflexivity.
  - vm_compute. reflexivity.
  - reflexivity.
Defined.

Lemma gpsstrcmp_prefixb (str1 : list Z) :
  forall str2 : list Z,
  Forall (fun c => c <> 0) str1 ->
  (gpsstrcmp str1 str2 =? 0) = prefixb str1 str2.
Proof.
  induction str1 as [|c r IH]; intros str2 Hnz; simpl; [reflexivity|].
  inversion Hnz as [|? ? Hc Hr]; subst.
  apply Z.eqb_neq in Hc. rewrite Hc.
  destruct str2 as [|d s]; simpl.
  - rewrite Hc. exact Hc.
  - destruct (c =? d); simpl; [apply IH; exact Hr|exact Hc].
Qed.

Lemma prefixb_spec (a : list Z) :
  forall b : list Z, prefixb a b = true <-> exists rest, b = a ++ rest.
Proof.
  induction a as [|x a IH]; intros b; simpl.
  - split; [intros _; exists b; reflexivity|reflexivity].
  - destruct b as [|y b].
    + split; [discriminate|intros [rest H]; discriminate].
    + rewrite andb_true_iff, Z.eqb_eq, IH. split.
      * intros [-> [rest ->]]. exists rest. reflexivity.
      * intros [rest H]. injection H as -> ->. split; [reflexivity|].
        exists rest. reflexivity.
Qed.

(** [X2] [gpsstrcmp] does not compare for equality: it returns 0 exactly
    when its first argument is a prefix of the second. *)
Theorem gpsstrcmp_prefix (str1 str2 : list Z) :
  Forall (fun c => c <> 0) str1 ->
  gpsstrcmp str1 str2 = 0 <-> exists rest : list Z, str2 = str1 ++ rest.
Proof.
  intros Hnz. rewrite <- prefixb_spec, <- gpsstrcmp_prefixb by exact Hnz.
  symmetry. apply Z.eqb_eq.
Qed.

(** [X2] on the abbreviated tag GP and the table entry GPRMC. *)
Lemma gpsstrcmp_prefix_witness :
  gpsstrcmp (chars "GP") _GPRMC_TERM = 0
  <-> exists rest : list Z, _GPRMC_TERM = chars "GP" ++ rest.
Proof.
  apply (gpsstrcmp_prefix (chars "GP") _GPRMC_TERM).
  apply all_nonzero. reflexivity.
Defined.

(** [X3] The sentence type of a tag is that of the first entry of the tag
    table of which the received tag is a prefix, and OTHER when there is
    none: abbreviated tags are accepted, the empty tag as RMC. *)
Theorem classify_table (term : list Z) :
  Forall (fun c => c <> 0) term ->
  classify term = lookup_tag term tag_table
  /\ classify [] = _GPS_SENTENCE_GPRMC.
Proof.
  intros Hnz. split; [|reflexivity].
  unfold classify, tag_table, lookup_tag.
  rewrite !gpsstrcmp_prefixb by exact Hnz.
  destruct (prefixb term _GPRMC_TERM), (prefixb term _GNRMC_TERM),
    (prefixb term _GPGGA_TERM), (prefixb term _GNGNS_TERM),
    (prefixb term _GNGSA_TERM), (prefixb term _GPGSA_TERM),
    (prefixb term _GPGSV_TERM), (prefixb term _GLGSV_TERM),
    (prefixb term _GPZDA_TERM), (prefixb term _PUBX_TERM); reflexivity.
Qed.

(** [X3] on the tag GNGSA. *)
Lemma classify_table_witness :
  classify (chars "GNGSA") = lookup_tag (chars "GNGSA") tag_table
  /\ classify [] = _GPS_SENTENCE_GPRMC.
Proof.
  apply (classify_table (chars "GNGSA")).
  apply all_nonzero. reflexivity.
Defined.

(** ** The checksum digits *)

Lemma from_hex_digit (pf : platform) (upper : bool) (d : Z) :
  0 <= d < 16 -> from_hex pf (hex_digit upper d) = d.
Proof.
  intros Hd.
  assert (H : d = 0 \/ d = 1 \/ d = 2 \/ d = 3 \/ d = 4 \/ d = 5 \/ d = 6
              \/ d = 7 \/ d = 8 \/ d = 9 \/ d = 10 \/ d = 11 \/ d = 12
              \/ d = 13 \/ d = 14 \/ d = 15) by lia.
  repeat (destruct H as [->|H]); try subst d;
    destruct pf, upper; reflexivity.
Qed.

(** [X4] The checksum read from a field that holds the two hexadecimal
    digits of a byte, each in either case, is that byte. *)
Theorem checksum_hex_round_trip (pf : platform) (b : Z) (u1 u2 : bool)
        (rest : list Z) (k : Cursor) :
  0 <= b < 256 ->
  checksum pf
    (set_term (hex_digit u1 (b / 16) :: hex_digit u2 (b mod 16) :: rest) k)
  = b.
Proof.
  intros Hb. unfold checksum. destruct k as [par ck t ty ubx tn off good].
  cbn [set_term _term nth].
  assert (Hq : 0 <= b / 16 < 16).
  { split; [apply Z.div_pos; lia|apply Z.div_lt_upper_bound; lia]. }
  assert (Hr : 0 <= b mod 16 < 16) by (apply Z.mod_pos_bound; lia).
  rewrite !from_hex_digit by assumption.
  rewrite <- Z.div_mod by lia. unfold u8. apply Z.mod_small. exact Hb.
Qed.

(** [X4] on the byte 0x7C written [7c]. *)
Lemma checksum_hex_round_trip_witness :
  checksum AVR8 (set_term (chars "7c" ++ repeat 0 13) (cursor fresh)) = 124.
Proof.
  apply (checksum_hex_round_trip AVR8 124 false false (repeat 0 13)
           (cursor fresh)).
  lia.
Defined.

(** ** The number parsers *)

Lemma u32_add_l (a b : Z) : u32 (u32 a + b) = u32 (a + b).
Proof. unfold u32. apply Zplus_mod_idemp_l. Qed.

Lemma u32_add_r (a b : Z) : u32 (a + u32 b) = u32 (a + b).
Proof. unfold u32. apply Zplus_mod_idemp_r. Qed.

Lemma u32_small (x : Z) : 0 <= x < 2 ^ 32 -> u32 x = x.
Proof. intros H. unfold u32. apply Z.mod_small. exact H. Qed.

Lemma s32_u32 (x : Z) : s32 (u32 x) = s32 x.
Proof.
  unfold s32, u32. rewrite Zplus_mod_idemp_l. reflexivity.
Qed.

Lemma s32_small (x : Z) : - 2 ^ 31 <= x < 2 ^ 31 -> s32 x = x.
Proof. intros H. unfold s32. rewrite Z.mod_small; lia. Qed.

Lemma s32_opp_u32 (x : Z) : s32 (u32 (- u32 x)) = s32 (- x).
Proof.
  rewrite s32_u32. unfold s32, u32.
  rewrite <- (Zplus_mod_idemp_l (- x)), <- (Zplus_mod_idemp_l (- (x mod _))).
  f_equal. f_equal. f_equal.
  rewrite <- (Z.sub_0_l (x mod 4294967296)), <- (Z.sub_0_l x).
  rewrite Zminus_mod_idemp_r. reflexivity.
Qed.

Lemma skip_digits_digits (ds rest : list Z) :
  gpsisdigit (hd 0 rest) = false ->
  Forall is_digit ds ->
  skip_digits (digits ds ++ rest) = rest.
Proof.
  intros Hrest Hds. induction Hds as [|d ds Hd _ IH];
    cbn [digits map app skip_digits].
  - destruct rest as [|x r]; [reflexivity|]. cbn [hd] in Hrest.
    cbn [skip_digits]. rewrite Hrest. reflexivity.
  - rewrite gpsisdigit_digit by exact Hd. exact IH.
Qed.

Lemma hd_digits (ds rest : list Z) (c : Z) :
  Forall is_digit ds -> gpsisdigit c = false ->
  (ds = [] -> hd 0 rest <> c) ->
  hd 0 (digits ds ++ rest) <> c.
Proof.
  intros Hds Hc Hrest. destruct Hds as [|d ds Hd _].
  - apply Hrest. reflexivity.
  - cbn [digits map app hd]. intros E. rewrite <- E in Hc.
    rewrite gpsisdigit_digit in Hc by exact Hd. discriminate.
Qed.

Lemma digit_value (d : Z) : digit d - ch "0" = d.
Proof. unfold digit. lia. Qed.

(** The two decimals [parse_decimal] reads after the point. *)
Lemma decimals_read (ret : Z) (fs rest : list Z) :
  Forall is_digit fs ->
  gpsisdigit (hd 0 rest) = false ->
  let p := ch "." :: digits fs ++ rest in
  (if gpsisdigit (nth 1 p 0) then
     let ret1 := u32 (ret + 10 * (nth 1 p 0 - ch "0")) in
     if gpsisdigit (nth 2 p 0) then u32 (ret1 + (nth 2 p 0 - ch "0"))
     else ret1
   else ret)
  = if gpsisdigit (nth 1 p 0) then u32 (ret + 10 * nth 0 fs 0 + nth 1 fs 0)
    else ret.
Proof.
  intros Hfs Hrest p. subst p.
  destruct Hfs as [|f1 fs1 H1 Hfs1].
  - cbn [digits map app nth]. 
    replace (nth 0 rest 0) with (hd 0 rest) by (destruct rest; reflexivity).
    rewrite Hrest. reflexivity.
  - cbn [digits map app nth]. rewrite gpsisdigit_digit by exact H1.
    cbv zeta. rewrite digit_value.
    destruct Hfs1 as [|f2 fs2 H2 _].
    + cbn [map app nth].
      replace (nth 0 rest 0) with (hd 0 rest) by (destruct rest; reflexivity).
      rewrite Hrest. f_equal. lia.
    + cbn [map app nth]. rewrite gpsisdigit_digit by exact H2.
      rewrite digit_value, u32_add_l. reflexivity.
Qed.

Lemma parse_decimal_unsigned (ds fs rest : list Z) :
  Forall is_digit ds ->
  Forall is_digit fs ->
  decimal ds < 2 ^ 31 - 48 ->
  gpsisdigit (hd 0 rest) = false ->
  parse_decimal (digits ds ++ ch "." :: digits fs ++ rest)
  = u32 (hundredths_of ds fs).
Proof.
  intros Hds Hfs Hlt Hrest. unfold parse_decimal.
  assert (Hneg : (hd 0 (digits ds ++ ch "." :: digits fs ++ rest) =? ch "-")
                 = false).
  { apply Z.eqb_neq. apply hd_digits; auto. intros _. discriminate. }
  rewrite Hneg.
  rewrite gpsatol_digits by (auto; reflexivity).
  rewrite skip_digits_digits by (auto; reflexivity).
  cbn [hd]. rewrite Z.eqb_refl.
  pose proof (decimal_nonneg ds Hds) as Hnn.
  rewrite (u32_small (decimal ds)) by lia.
  rewrite (decimals_read _ fs rest Hfs Hrest). unfold hundredths_of.
  destruct Hfs as [|f1 fs1 H1 _].
  - cbn [digits map app nth].
    replace (nth 0 rest 0) with (hd 0 rest) by (destruct rest; reflexivity).
    rewrite Hrest. f_equal. destruct rest; simpl; lia.
  - cbn [digits map app nth]. rewrite gpsisdigit_digit by exact H1.
    rewrite <- Z.add_assoc, u32_add_l, Z.add_assoc. reflexivity.
Qed.

(** [X5] [parse_decimal] returns the value of a decimal text in
    hundredths: the integer part times 100 plus the first two decimals;
    further decimals are dropped, not rounded, and a text without a point
    reads as its integer part. *)
Theorem parse_decimal_value (ds fs rest : list Z) :
  Forall is_digit ds ->
  Forall is_digit fs ->
  decimal ds < 2 ^ 31 - 48 ->
  gpsisdigit (hd 0 rest) = false ->
  parse_decimal (digits ds ++ ch "." :: digits fs ++ rest)
  = u32 (hundredths_of ds fs)
  /\ (hd 0 rest <> ch "." -> hd 0 (digits ds ++ rest) <> ch "-" ->
      parse_decimal (digits ds ++ rest) = u32 (100 * decimal ds)).
Proof.
  intros Hds Hfs Hlt Hrest. split.
  - apply parse_decimal_unsigned; assumption.
  - intros Hdot Hneg. unfold parse_decimal.
    apply Z.eqb_neq in Hneg. rewrite Hneg.
    rewrite gpsatol_digits by assumption.
    rewrite skip_digits_digits by assumption.
    apply Z.eqb_neq in Hdot. rewrite Hdot.
    pose proof (decimal_nonneg ds Hds) as Hnn.
    rewrite (u32_small (decimal ds)) by lia. reflexivity.
Qed.

(** [X5] on the altitude field of the sample GGA sentence. *)
Lemma parse_decimal_value_witness :
  parse_decimal (chars "206.987") = 20698
  /\ parse_decimal (chars "206") = 20600.
Proof.
  destruct (parse_decimal_value [2; 0; 6] [9; 8; 7] []) as [Hv _].
  - apply all_digits. reflexivity.
  - apply all_digits. reflexivity.
  - vm_compute. reflexivity.
  - reflexivity.
  - destruct (parse_decimal_value [2; 0; 6] [] []) as [_ Hi].
    + apply all_digits. reflexivity.
    + apply all_digits. reflexivity.
    + vm_compute. reflexivity.
    + reflexivity.
    + split; [exact Hv|]. apply Hi; discriminate.
Defined.

(** [X6] A text with a leading minus sign parses to the two's complement
    of its value, so that the [long] it is assigned to (the altitude)
    holds the negative value in hundredths. *)
Theorem parse_decimal_negative (ds fs rest : list Z) :
  Forall is_digit ds ->
  Forall is_digit fs ->
  decimal ds < 2 ^ 31 - 48 ->
  hundredths_of ds fs <= 2 ^ 31 ->
  gpsisdigit (hd 0 rest) = false ->
  parse_decimal (ch "-" :: digits ds ++ ch "." :: digits fs ++ rest)
  = u32 (- hundredths_of ds fs)
  /\ s32 (parse_decimal (ch "-" :: digits ds ++ ch "." :: digits fs ++ rest))
     = - hundredths_of ds fs.
Proof.
  intros Hds Hfs Hlt Hfit Hrest.
  assert (Hpos := parse_decimal_unsigned ds fs rest Hds Hfs Hlt Hrest).
  assert (Hneg : (hd 0 (digits ds ++ ch "." :: digits fs ++ rest) =? ch "-")
                 = false).
  { apply Z.eqb_neq. apply hd_digits; auto. intros _. discriminate. }
  assert (Hh : 0 <= hundredths_of ds fs).
  { unfold hundredths_of. pose proof (decimal_nonneg ds Hds).
    assert (0 <= nth 0 fs 0 /\ 0 <= nth 1 fs 0).
    { destruct Hfs as [|f1 fs1 H1 Hfs1]; [simpl; lia|].
      destruct Hfs1 as [|f2 fs2 H2 _]; unfold is_digit in *; simpl; lia. }
    lia. }
  assert (E : parse_decimal
                (ch "-" :: digits ds ++ ch "." :: digits fs ++ rest)
              = u32 (- u32 (hundredths_of ds fs))).
  { rewrite <- Hpos. unfold parse_decimal at 1. cbn [hd tl].
    rewrite Z.eqb_refl. unfold parse_decimal. rewrite Hneg. reflexivity. }
  rewrite E. split.
  - rewrite (u32_small (hundredths_of ds fs)) by lia. reflexivity.
  - rewrite s32_opp_u32. apply s32_small. lia.
Qed.

(** [X6] on the geoid separation of the sample GGA sentence. *)
Lemma parse_decimal_negative_witness :
  parse_decimal (chars "-26.3") = 4294964666
  /\ s32 (parse_decimal (chars "-26.3")) = -2630.
Proof.
  apply (parse_decimal_negative [2; 6] [3] []).
  - apply all_digits. reflexivity.
  - apply all_digits. reflexivity.
  - vm_compute. reflexivity.
  - vm_compute. discriminate.
  - reflexivity.
Defined.

Lemma degrees_fraction_digits (rest : list Z) (fs : list Z) :
  forall mult h : Z,
  Forall is_digit fs ->
  gpsisdigit (hd 0 rest) = false ->
  u32 (degrees_fraction mult (u32 h) (digits fs ++ rest))
  = u32 (h + fraction mult fs).
Proof.
  induction fs as [|f fs IH]; intros mult h Hfs Hrest;
    cbn [digits map app degrees_fraction fraction].
  - destruct rest as [|x r]; cbn [degrees_fraction].
    + unfold u32. rewrite Z.mod_mod by lia. f_equal. lia.
    + cbn [hd] in Hrest. rewrite Hrest.
      unfold u32. rewrite Z.mod_mod by lia. f_equal. lia.
  - inversion Hfs as [|? ? Hf Hfs']; subst.
    rewrite gpsisdigit_digit by exact Hf. rewrite digit_value.
    fold (digits fs). rewrite IH by assumption.
    rewrite <- (u32_add_l (u32 h + u32 (mult * f))), (u32_add_l h),
      (u32_add_r h), u32_add_l. f_equal. lia.
Qed.

Lemma degrees_fraction_range (p : list Z) :
  forall mult h : Z, 0 <= h < 2 ^ 32 ->
  0 <= degrees_fraction mult h p < 2 ^ 32.
Proof.
  induction p as [|c r IH]; intros mult h Hh; cbn [degrees_fraction];
    [exact Hh|].
  destruct (gpsisdigit c); [|exact Hh].
  apply IH. unfold u32. apply Z.mod_pos_bound. lia.
Qed.

Lemma fraction_zero (fs : list Z) : fraction 0 fs = 0.
Proof.
  induction fs as [|f fs IH]; cbn [fraction]; [reflexivity|].
  change (0 / 10) with 0. rewrite IH. lia.
Qed.

Lemma fraction_five (fs : list Z) : fraction 10000 fs = minute_fraction fs.
Proof.
  unfold minute_fraction.
  destruct fs as [|f1 [|f2 [|f3 [|f4 [|f5 fs]]]]]; cbn [fraction nth];
    change (10000 / 10) with 1000; change (1000 / 10) with 100;
    change (100 / 10) with 10; change (10 / 10) with 1;
    change (1 / 10) with 0; rewrite ?fraction_zero; cbn [fraction]; lia.
Qed.

Lemma minute_fraction_range (fs : list Z) :
  Forall is_digit fs -> 0 <= minute_fraction fs <= 99999.
Proof.
  intros H. unfold minute_fraction.
  assert (Hn : forall i, 0 <= nth i fs 0 <= 9).
  { intros i. destruct (nth_in_or_default i fs 0) as [Hin | ->]; [|lia].
    rewrite Forall_forall in H. apply (H _ Hin). }
  pose proof (Hn 0%nat). pose proof (Hn 1%nat). pose proof (Hn 2%nat).
  pose proof (Hn 3%nat). pose proof (Hn 4%nat). lia.
Qed.

Lemma parse_degrees_digits (ds fs rest : list Z) :
  Forall is_digit ds ->
  Forall is_digit fs ->
  decimal ds < 2 ^ 31 - 48 ->
  gpsisdigit (hd 0 rest) = false ->
  parse_degrees (digits ds ++ ch "." :: digits fs ++ rest)
  = u32 (millionths ds fs).
Proof.
  intros Hds Hfs Hlt Hrest.
  pose proof (decimal_nonneg ds Hds) as Hnn.
  pose proof (minute_fraction_range fs Hfs) as Hmf.
  assert (Hm : 0 <= decimal ds mod 100 < 100) by (apply Z.mod_pos_bound; lia).
  unfold parse_degrees.
  rewrite gpsatol_digits by (auto; reflexivity).
  rewrite skip_digits_digits by (auto; reflexivity).
  cbn [hd tl]. rewrite Z.eqb_refl.
  rewrite (u32_small (decimal ds)) by lia.
  set (h := decimal ds mod 100 * 100000).
  set (q := decimal ds / 100 * 1000000).
  pose proof (degrees_fraction_range (digits fs ++ rest) 10000 (u32 h)
                ltac:(unfold u32; apply Z.mod_pos_bound; lia)) as Hrange.
  pose proof (degrees_fraction_digits rest fs 10000 h Hfs Hrest) as Hval.
  rewrite (u32_small (degrees_fraction _ _ _)) in Hval by exact Hrange.
  rewrite Hval, fraction_five.
  rewrite (u32_small (h + minute_fraction fs)) by (subst h; lia).
  rewrite (u32_small (h + minute_fraction fs + 3)) by (subst h; lia).
  rewrite u32_add_l. unfold millionths. reflexivity.
Qed.

(** [X7] [parse_degrees] turns an angle written [ddmm.mmmmm] into
    millionths of a degree: whole degrees times 1000000 plus the minutes,
    taken with their first five decimals, divided by 6 and rounded to the
    nearest integer.  Decimals beyond the fifth are ignored. *)
Theorem parse_degrees_value (ds fs rest : list Z) :
  Forall is_digit ds ->
  Forall is_digit fs ->
  decimal ds < 2 ^ 31 - 48 ->
  gpsisdigit (hd 0 rest) = false ->
  parse_degrees (digits ds ++ ch "." :: digits fs ++ rest)
  = u32 (millionths ds fs)
  /\ 6 * millionths ds fs - 3 <= angle_minutes ds fs
     <= 6 * millionths ds fs + 2
  /\ (hd 0 rest <> ch "." ->
      parse_degrees (digits ds ++ rest) = u32 (millionths ds [])).
Proof.
  intros Hds Hfs Hlt Hrest.
  pose proof (decimal_nonneg ds Hds) as Hnn.
  pose proof (minute_fraction_range fs Hfs) as Hmf.
  assert (Hm : 0 <= decimal ds mod 100 < 100) by (apply Z.mod_pos_bound; lia).
  split; [|split].
  - apply parse_degrees_digits; assumption.
  - unfold millionths, angle_minutes.
    pose proof (Z.div_mod (decimal ds mod 100 * 100000 + minute_fraction fs + 3)
                  6 ltac:(lia)) as Hdm.
    pose proof (Z.mod_pos_bound
                  (decimal ds mod 100 * 100000 + minute_fraction fs + 3) 6
                  ltac:(lia)) as Hr.
    lia.
  - intros Hdot. unfold parse_degrees.
    rewrite gpsatol_digits by assumption.
    rewrite skip_digits_digits by assumption.
    apply Z.eqb_neq in Hdot. rewrite Hdot.
    rewrite (u32_small (decimal ds)) by lia.
    rewrite (u32_small (decimal ds mod 100 * 100000)) by lia.
    rewrite (u32_small (decimal ds mod 100 * 100000 + 3)) by lia.
    rewrite u32_add_l. unfold millionths, minute_fraction. cbn [nth].
    f_equal. f_equal. f_equal. lia.
Qed.

(** [X7] on the latitude field of the sample sentence. *)
Lemma parse_degrees_value_witness :
  parse_degrees (chars "3014.1984") = 30236640
  /\ parse_degrees (chars "3014") = 30233333.
Proof.
  destruct (parse_degrees_value [3; 0; 1; 4] [1; 9; 8; 4] [])
    as (Hv & _ & Hi).
  - apply all_digits. reflexivity.
  - apply all_digits. reflexivity.
  - vm_compute. reflexivity.
  - reflexivity.
  - split; [exact Hv|]. apply Hi. discriminate.
Defined.

(** ** The dispatch table, one sentence type at a time *)

Lemma navstat_cstr (t : list Z) :
  (hd 0 (cstr t) =? ch "G")
  || ((hd 0 (cstr t) =? ch "D") && negb (nth 1 t 0 =? ch "R"))
  = (hd 0 (cstr t) =? ch "G")
    || ((hd 0 (cstr t) =? ch "D") && negb (nth 1 (cstr t) 0 =? ch "R")).
Proof.
  destruct t as [|a [|b r]]; cbn [cstr hd nth]; try reflexivity.
  - destruct (a =? 0); reflexivity.
  - destruct (a =? 0); [reflexivity|]. cbn [hd nth].
    destruct (b =? 0) eqn:E; [|reflexivity].
    apply Z.eqb_eq in E. subst b. reflexivity.
Qed.

Ltac field_number k :=
  assert (k = 1 \/ k = 2 \/ k = 3 \/ k = 4 \/ k = 5 \/ k = 6 \/ k = 7
          \/ k = 8 \/ k = 9 \/ k = 10 \/ k = 11 \/ k = 12 \/ k = 13
          \/ k = 14 \/ k = 15 \/ k = 16 \/ k = 17 \/ k = 18 \/ k = 19
          \/ k = 20 \/ k = 21 \/ k = 22 \/ k = 23 \/ k = 24 \/ k = 25
          \/ k = 26 \/ k = 27 \/ k = 28 \/ k = 29 \/ k = 30 \/ k = 31)
    as Hfield by lia;
  repeat (destruct Hfield as [->|Hfield]); try subst k.

Ltac dispatched t :=
  first
    [ reflexivity
    | destruct (hd 0 (cstr t) =? ch "S"); reflexivity
    | destruct (hd 0 (cstr t) =? ch "W"); reflexivity ].

Lemma dispatch_gga (pf : platform) (now : Z) (g : TinyGPS) :
  _sentence_type (cursor g) = _GPS_SENTENCE_GPGGA ->
  1 <= _term_number (cursor g) < 32 ->
  dispatch pf now g
  = (a <- gga_stage pf (millis now) (_term_number (cursor g))
            (cstr (_term (cursor g)))
            (staged g, _gps_data_good (cursor g), sats g) ;;
     Ok (restaged g a)).
Proof.
  destruct g as [f n [par ck t ty ubx k off good] s st].
  cbn [cursor staged sats _term _sentence_type _term_number _gps_data_good].
  intros -> Hk. unfold dispatch. cbv zeta.
  cbn [cursor staged sats _term _sentence_type _term_number _gps_data_good].
  rewrite !nth0_cstr. unfold gga_stage, position_stage, restaged.
  field_number k; destruct pf; dispatched t.
Qed.

Lemma dispatch_gns (pf : platform) (now : Z) (g : TinyGPS) :
  _sentence_type (cursor g) = _GPS_SENTENCE_GNGNS ->
  1 <= _term_number (cursor g) < 32 ->
  dispatch pf now g
  = (a <- gns_stage pf (millis now) (_term_number (cursor g))
            (cstr (_term (cursor g)))
            (staged g, _gps_data_good (cursor g), sats g) ;;
     Ok (restaged g a)).
Proof.
  destruct g as [f n [par ck t ty ubx k off good] s st].
  cbn [cursor staged sats _term _sentence_type _term_number _gps_data_good].
  intros -> Hk. unfold dispatch. cbv zeta.
  cbn [cursor staged sats _term _sentence_type _term_number _gps_data_good].
  rewrite !nth0_cstr. unfold gns_stage, position_stage, restaged.
  field_number k; destruct pf; dispatched t.
Qed.

Lemma dispatch_gsa (pf : platform) (now : Z) (g : TinyGPS) :
  _sentence_type (cursor g) = _GPS_SENTENCE_GNGSA ->
  1 <= _term_number (cursor g) < 32 ->
  dispatch pf now g
  = (a <- gsa_stage (millis now) (_term_number (cursor g))
            (cstr (_term (cursor g)))
            (staged g, _gps_data_good (cursor g), sats g) ;;
     Ok (restaged g a)).
Proof.
  destruct g as [f n [par ck t ty ubx k off good] s st].
  cbn [cursor staged sats _term _sentence_type _term_number _gps_data_good].
  intros -> Hk. unfold dispatch. cbv zeta.
  cbn [cursor staged sats _term _sentence_type _term_number _gps_data_good].
  unfold gsa_stage, restaged.
  field_number k; destruct pf; reflexivity.
Qed.

Lemma dispatch_zda (pf : platform) (now : Z) (g : TinyGPS) :
  _sentence_type (cursor g) = _GPS_SENTENCE_GPZDA ->
  1 <= _term_number (cursor g) < 32 ->
  dispatch pf now g
  = (a <- zda_stage (millis now) (_term_number (cursor g))
            (cstr (_term (cursor g)))
            (staged g, _gps_data_good (cursor g), sats g) ;;
     Ok (restaged g a)).
Proof.
  destruct g as [f n [par ck t ty ubx k off good] s st].
  cbn [cursor staged sats _term _sentence_type _term_number _gps_data_good].
  intros -> Hk. unfold dispatch. cbv zeta.
  cbn [cursor staged sats _term _sentence_type _term_number _gps_data_good].
  unfold zda_stage, restaged.
  field_number k; destruct pf; reflexivity.
Qed.

Lemma dispatch_pubx00 (pf : platform) (now : Z) (g : TinyGPS) :
  _sentence_type (cursor g) = _GPS_SENTENCE_PUBX ->
  _UBX_message_type (cursor g) = 0 ->
  1 <= _term_number (cursor g) < 32 ->
  dispatch pf now g
  = (a <- pubx00_stage pf (millis now) (_term_number (cursor g))
            (cstr (_term (cursor g)))
            (staged g, _gps_data_good (cursor g), sats g) ;;
     Ok (restaged g a)).
Proof.
  destruct g as [f n [par ck t ty ubx k off good] s st].
  cbn [cursor staged sats _term _sentence_type _term_number _gps_data_good
       _UBX_message_type].
  intros -> -> Hk. unfold dispatch. cbv zeta.
  cbn [cursor staged sats _term _sentence_type _term_number _gps_data_good
       _UBX_message_type].
  rewrite !nth0_cstr, navstat_cstr.
  unfold pubx00_stage, position_stage, restaged.
  field_number k; destruct pf; dispatched t.
Qed.

Lemma dispatch_pubx04 (pf : platform) (now : Z) (g : TinyGPS) :
  _sentence_type (cursor g) = _GPS_SENTENCE_PUBX ->
  _UBX_message_type (cursor g) = 4 ->
  1 <= _term_number (cursor g) < 32 ->
  dispatch pf now g
  = (a <- pubx04_stage (millis now) (_term_number (cursor g))
            (cstr (_term (cursor g)))
            (staged g, _gps_data_good (cursor g), sats g) ;;
     Ok (restaged g a)).
Proof.
  destruct g as [f n [par ck t ty ubx k off good] s st].
  cbn [cursor staged sats _term _sentence_type _term_number _gps_data_good
       _UBX_message_type].
  intros -> -> Hk. unfold dispatch. cbv zeta.
  cbn [cursor staged sats _term _sentence_type _term_number _gps_data_good
       _UBX_message_type].
  unfold pubx04_stage, restaged.
  field_number k; destruct pf; reflexivity.
Qed.

Lemma dispatch_gsv (pf : platform) (now : Z) (g : TinyGPS) :
  is_gsv (_sentence_type (cursor g)) ->
  1 <= _term_number (cursor g) < 32 ->
  dispatch pf now g
  = (a <- gsv_stage pf (_sentence_type (cursor g)) (millis now)
            (_term_number (cursor g)) (cstr (_term (cursor g)))
            (staged g, _gps_data_good (cursor g), sats g) ;;
     Ok (restaged g a)).
Proof.
  destruct g as [f n [par ck t ty ubx k off good] s st].
  cbn [cursor staged sats _term _sentence_type _term_number _gps_data_good].
  intros Hty Hk. unfold dispatch. cbv zeta.
  cbn [cursor staged sats _term _sentence_type _term_number _gps_data_good].
  unfold gsv_stage, restaged, store_sat, store_slot, sat_slot, packed.
  cbn [cursor staged sats _term _sentence_type _term_number _gps_data_good].
  destruct Hty as [-> | ->]; field_number k; destruct pf;
    first
      [ reflexivity
      | cbn -[atoi u8 u32 sint upd Z.lor Z.shiftl Z.add Z.leb Z.ltb Z.to_nat];
        destruct (u8 (atoi _ (cstr t)) =? 0);
        match goal with
        | |- context [(0 <=? ?i) && (?i <? 24)] =>
            destruct ((0 <=? i) && (i <? 24)); reflexivity
        end ].
Qed.

(** ** A sentence, field by field *)

Lemma commit_published (pf : platform) (g : TinyGPS) :
  checksum pf (cursor g) = _parity (cursor g) ->
  let c := cursor g in
  commit pf g
  = (_gps_data_good c,
     mkTinyGPS
       (published (_sentence_type c) (_UBX_message_type c) (_gps_data_good c)
          (staged g) (fix_state g))
       (staged g) c (sats g)
       (if _gps_data_good c then
          set_good_sentences (u16 (_good_sentences (statistics g) + 1))
            (statistics g)
        else statistics g)).
Proof.
  intros Hsum. cbv zeta. unfold commit. apply Z.eqb_eq in Hsum. rewrite Hsum.
  destruct g as [f n [par ck t ty ubx k off good] s st].
  unfold published, carries_clock, promote_fields.
  cbn [cursor staged sats statistics fix_state _sentence_type
       _UBX_message_type _gps_data_good].
  destruct good; destruct ty; try reflexivity;
    destruct (ubx =? 4); destruct (ubx =? 0); reflexivity.
Qed.

(** The two checksum digits and the line terminator, for a sentence of
    any type. *)
Lemma checksum_step_any (pf : platform) (now h1 h2 eol : Z)
      (f : Fix) (n : Staging) (par : Z) (t : list Z) (ty : sentence)
      (ubx k : Z) (good : bool) (s : Sats) (st : Stats) :
  is_ordinary h1 = true ->
  is_ordinary h2 = true ->
  is_eol eol ->
  List.length t = 15%nat ->
  let ok := u8 (16 * from_hex pf h1 + from_hex pf h2) =? par in
  exists (t' : list Z) (st' : Stats) (k' : Z),
    List.length t' = 15%nat
    /\ _good_sentences st'
       = (if ok && good then u16 (_good_sentences st + 1)
          else _good_sentences st)
    /\ _failed_checksum st'
       = (if ok then _failed_checksum st else u16 (_failed_checksum st + 1))
    /\ feed pf (at_time now [h1; h2; eol])
         (mkTinyGPS f n (mkCursor par true t ty ubx k 0 good) s st)
       = Ok ([false; false; ok && good],
             mkTinyGPS (if ok then published ty ubx good n f else f) n
               (mkCursor par false t' ty ubx k' 0 good) s st').
Proof.
  intros Hh1 Hh2 Heol Hlen ok.
  destruct (eol_terminator eol Heol) as [Hterm Hcomma].
  assert (Hstar : (eol =? ch "*") = false)
    by (destruct Heol as [->| ->]; reflexivity).
  change [h1; h2; eol] with ([h1; h2] ++ [eol]).
  rewrite feed_term; auto.
  do 3 (destruct t as [|? t]; [discriminate Hlen|]).
  unfold term_complete.
  cbn [closed after_chars cursor _is_checksum_term].
  destruct ok eqn:Hok; subst ok.
  - apply Z.eqb_eq in Hok.
    rewrite commit_published.
    2:{ unfold checksum, closed, after_chars.
        cbn -[Z.mul Z.add Z.eqb u8 u16 u32 bump from_hex].
        change (ch ",") with 44 in Hcomma. rewrite Hcomma.
        change (Pos.to_nat 2) with 2%nat. cbn [upd nth]. exact Hok. }
    unfold closed, after_chars, advance.
    cbn -[Z.mul Z.add Z.eqb u8 u16 u32 bump from_hex published].
    change (ch ",") with 44 in Hcomma. change (ch "*") with 42 in Hstar.
    rewrite Hcomma, Hstar.
    destruct good; cbn -[Z.mul Z.add Z.eqb u8 u16 u32 bump from_hex published];
      do 3 eexists;
      (split; [|split; [|split; [|reflexivity]]]);
      cbn -[Z.mul Z.add Z.eqb u8 u16 u32 bump from_hex published];
      try reflexivity; rewrite ?upd_length; exact Hlen.
  - unfold commit, checksum, closed, after_chars, advance.
    cbn -[Z.mul Z.add Z.eqb u8 u16 u32 bump from_hex published].
    change (ch ",") with 44 in Hcomma. change (ch "*") with 42 in Hstar.
    rewrite Hcomma, Hstar.
    change (Pos.to_nat 2) with 2%nat. cbn [upd nth].
    rewrite Hok.
    cbn -[Z.mul Z.add Z.eqb u8 u16 u32 bump from_hex published].
    do 3 eexists;
      (split; [|split; [|split; [|reflexivity]]]);
      cbn -[Z.mul Z.add Z.eqb u8 u16 u32 bump from_hex published];
      try reflexivity; rewrite ?upd_length; exact Hlen.
Qed.

(** The message number of a PUBX sentence. *)
Lemma pubx_id_step (pf : platform) (now : Z) (w : list Z) (f : Fix)
      (n : Staging) (par : Z) (t : list Z) (ubx0 : Z) (good : bool)
      (s : Sats) (st : Stats) :
  Forall (fun c => is_ordinary c = true) w ->
  List.length t = 15%nat ->
  exists (t' : list Z) (st' : Stats),
    List.length t' = 15%nat
    /\ same_counts st st'
    /\ feed pf (at_time now (w ++ [ch ","]))
         (mkTinyGPS f n
            (mkCursor par false t _GPS_SENTENCE_PUBX ubx0 1 0 good) s st)
       = Ok (repeat false (S (List.length w)),
             mkTinyGPS f n
               (mkCursor (xor_fold par (w ++ [ch ","])) false t'
                  _GPS_SENTENCE_PUBX (uint pf (gpsatol (term_of w))) 2 0 good)
               s st').
Proof.
  intros Hw Hlen.
  exists (upd (Nat.min (List.length w) 14) 0 (stored 0 w t)).
  exists (bumps (S (List.length w)) st).
  split; [rewrite upd_length; apply stored_length; exact Hlen|].
  split; [apply same_counts_bumps|].
  rewrite feed_term; auto.
  unfold term_complete, closed, after_chars, advance.
  cbn [cursor _is_checksum_term _term_number _term _term_offset bind fst snd
       fix_state staged sats statistics _parity _sentence_type
       _UBX_message_type _gps_data_good set_cursor set_UBX_message_type
       set_is_checksum_term set_term_offset set_term_number].
  change (1 =? 0) with false.
  change (sentence_eqb _GPS_SENTENCE_PUBX _GPS_SENTENCE_PUBX && (1 =? 1))
    with true.
  cbv iota. cbn [bind fst snd].
  cbn [cursor _is_checksum_term _term_number _term _term_offset
       fix_state staged sats statistics _parity _sentence_type
       _UBX_message_type _gps_data_good set_cursor set_UBX_message_type
       set_is_checksum_term set_term_offset set_term_number].
  change (0 + List.length w)%nat with (List.length w).
  rewrite !Nat2Z.id, !cstr_closed_buffer by exact Hlen.
  rewrite xor_fold_app.
  replace (repeat false (List.length w) ++ [false])
    with (repeat false (S (List.length w)))
    by (simpl; rewrite repeat_cons; reflexivity).
  reflexivity.
Qed.

Section Sentence.

Variable pf : platform.
Variable ty : sentence.
Variable ubx : Z.
Variable lo : Z.
Variable stage : stager.

Hypothesis lo_pos : 1 <= lo.
Hypothesis ty_other :
  ty = _GPS_SENTENCE_OTHER ->
  forall (ms k : Z) (term : list Z) (acc : (Staging * bool * Sats)),
  stage ms k term acc = Ok acc.
Hypothesis ty_pubx : ty = _GPS_SENTENCE_PUBX -> 2 <= lo.
Hypothesis stage_dispatch :
  forall (now : Z) (g : TinyGPS),
  _sentence_type (cursor g) = ty ->
  _UBX_message_type (cursor g) = ubx ->
  lo <= _term_number (cursor g) < 32 ->
  dispatch pf now g
  = (a <- stage (millis now) (_term_number (cursor g))
            (cstr (_term (cursor g)))
            (staged g, _gps_data_good (cursor g), sats g) ;;
     Ok (restaged g a)).

Lemma term_complete_staged (now : Z) (g : TinyGPS) :
  _is_checksum_term (cursor g) = false ->
  _sentence_type (cursor g) = ty ->
  _UBX_message_type (cursor g) = ubx ->
  lo <= _term_number (cursor g) < 32 ->
  term_complete pf now g
  = (a <- field_of stage (millis now) (_term_number (cursor g))
            (cstr (_term (cursor g)))
            (staged g, _gps_data_good (cursor g), sats g) ;;
     Ok (false, restaged g a)).
Proof.
  intros Hck Hty Hubx Hk. unfold term_complete. rewrite Hck.
  assert (Hk0 : (_term_number (cursor g) =? 0) = false)
    by (apply Z.eqb_neq; lia).
  rewrite Hk0.
  assert (Hid : sentence_eqb (_sentence_type (cursor g)) _GPS_SENTENCE_PUBX
                && (_term_number (cursor g) =? 1) = false).
  { rewrite Hty. destruct ty; try reflexivity.
    change (sentence_eqb _GPS_SENTENCE_PUBX _GPS_SENTENCE_PUBX) with true.
    cbn [andb].
    apply Z.eqb_neq. specialize (ty_pubx eq_refl). lia. }
  rewrite Hid.
  assert (Hsame : Ok (false, g)
                  = (a <- Ok (staged g, _gps_data_good (cursor g), sats g) ;;
                     Ok (false, restaged g a))).
  { destruct g as [f n [par ck t ty0 ubx0 k off good] s st]. reflexivity. }
  unfold field_of.
  destruct (sentence_eqb (_sentence_type (cursor g)) _GPS_SENTENCE_OTHER)
    eqn:Hknown.
  - assert (Hoth : ty = _GPS_SENTENCE_OTHER).
    { rewrite Hty in Hknown. destruct ty; try discriminate. reflexivity. }
    cbn [negb andb]. rewrite (ty_other Hoth).
    destruct (hd 0 (cstr (_term (cursor g))) =? 0); exact Hsame.
  - cbn [negb andb]. rewrite nth0_cstr.
    destruct (hd 0 (cstr (_term (cursor g))) =? 0); [exact Hsame|].
    cbn [negb]. rewrite stage_dispatch by assumption.
    destruct (stage _ _ _ _); reflexivity.
Qed.

(** One field, closed by a comma or by the checksum marker. *)
Lemma term_step (now : Z) (w : list Z) (c : Z) (f : Fix) (n : Staging)
      (par : Z) (t : list Z) (k : Z) (good : bool) (s : Sats)
      (st : Stats) :
  Forall (fun c => is_ordinary c = true) w ->
  c = ch "," \/ c = ch "*" ->
  List.length t = 15%nat ->
  lo <= k < 32 ->
  match field_of stage (millis now) k (term_of w) (n, good, s) with
  | Ok a =>
      exists (t' : list Z) (st' : Stats),
        List.length t' = 15%nat
        /\ same_counts st st'
        /\ feed pf (at_time now (w ++ [c]))
             (mkTinyGPS f n (mkCursor par false t ty ubx k 0 good) s st)
           = Ok (repeat false (S (List.length w)),
                 mkTinyGPS f (fst (fst a))
                   (mkCursor
                      (if c =? ch "," then xor_fold par (w ++ [c])
                       else xor_fold par w)
                      (c =? ch "*") t' ty ubx (k + 1) 0 (snd (fst a)))
                   (snd a) st')
  | OutOfBounds i =>
      feed pf (at_time now (w ++ [c]))
        (mkTinyGPS f n (mkCursor par false t ty ubx k 0 good) s st)
      = OutOfBounds i
  end.
Proof.
  intros Hw Hc Hlen Hk.
  rewrite feed_term; auto using is_separator.
  rewrite term_complete_staged; [| reflexivity | reflexivity | reflexivity
                                 | exact Hk].
  unfold closed, after_chars.
  cbn [cursor staged sats _term _term_number _gps_data_good _term_offset].
  cbn [Nat.add]. rewrite Nat2Z.id, cstr_closed_buffer by exact Hlen.
  destruct (field_of stage (millis now) k (term_of w) (n, good, s))
    as [[[n' good'] s']|i]; cbn [bind]; [|reflexivity].
  exists (upd (Nat.min (List.length w) 14) 0 (stored 0 w t)).
  exists (bumps (S (List.length w)) st).
  split; [rewrite upd_length; apply stored_length; exact Hlen|].
  split; [apply same_counts_bumps|].
  unfold advance, restaged. simpl.
  replace (u8 (k + 1)) with (k + 1) by (unfold u8; rewrite Z.mod_small; lia).
  replace (repeat false (List.length w) ++ [false])
    with (repeat false (S (List.length w)))
    by (simpl; rewrite repeat_cons; reflexivity).
  unfold xor_fold. rewrite fold_left_app. simpl.
  destruct (c =? ch ","); reflexivity.
Qed.

(** The fields of a sentence up to the checksum marker. *)
Lemma terms (now : Z) (fs : list (list Z)) :
  forall (w : list Z) (k : Z) (f : Fix) (n : Staging) (par : Z)
         (t : list Z) (good : bool) (s : Sats) (st : Stats),
  Forall (fun c => is_ordinary c = true) w ->
  Forall (Forall (fun c => is_ordinary c = true)) fs ->
  List.length t = 15%nat ->
  lo <= k ->
  k + Z.of_nat (List.length fs) < 32 ->
  match run_fields stage (millis now) k w fs (n, good, s) with
  | Ok a =>
      exists (vs : list bool) (t' : list Z) (st' : Stats),
        List.length t' = 15%nat
        /\ same_counts st st'
        /\ Forall (fun v => v = false) vs
        /\ feed pf (at_time now (joined w fs ++ [ch "*"]))
             (mkTinyGPS f n (mkCursor par false t ty ubx k 0 good) s st)
           = Ok (vs,
                 mkTinyGPS f (fst (fst a))
                   (mkCursor (xor_fold par (joined w fs)) true t' ty ubx
                      (k + 1 + Z.of_nat (List.length fs)) 0 (snd (fst a)))
                   (snd a) st')
  | OutOfBounds i =>
      feed pf (at_time now (joined w fs ++ [ch "*"]))
        (mkTinyGPS f n (mkCursor par false t ty ubx k 0 good) s st)
      = OutOfBounds i
  end.
Proof.
  induction fs as [|f1 fs IH];
    intros w k f n par t good s st Hw Hfs Hlen Hk Hbound.
  - cbn [run_fields]. rewrite joined_nil.
    assert (Hstep := term_step now w (ch "*") f n par t k good s st Hw
                       (or_intror eq_refl) Hlen
                       ltac:(simpl in Hbound; lia)).
    destruct (field_of stage (millis now) k (term_of w) (n, good, s))
      as [a|i]; [|exact Hstep].
    destruct Hstep as (t' & st' & Hlen' & Hst & Hfeed).
    exists (repeat false (S (List.length w))), t', st'.
    simpl List.length. rewrite Z.add_0_r.
    repeat split; try assumption; try apply Hst.
    apply Forall_forall. intros v Hv. apply repeat_spec in Hv. exact Hv.
  - inversion Hfs as [|? ? Hf1 Hfs']; subst.
    simpl List.length in Hbound. cbn [run_fields].
    assert (Hstep := term_step now w (ch ",") f n par t k good s st Hw
                       (or_introl eq_refl) Hlen ltac:(lia)).
    rewrite joined_cons, <- app_assoc, at_time_app, feed_app.
    destruct (field_of stage (millis now) k (term_of w) (n, good, s))
      as [[[n1 good1] s1]|i]; cbn [bind].
    + destruct Hstep as (t1 & st1 & Hlen1 & Hst1 & Hfeed1).
      rewrite Hfeed1. cbn [bind fst snd].
      change (ch "," =? ch ",") with true. cbv iota.
      change (ch "," =? ch "*") with false.
      specialize (IH f1 (k + 1) f n1 (xor_fold par (w ++ [ch ","])) t1
                    good1 s1 st1 Hf1 Hfs' Hlen1 ltac:(lia) ltac:(lia)).
      destruct (run_fields stage (millis now) (k + 1) f1 fs (n1, good1, s1))
        as [a|i].
      * destruct IH as (vs2 & t2 & st2 & Hlen2 & Hst2 & Hvs2 & Hfeed2).
        exists (repeat false (S (List.length w)) ++ vs2), t2, st2.
        split; [exact Hlen2|].
        split; [eapply same_counts_trans; eassumption|].
        split.
        { apply Forall_app. split; [|exact Hvs2].
          apply Forall_forall. intros v Hv. apply repeat_spec in Hv.
          exact Hv. }
        rewrite Hfeed2. cbn [bind fst snd].
        replace (k + 1 + 1 + Z.of_nat (List.length fs))
          with (k + 1 + Z.of_nat (S (List.length fs))) by lia.
        rewrite !xor_fold_app. reflexivity.
      * rewrite IH. reflexivity.
    + rewrite Hstep. reflexivity.
Qed.

(** The fields, the checksum and the line terminator. *)
Lemma fields_and_checksum (now : Z) (w : list Z) (fs : list (list Z))
      (h1 h2 eol k : Z) (f : Fix) (n : Staging) (par : Z) (t : list Z)
      (s : Sats) (st : Stats) :
  Forall (fun c => is_ordinary c = true) w ->
  Forall (Forall (fun c => is_ordinary c = true)) fs ->
  List.length t = 15%nat ->
  lo <= k ->
  k + Z.of_nat (List.length fs) < 32 ->
  is_ordinary h1 = true ->
  is_ordinary h2 = true ->
  is_eol eol ->
  let ok :=
    u8 (16 * from_hex pf h1 + from_hex pf h2)
    =? xor_fold par (joined w fs) in
  match run_fields stage (millis now) k w fs (n, false, s) with
  | Ok a =>
      exists (vs : list bool) (t' : list Z) (st' : Stats) (k' : Z),
        List.length t' = 15%nat
        /\ Forall (fun v => v = false) vs
        /\ _good_sentences st'
           = (if ok && snd (fst a) then u16 (_good_sentences st + 1)
              else _good_sentences st)
        /\ _failed_checksum st'
           = (if ok then _failed_checksum st
              else u16 (_failed_checksum st + 1))
        /\ feed pf
             (at_time now (joined w fs ++ ch "*" :: [h1; h2; eol]))
             (mkTinyGPS f n (mkCursor par false t ty ubx k 0 false) s st)
           = Ok (vs ++ [ok && snd (fst a)],
                 mkTinyGPS
                   (if ok then
                      published ty ubx (snd (fst a)) (fst (fst a)) f
                    else f)
                   (fst (fst a))
                   (mkCursor (xor_fold par (joined w fs)) false t' ty ubx
                      k' 0 (snd (fst a)))
                   (snd a) st')
  | OutOfBounds i =>
      feed pf (at_time now (joined w fs ++ ch "*" :: [h1; h2; eol]))
        (mkTinyGPS f n (mkCursor par false t ty ubx k 0 false) s st)
      = OutOfBounds i
  end.
Proof.
  intros Hw Hfs Hlen Hk Hbound Hh1 Hh2 Heol ok.
  assert (Hrun := terms now fs w k f n par t false s st Hw Hfs Hlen Hk
                    Hbound).
  change (joined w fs ++ ch "*" :: [h1; h2; eol])
    with (joined w fs ++ [ch "*"] ++ [h1; h2; eol]).
  rewrite app_assoc, at_time_app, feed_app.
  destruct (run_fields stage (millis now) k w fs (n, false, s))
    as [[[n1 good1] s1]|i]; [|rewrite Hrun; reflexivity].
  destruct Hrun as (vs1 & t1 & st1 & Hlen1 & [Hg1 Hf1] & Hvs1 & Hfeed1).
  rewrite Hfeed1. cbn [bind fst snd].
  destruct (checksum_step_any pf now h1 h2 eol f n1
              (xor_fold par (joined w fs)) t1 ty ubx
              (k + 1 + Z.of_nat (List.length fs)) good1 s1 st1
              Hh1 Hh2 Heol Hlen1)
    as (t2 & st2 & k2 & Hlen2 & Hgood2 & Hfail2 & Hfeed2).
  cbv zeta in Hfeed2, Hgood2, Hfail2. fold ok in Hfeed2, Hgood2, Hfail2.
  rewrite Hfeed2. cbn [bind fst snd].
  exists (vs1 ++ [false; false]), t2, st2, k2.
  split; [exact Hlen2|].
  split.
  { apply Forall_app. split; [exact Hvs1|repeat constructor]. }
  split; [rewrite Hgood2, Hg1; reflexivity|].
  split; [rewrite Hfail2, Hf1; reflexivity|].
  rewrite <- app_assoc. reflexivity.
Qed.

(** A complete sentence, received from any state of the parser: what it
    stages, what it publishes and what the closing call returns. *)
Lemma sentence_decoded (now : Z) (g : TinyGPS) (tag f1 : list Z)
      (fs : list (list Z)) (h1 h2 eol : Z) :
  lo = 1 ->
  _UBX_message_type (cursor g) = ubx ->
  List.length (_term (cursor g)) = 15%nat ->
  Forall (fun c => is_ordinary c = true) tag ->
  classify (term_of tag) = ty ->
  Forall (fun c => is_ordinary c = true) f1 ->
  Forall (Forall (fun c => is_ordinary c = true)) fs ->
  Z.of_nat (List.length fs) < 30 ->
  is_ordinary h1 = true ->
  is_ordinary h2 = true ->
  is_eol eol ->
  let ok :=
    u8 (16 * from_hex pf h1 + from_hex pf h2)
    =? parity_of (joined tag (f1 :: fs)) in
  match run_fields stage (millis now) 1 f1 fs (staged g, false, sats g)
  with
  | Ok a =>
      exists (vs : list bool) (g' : TinyGPS),
        feed pf
          (at_time now
             (ch "$" :: joined tag (f1 :: fs) ++ ch "*" :: [h1; h2; eol]))
          g
        = Ok (vs ++ [ok && snd (fst a)], g')
        /\ Forall (fun v => v = false) vs
        /\ fix_state g'
           = (if ok then
                published ty ubx (snd (fst a)) (fst (fst a)) (fix_state g)
              else fix_state g)
        /\ staged g' = fst (fst a)
        /\ sats g' = snd a
        /\ List.length (_term (cursor g')) = 15%nat
        /\ _good_sentences (statistics g')
           = (if ok && snd (fst a)
              then u16 (_good_sentences (statistics g) + 1)
              else _good_sentences (statistics g))
        /\ _failed_checksum (statistics g')
           = (if ok then _failed_checksum (statistics g)
              else u16 (_failed_checksum (statistics g) + 1))
  | OutOfBounds i =>
      feed pf
        (at_time now
           (ch "$" :: joined tag (f1 :: fs) ++ ch "*" :: [h1; h2; eol]))
        g
      = OutOfBounds i
  end.
Proof.
  intros Hlo Hubx Hlen Htag Hclass Hf1 Hfs Hcount Hh1 Hh2 Heol ok.
  assert (Hs : ch "$" :: joined tag (f1 :: fs) ++ ch "*" :: [h1; h2; eol]
               = (ch "$" :: tag ++ [ch ","])
                 ++ (joined f1 fs ++ ch "*" :: [h1; h2; eol])).
  { rewrite joined_cons. simpl. rewrite <- !app_assoc. reflexivity. }
  rewrite Hs. clear Hs.
  destruct (tag_step pf now tag g Htag Hlen)
    as (t0 & st0 & Hlen0 & [Hg0 Hf0] & Hfeed0).
  rewrite Hclass, Hubx in Hfeed0.
  assert (Hrun := fields_and_checksum now f1 fs h1 h2 eol 1 (fix_state g)
                    (staged g) (xor_fold 0 (tag ++ [ch ","])) t0 (sats g)
                    st0 Hf1 Hfs Hlen0 ltac:(lia) ltac:(lia) Hh1 Hh2 Heol).
  cbv zeta in Hrun.
  assert (Hpar : xor_fold (xor_fold 0 (tag ++ [ch ","])) (joined f1 fs)
                 = parity_of (joined tag (f1 :: fs))).
  { rewrite <- xor_fold_parity, joined_cons, !xor_fold_app. reflexivity. }
  rewrite Hpar in Hrun. fold ok in Hrun.
  rewrite at_time_app, feed_app, Hfeed0. cbn [bind fst snd].
  destruct (run_fields stage (millis now) 1 f1 fs (staged g, false, sats g))
    as [a|i]; [|rewrite Hrun; reflexivity].
  destruct Hrun as (vs & t1 & st1 & k1 & Hlen1 & Hvs & Hgood1 & Hfail1
                    & Hfeed1).
  rewrite Hfeed1. cbn [bind fst snd].
  exists (repeat false (S (S (List.length tag))) ++ vs). eexists.
  split; [rewrite <- app_assoc; reflexivity|].
  cbn [fix_state staged sats cursor statistics _term].
  split.
  { apply Forall_app. split; [|exact Hvs].
    apply Forall_forall. intros v Hv. apply repeat_spec in Hv. exact Hv. }
  repeat split; try reflexivity; try assumption.
  - rewrite Hgood1, Hg0. reflexivity.
  - rewrite Hfail1, Hf0. reflexivity.
Qed.

(** The same for a PUBX sentence, whose first field is the message
    number. *)
Lemma pubx_sentence_decoded (now : Z) (g : TinyGPS) (tag id f2 : list Z)
      (fs : list (list Z)) (h1 h2 eol : Z) :
  ty = _GPS_SENTENCE_PUBX ->
  lo = 2 ->
  List.length (_term (cursor g)) = 15%nat ->
  Forall (fun c => is_ordinary c = true) tag ->
  classify (term_of tag) = _GPS_SENTENCE_PUBX ->
  Forall (fun c => is_ordinary c = true) id ->
  uint pf (gpsatol (term_of id)) = ubx ->
  Forall (fun c => is_ordinary c = true) f2 ->
  Forall (Forall (fun c => is_ordinary c = true)) fs ->
  Z.of_nat (List.length fs) < 29 ->
  is_ordinary h1 = true ->
  is_ordinary h2 = true ->
  is_eol eol ->
  let ok :=
    u8 (16 * from_hex pf h1 + from_hex pf h2)
    =? parity_of (joined tag (id :: f2 :: fs)) in
  match run_fields stage (millis now) 2 f2 fs (staged g, false, sats g)
  with
  | Ok a =>
      exists (vs : list bool) (g' : TinyGPS),
        feed pf
          (at_time now
             (ch "$" :: joined tag (id :: f2 :: fs)
                ++ ch "*" :: [h1; h2; eol]))
          g
        = Ok (vs ++ [ok && snd (fst a)], g')
        /\ Forall (fun v => v = false) vs
        /\ fix_state g'
           = (if ok then
                published ty ubx (snd (fst a)) (fst (fst a)) (fix_state g)
              else fix_state g)
        /\ staged g' = fst (fst a)
        /\ sats g' = snd a
        /\ List.length (_term (cursor g')) = 15%nat
        /\ _good_sentences (statistics g')
           = (if ok && snd (fst a)
              then u16 (_good_sentences (statistics g) + 1)
              else _good_sentences (statistics g))
        /\ _failed_checksum (statistics g')
           = (if ok then _failed_checksum (statistics g)
              else u16 (_failed_checksum (statistics g) + 1))
  | OutOfBounds i =>
      feed pf
        (at_time now
           (ch "$" :: joined tag (id :: f2 :: fs)
              ++ ch "*" :: [h1; h2; eol]))
        g
      = OutOfBounds i
  end.
Proof.
  intros Hty Hlo Hlen Htag Hclass Hid Hubx Hf2 Hfs Hcount Hh1 Hh2 Heol ok.
  assert (Hs : ch "$" :: joined tag (id :: f2 :: fs)
                 ++ ch "*" :: [h1; h2; eol]
               = (ch "$" :: tag ++ [ch ","])
                 ++ (id ++ [ch ","])
                 ++ (joined f2 fs ++ ch "*" :: [h1; h2; eol])).
  { rewrite !joined_cons. simpl. rewrite <- !app_assoc. reflexivity. }
  rewrite Hs. clear Hs.
  destruct (tag_step pf now tag g Htag Hlen)
    as (t0 & st0 & Hlen0 & [Hg0 Hf0] & Hfeed0).
  rewrite Hclass in Hfeed0.
  destruct (pubx_id_step pf now id (fix_state g) (staged g)
              (xor_fold 0 (tag ++ [ch ","])) t0
              (_UBX_message_type (cursor g)) false (sats g) st0 Hid Hlen0)
    as (t1 & st1 & Hlen1 & [Hg1 Hf1] & Hfeed1).
  rewrite Hubx in Hfeed1.
  assert (Hrun := fields_and_checksum now f2 fs h1 h2 eol 2 (fix_state g)
                    (staged g)
                    (xor_fold (xor_fold 0 (tag ++ [ch ","])) (id ++ [ch ","]))
                    t1 (sats g) st1 Hf2 Hfs Hlen1 ltac:(lia) ltac:(lia)
                    Hh1 Hh2 Heol).
  cbv zeta in Hrun.
  assert (Hpar : xor_fold
                   (xor_fold (xor_fold 0 (tag ++ [ch ","]))
                      (id ++ [ch ","]))
                   (joined f2 fs)
                 = parity_of (joined tag (id :: f2 :: fs))).
  { rewrite <- xor_fold_parity, !joined_cons, !xor_fold_app. reflexivity. }
  rewrite Hpar in Hrun. fold ok in Hrun.
  rewrite at_time_app, feed_app, Hfeed0. cbn [bind fst snd].
  rewrite at_time_app, feed_app.
  rewrite Hfeed1. cbn [bind fst snd]. rewrite <- Hty.
  destruct (run_fields stage (millis now) 2 f2 fs (staged g, false, sats g))
    as [a|i]; [|rewrite Hrun; reflexivity].
  destruct Hrun as (vs & t2 & st2 & k2 & Hlen2 & Hvs & Hgood2 & Hfail2
                    & Hfeed2).
  rewrite Hfeed2. cbn [bind fst snd].
  exists (repeat false (S (S (List.length tag)))
          ++ repeat false (S (List.length id)) ++ vs). eexists.
  split; [rewrite <- !app_assoc; reflexivity|].
  cbn [fix_state staged sats cursor statistics _term].
  split.
  { apply Forall_app. split; [|apply Forall_app; split; [|exact Hvs]];
      apply Forall_forall; intros v Hv; apply repeat_spec in Hv; exact Hv. }
  repeat split; try reflexivity; try assumption.
  - rewrite Hgood2, Hg1, Hg0. reflexivity.
  - rewrite Hfail2, Hf1, Hf0. reflexivity.
Qed.

End Sentence.

(** ** Populated sentences *)

Lemma field_of_present (stage : stager) (ms k : Z) (w : list Z)
      (acc : (Staging * bool * Sats)) :
  hd 0 w <> 0 ->
  field_of stage ms k (term_of w) acc = stage ms k (term_of w) acc.
Proof.
  intros H. unfold field_of. rewrite hd_term_of.
  apply Z.eqb_neq in H. rewrite H. reflexivity.
Qed.

Lemma field_of_idle (stage : stager) (ms k : Z) (term : list Z)
      (acc : (Staging * bool * Sats)) :
  stage ms k term acc = Ok acc -> field_of stage ms k term acc = Ok acc.
Proof.
  intros H. unfold field_of. destruct (hd 0 term =? 0); [reflexivity|exact H].
Qed.

(** Fields the stager does nothing on. *)
Lemma run_fields_idle (stage : stager) (ms : Z) (rest : list (list Z)) :
  forall (w : list Z) (k : Z) (acc : (Staging * bool * Sats)),
  (forall (k' : Z) (term : list Z), k <= k' -> stage ms k' term acc = Ok acc) ->
  run_fields stage ms k w rest acc = Ok acc.
Proof.
  induction rest as [|r rest IH]; intros w k acc Hidle; cbn [run_fields].
  - apply field_of_idle. apply Hidle. lia.
  - rewrite field_of_idle by (apply Hidle; lia). cbn [bind].
    apply IH. intros k' term Hk'. apply Hidle. lia.
Qed.

Lemma run_fields_last (stage : stager) (ms k : Z) (w : list Z)
      (rest : list (list Z)) (acc : (Staging * bool * Sats)) :
  (forall (acc' : (Staging * bool * Sats)) (k' : Z) (term : list Z),
     k < k' -> stage ms k' term acc' = Ok acc') ->
  run_fields stage ms k w rest acc = field_of stage ms k (term_of w) acc.
Proof.
  intros Hidle. destruct rest as [|r rest]; [reflexivity|].
  cbn [run_fields].
  destruct (field_of stage ms k (term_of w) acc) as [a|i]; [|reflexivity].
  cbn [bind]. apply run_fields_idle. intros k' term Hk'. apply Hidle. lia.
Qed.

Lemma position_stage_at (ms k0 : Z) (term : list Z) (n : Staging) :
  position_stage ms k0 k0 term n
  = set_new_time_fix ms (set_new_time (parse_decimal term) n)
  /\ position_stage ms k0 (k0 + 1) term n
     = set_new_position_fix ms
         (set_new_latitude (s32 (parse_degrees term)) n)
  /\ position_stage ms k0 (k0 + 2) term n
     = (if hd 0 term =? ch "S" then set_new_latitude (s32 (- _new_latitude n)) n
        else n)
  /\ position_stage ms k0 (k0 + 3) term n
     = set_new_longitude (s32 (parse_degrees term)) n
  /\ position_stage ms k0 (k0 + 4) term n
     = (if hd 0 term =? ch "W"
        then set_new_longitude (s32 (- _new_longitude n)) n
        else n).
Proof.
  unfold position_stage.
  repeat match goal with
         | |- context [?a =? ?b] =>
             first
               [ replace (a =? b) with true
                   by (symmetry; apply Z.eqb_eq; lia)
               | replace (a =? b) with false
                   by (symmetry; apply Z.eqb_neq; lia) ]
         end.
  repeat split; reflexivity.
Qed.

Lemma hemisphere_field (w : list Z) (letter : Z) (x : Z) :
  (if hd 0 (term_of w) =? 0 then x
   else if hd 0 (term_of w) =? letter then s32 (- x) else x)
  = hemisphere w letter x.
Proof. unfold hemisphere. rewrite hd_term_of. reflexivity. Qed.

(** The five fields time, latitude, N/S, longitude, E/W, the first of
    them being field [k0]. *)
Lemma run_position (stage : stager) (ms k0 : Z)
      (ft flat fns flon few f6 : list Z) (rest : list (list Z))
      (n : Staging) (good : bool) (s : Sats) :
  (forall (k : Z) (term : list Z) (n : Staging) (good : bool) (s : Sats),
     k0 <= k <= k0 + 4 ->
     stage ms k term (n, good, s)
     = Ok (position_stage ms k0 k term n, good, s)) ->
  hd 0 ft <> 0 -> hd 0 flat <> 0 -> hd 0 flon <> 0 ->
  run_fields stage ms k0 ft (flat :: fns :: flon :: few :: f6 :: rest)
    (n, good, s)
  = run_fields stage ms (k0 + 5) f6 rest
      (position_staged ms ft flat fns flon few n, good, s).
Proof.
  intros Hpos Ht Hlat Hlon.
  cbn [run_fields].
  replace (k0 + 1 + 1) with (k0 + 2) by lia.
  replace (k0 + 2 + 1) with (k0 + 3) by lia.
  replace (k0 + 3 + 1) with (k0 + 4) by lia.
  replace (k0 + 4 + 1) with (k0 + 5) by lia.
  rewrite (field_of_present stage ms k0 ft) by exact Ht.
  rewrite Hpos by lia. cbn [bind].
  rewrite (field_of_present stage ms (k0 + 1) flat) by exact Hlat.
  rewrite Hpos by lia. cbn [bind].
  unfold field_of at 1. rewrite Hpos by lia.
  destruct (position_stage_at ms k0 (term_of ft) n) as (-> & _).
  set (n1 := set_new_time_fix ms (set_new_time (parse_decimal (term_of ft)) n)).
  destruct (position_stage_at ms k0 (term_of flat) n1) as (_ & -> & _).
  set (n2 := set_new_position_fix ms
               (set_new_latitude (s32 (parse_degrees (term_of flat))) n1)).
  destruct (position_stage_at ms k0 (term_of fns) n2) as (_ & _ & -> & _).
  assert (E3 : (if hd 0 (term_of fns) =? 0 then Ok (n2, good, s)
                else Ok (if hd 0 (term_of fns) =? ch "S"
                         then set_new_latitude (s32 (- _new_latitude n2)) n2
                         else n2, good, s))
               = Ok (set_new_latitude
                       (hemisphere fns (ch "S") (_new_latitude n2)) n2,
                     good, s)).
  { rewrite <- hemisphere_field.
    destruct (hd 0 (term_of fns) =? 0); [destruct n2; reflexivity|].
    destruct (hd 0 (term_of fns) =? ch "S"); [reflexivity|].
    destruct n2; reflexivity. }
  rewrite E3. cbn [bind].
  set (n3 := set_new_latitude (hemisphere fns (ch "S") (_new_latitude n2)) n2).
  rewrite (field_of_present stage ms (k0 + 3) flon) by exact Hlon.
  rewrite Hpos by lia. cbn [bind].
  destruct (position_stage_at ms k0 (term_of flon) n3) as (_ & _ & _ & -> & _).
  set (n4 := set_new_longitude (s32 (parse_degrees (term_of flon))) n3).
  unfold field_of at 1. rewrite Hpos by lia.
  destruct (position_stage_at ms k0 (term_of few) n4) as (_ & _ & _ & _ & ->).
  assert (E5 : (if hd 0 (term_of few) =? 0 then Ok (n4, good, s)
                else Ok (if hd 0 (term_of few) =? ch "W"
                         then set_new_longitude (s32 (- _new_longitude n4)) n4
                         else n4, good, s))
               = Ok (set_new_longitude
                       (hemisphere few (ch "W") (_new_longitude n4)) n4,
                     good, s)).
  { rewrite <- hemisphere_field.
    destruct (hd 0 (term_of few) =? 0); [destruct n4; reflexivity|].
    destruct (hd 0 (term_of few) =? ch "W"); [reflexivity|].
    destruct n4; reflexivity. }
  rewrite E5. cbn [bind]. reflexivity.
Qed.

Lemma gga_stage_position (pf : platform) (ms k : Z) (term : list Z)
      (n : Staging) (good : bool) (s : Sats) :
  1 <= k <= 1 + 4 ->
  gga_stage pf ms k term (n, good, s)
  = Ok (position_stage ms 1 k term n, good, s).
Proof.
  intros Hk. unfold gga_stage.
  replace (k <=? 5) with true by (symmetry; apply Z.leb_le; lia).
  reflexivity.
Qed.

Lemma gga_stage_idle (pf : platform) (ms k : Z) (term : list Z)
      (acc : (Staging * bool * Sats)) :
  9 < k -> gga_stage pf ms k term acc = Ok acc.
Proof.
  intros Hk. unfold gga_stage. destruct acc as [[n good] s].
  replace (k <=? 5) with false by (symmetry; apply Z.leb_gt; lia).
  repeat match goal with
         | |- context [k =? ?i] =>
             replace (k =? i) with false by (symmetry; apply Z.eqb_neq; lia)
         end.
  reflexivity.
Qed.

(** A GGA sentence whose time, latitude, longitude, satellite count, hdop
    and altitude are present. *)
Lemma gga_run_populated (pf : platform) (ms : Z)
      (f1 f2 f3 f4 f5 f6 f7 f8 f9 : list Z) (rest : list (list Z))
      (n : Staging) (s : Sats) :
  hd 0 f1 <> 0 -> hd 0 f2 <> 0 -> hd 0 f4 <> 0 ->
  hd 0 f7 <> 0 -> hd 0 f8 <> 0 -> hd 0 f9 <> 0 ->
  run_fields (gga_stage pf) ms 1 f1
    (f2 :: f3 :: f4 :: f5 :: f6 :: f7 :: f8 :: f9 :: rest) (n, false, s)
  = Ok (set_new_altitude (s32 (parse_decimal (term_of f9)))
          (set_new_hdop (parse_decimal (term_of f8))
             (set_new_numsats (u8 (atoi pf (term_of f7)))
                (position_staged ms f1 f2 f3 f4 f5 n))),
        quality pf f6, s).
Proof.
  intros H1 H2 H4 H7 H8 H9.
  rewrite (run_position (gga_stage pf) ms 1)
    by (auto using gga_stage_position).
  change (1 + 5) with 6. cbn [run_fields].
  change (6 + 1) with 7. change (7 + 1) with 8. change (8 + 1) with 9.
  set (n5 := position_staged ms f1 f2 f3 f4 f5 n).
  assert (E6 : field_of (gga_stage pf) ms 6 (term_of f6) (n5, false, s)
               = Ok (n5, quality pf f6, s)).
  { unfold field_of, quality.
    cbn [gga_stage Z.leb Z.eqb Z.compare Pos.compare Pos.compare_cont
         Pos.eqb].
    rewrite !hd_term_of. destruct (hd 0 f6 =? 0); reflexivity. }
  rewrite E6. cbn [bind].
  rewrite (field_of_present (gga_stage pf) ms 7 f7) by exact H7.
  cbn [gga_stage Z.leb Z.eqb Z.compare Pos.compare Pos.compare_cont Pos.eqb
       bind].
  rewrite (field_of_present (gga_stage pf) ms 8 f8) by exact H8.
  cbn [gga_stage Z.leb Z.eqb Z.compare Pos.compare Pos.compare_cont Pos.eqb
       bind].
  rewrite (run_fields_last (gga_stage pf) ms 9)
    by (intros; apply gga_stage_idle; assumption).
  rewrite (field_of_present (gga_stage pf) ms 9 f9) by exact H9.
  reflexivity.
Qed.

Lemma position_staged_fields (ms : Z) (ft flat fns flon few : list Z)
      (n : Staging) :
  let p := position_staged ms ft flat fns flon few n in
  _new_time p = parse_decimal (term_of ft)
  /\ _new_time_fix p = ms
  /\ _new_latitude p
     = hemisphere fns (ch "S") (s32 (parse_degrees (term_of flat)))
  /\ _new_longitude p
     = hemisphere few (ch "W") (s32 (parse_degrees (term_of flon)))
  /\ _new_position_fix p = ms
  /\ _new_date p = _new_date n
  /\ _new_altitude p = _new_altitude n
  /\ _new_speed p = _new_speed n
  /\ _new_course p = _new_course n
  /\ _new_hdop p = _new_hdop n
  /\ _new_numsats p = _new_numsats n
  /\ _new_year p = _new_year n
  /\ _new_month p = _new_month n
  /\ _new_day p = _new_day n
  /\ _new_date_fix p = _new_date_fix n.
Proof.
  unfold position_staged.
  generalize (parse_decimal (term_of ft)) (parse_degrees (term_of flat))
    (parse_degrees (term_of flon)) (hemisphere fns (ch "S"))
    (hemisphere few (ch "W")).
  intros a b c ns ew. destruct n. cbv zeta.
  repeat split; reflexivity.
Qed.

Lemma published_gga (ubx : Z) (n : Staging) (f : Fix) :
  published _GPS_SENTENCE_GPGGA ubx true n f
  = mkFix (_new_time n) (_date f) (_new_latitude n) (_new_longitude n)
      (_new_altitude n) (_speed f) (_course f) (_new_hdop n) (_new_numsats n)
      (_new_time_fix n) (_new_position_fix n) (_year f) (_month f) (_day f)
      (_last_date_fix f).
Proof. destruct n, f. reflexivity. Qed.

(** A complete GGA sentence, received in any state of the parser. *)
Lemma gga_decoded (pf : platform) (now : Z) (g : TinyGPS) (tag f1 : list Z)
      (fs : list (list Z)) (h1 h2 eol : Z) :
  List.length (_term (cursor g)) = 15%nat ->
  Forall (fun c => is_ordinary c = true) tag ->
  classify (term_of tag) = _GPS_SENTENCE_GPGGA ->
  Forall (fun c => is_ordinary c = true) f1 ->
  Forall (Forall (fun c => is_ordinary c = true)) fs ->
  Z.of_nat (List.length fs) < 30 ->
  is_ordinary h1 = true ->
  is_ordinary h2 = true ->
  is_eol eol ->
  let ok :=
    u8 (16 * from_hex pf h1 + from_hex pf h2)
    =? parity_of (joined tag (f1 :: fs)) in
  match run_fields (gga_stage pf) (millis now) 1 f1 fs
          (staged g, false, sats g)
  with
  | Ok a =>
      exists (vs : list bool) (g' : TinyGPS),
        feed pf
          (at_time now
             (ch "$" :: joined tag (f1 :: fs) ++ ch "*" :: [h1; h2; eol]))
          g
        = Ok (vs ++ [ok && snd (fst a)], g')
        /\ Forall (fun v => v = false) vs
        /\ fix_state g'
           = (if ok then
                published _GPS_SENTENCE_GPGGA (_UBX_message_type (cursor g))
                  (snd (fst a)) (fst (fst a)) (fix_state g)
              else fix_state g)
        /\ staged g' = fst (fst a)
        /\ sats g' = snd a
        /\ List.length (_term (cursor g')) = 15%nat
        /\ _good_sentences (statistics g')
           = (if ok && snd (fst a)
              then u16 (_good_sentences (statistics g) + 1)
              else _good_sentences (statistics g))
        /\ _failed_checksum (statistics g')
           = (if ok then _failed_checksum (statistics g)
              else u16 (_failed_checksum (statistics g) + 1))
  | OutOfBounds i =>
      feed pf
        (at_time now
           (ch "$" :: joined tag (f1 :: fs) ++ ch "*" :: [h1; h2; eol]))
        g
      = OutOfBounds i
  end.
Proof.
  intros. apply (sentence_decoded pf _GPS_SENTENCE_GPGGA
                   (_UBX_message_type (cursor g)) 1 (gga_stage pf));
    auto; try lia; try discriminate.
  intros now0 g0 Hty _ Hk. apply dispatch_gga; assumption.
Qed.



(** ** Decimal texts as fields *)

Lemma digit_range (d : Z) : is_digit d -> 48 <= digit d <= 57.
Proof. unfold is_digit, digit. change (ch "0") with 48. lia. Qed.

Lemma digits_ordinary (ds : list Z) :
  Forall is_digit ds -> Forall (fun c => is_ordinary c = true) (digits ds).
Proof.
  intros H. unfold digits. apply Forall_map.
  eapply Forall_impl; [|exact H]. intros d Hd. apply digit_range in Hd.
  unfold is_ordinary, is_terminator.
  change (ch ",") with 44. change (ch "*") with 42. change (ch "$") with 36.
  change CR with 13. change LF with 10.
  replace (digit d =? 44) with false by (symmetry; apply Z.eqb_neq; lia).
  replace (digit d =? 13) with false by (symmetry; apply Z.eqb_neq; lia).
  replace (digit d =? 10) with false by (symmetry; apply Z.eqb_neq; lia).
  replace (digit d =? 42) with false by (symmetry; apply Z.eqb_neq; lia).
  replace (digit d =? 36) with false by (symmetry; apply Z.eqb_neq; lia).
  reflexivity.
Qed.

Lemma digits_nonzero (ds : list Z) :
  Forall is_digit ds -> Forall (fun c => c <> 0) (digits ds).
Proof.
  intros H. unfold digits. apply Forall_map.
  eapply Forall_impl; [|exact H]. intros d Hd. apply digit_range in Hd. lia.
Qed.

Lemma decimal_text_ordinary (ds fs : list Z) :
  Forall is_digit ds -> Forall is_digit fs ->
  Forall (fun c => is_ordinary c = true) (digits ds ++ ch "." :: digits fs).
Proof.
  intros Hds Hfs. apply Forall_app. split; [apply digits_ordinary; exact Hds|].
  constructor; [reflexivity|apply digits_ordinary; exact Hfs].
Qed.

Lemma decimal_text_nonzero (ds fs : list Z) :
  Forall is_digit ds -> Forall is_digit fs ->
  Forall (fun c => c <> 0) (digits ds ++ ch "." :: digits fs).
Proof.
  intros Hds Hfs. apply Forall_app. split; [apply digits_nonzero; exact Hds|].
  constructor; [discriminate|apply digits_nonzero; exact Hfs].
Qed.

Lemma cstr_nonzero (w : list Z) : Forall (fun c => c <> 0) w -> cstr w = w.
Proof.
  induction 1 as [|c w Hc _ IH]; cbn [cstr]; [reflexivity|].
  apply Z.eqb_neq in Hc. rewrite Hc, IH. reflexivity.
Qed.

Lemma term_of_fits (w : list Z) : fits w -> term_of w = w.
Proof.
  intros [Hlen Hnz]. unfold term_of. rewrite firstn_all2 by exact Hlen.
  apply cstr_nonzero. exact Hnz.
Qed.

Lemma hd_nonzero (w : list Z) :
  w <> [] -> Forall (fun c => c <> 0) w -> hd 0 w <> 0.
Proof. intros Hne H. destruct H; [contradiction|assumption]. Qed.

Lemma decimal_text_head (ds fs : list Z) :
  Forall is_digit ds -> Forall is_digit fs ->
  hd 0 (digits ds ++ ch "." :: digits fs) <> 0.
Proof.
  intros Hds Hfs. apply hd_nonzero; [|apply decimal_text_nonzero; assumption].
  destruct ds; discriminate.
Qed.

Lemma parse_degrees_text (ds fs : list Z) :
  Forall is_digit ds ->
  Forall is_digit fs ->
  decimal ds < 2 ^ 31 - 48 ->
  parse_degrees (digits ds ++ ch "." :: digits fs) = u32 (millionths ds fs).
Proof.
  intros Hds Hfs Hlt.
  rewrite <- (app_nil_r (digits fs)).
  apply parse_degrees_digits; auto.
Qed.

Lemma parse_decimal_text (ds fs : list Z) :
  Forall is_digit ds ->
  Forall is_digit fs ->
  decimal ds < 2 ^ 31 - 48 ->
  parse_decimal (digits ds ++ ch "." :: digits fs) = u32 (hundredths_of ds fs).
Proof.
  intros Hds Hfs Hlt.
  rewrite <- (app_nil_r (digits fs)).
  apply parse_decimal_unsigned; auto.
Qed.

(** ** What a populated RMC sentence hands to the accessors *)

Lemma rmc_published_fields (ms : Z) (f1 f3 f4 f5 f6 f7 f8 f9 : list Z)
      (n : Staging) (f : Fix) :
  let x := rmc_publish (rmc_staged ms f1 f3 f4 f5 f6 f7 f8 f9 n) true f in
  _time x = parse_decimal (term_of f1)
  /\ _date x = u32 (gpsatol (term_of f9))
  /\ _latitude x = hemisphere f4 (ch "S") (s32 (parse_degrees (term_of f3)))
  /\ _longitude x = hemisphere f6 (ch "W") (s32 (parse_degrees (term_of f5)))
  /\ _speed x = parse_decimal (term_of f7)
  /\ _course x = parse_decimal (term_of f8)
  /\ _last_time_fix x = ms
  /\ _last_position_fix x = ms
  /\ _altitude x = _altitude f
  /\ _hdop x = _hdop f
  /\ _numsats x = _numsats f
  /\ _year x = _year f
  /\ _month x = _month f
  /\ _day x = _day f
  /\ _last_date_fix x = _last_date_fix f.
Proof.
  unfold rmc_publish, rmc_staged, promote_fix_times, promote_clock.
  generalize (parse_decimal (term_of f1)) (parse_degrees (term_of f3))
    (parse_degrees (term_of f5)) (parse_decimal (term_of f7))
    (parse_decimal (term_of f8)) (gpsatol (term_of f9))
    (hemisphere f4 (ch "S")) (hemisphere f6 (ch "W")).
  intros a b c d e h ns ew. destruct n, f. cbv zeta.
  repeat split; reflexivity.
Qed.

Lemma hemisphere_signed (w : list Z) (letter x : Z) :
  letter <> 0 -> 0 <= x < 2 ^ 31 ->
  hemisphere w letter x = signed (hd 0 w =? letter) x.
Proof.
  intros Hl Hx. unfold hemisphere, signed.
  destruct (hd 0 w =? 0) eqn:E0.
  - apply Z.eqb_eq in E0. rewrite E0.
    replace (0 =? letter) with false by (symmetry; apply Z.eqb_neq; lia).
    reflexivity.
  - destruct (hd 0 w =? letter); [|reflexivity]. apply s32_small. lia.
Qed.

Lemma millionths_range (ds fs : list Z) :
  Forall is_digit ds -> Forall is_digit fs -> decimal ds < 214600 ->
  0 <= millionths ds fs < 2 ^ 31.
Proof.
  intros Hds Hfs Hlt.
  pose proof (decimal_nonneg ds Hds) as Hnn.
  pose proof (minute_fraction_range fs Hfs) as Hmf.
  unfold millionths.
  assert (Hq : 0 <= decimal ds / 100 <= 2145).
  { split; [apply Z.div_pos; lia|].
    apply Z.lt_succ_r. apply Z.div_lt_upper_bound; lia. }
  assert (Hm : 0 <= decimal ds mod 100 < 100) by (apply Z.mod_pos_bound; lia).
  assert (Hr : 0 <= (decimal ds mod 100 * 100000 + minute_fraction fs + 3) / 6
               <= 1666667).
  { split; [apply Z.div_pos; lia|].
    apply Z.lt_succ_r. apply Z.div_lt_upper_bound; lia. }
  lia.
Qed.

Lemma age_reported (now now' stamp : Z) :
  stamp = millis now ->
  (if stamp =? GPS_INVALID_FIX_TIME then GPS_INVALID_AGE
   else u32 (millis now' - stamp))
  = age_at now now'.
Proof.
  intros ->. unfold age_at. destruct (millis now =? GPS_INVALID_FIX_TIME);
    [reflexivity|].
  unfold millis, u32. rewrite <- Zminus_mod. reflexivity.
Qed.



(** ** Cracking the date and the time *)

Lemma two_digits (x : Z) : 0 <= x < 100 -> Forall is_digit (two x).
Proof.
  intros Hx. unfold two, is_digit.
  assert (0 <= x / 10 <= 9).
  { split; [apply Z.div_pos; lia|].
    apply Z.lt_succ_r. apply Z.div_lt_upper_bound; lia. }
  assert (0 <= x mod 10 < 10) by (apply Z.mod_pos_bound; lia).
  repeat constructor; lia.
Qed.

Lemma two_value (a x : Z) : 10 * (10 * a + x / 10) + x mod 10 = 100 * a + x.
Proof. pose proof (Z.div_mod x 10 ltac:(lia)). lia. Qed.

Lemma decimal_pairs (a b c : Z) :
  decimal (two a ++ two b ++ two c) = 10000 * a + 100 * b + c.
Proof.
  unfold decimal, two. cbn [app fold_left].
  rewrite !two_value. lia.
Qed.

Lemma cracked_time (hh mi ss cc : Z) :
  0 <= hh < 100 -> 0 <= mi < 100 -> 0 <= ss < 100 -> 0 <= cc < 100 ->
  let t := 1000000 * hh + 10000 * mi + 100 * ss + cc in
  u8 (t / 1000000) = hh
  /\ u8 ((t / 10000) mod 100) = mi
  /\ u8 ((t / 100) mod 100) = ss
  /\ u8 (t mod 100) = cc.
Proof.
  intros Hh Hm Hs Hc t.
  assert (E1 : t / 1000000 = hh)
    by (symmetry; apply (Z.div_unique t 1000000 hh
                           (10000 * mi + 100 * ss + cc)); subst t; lia).
  assert (E2 : t / 10000 = 100 * hh + mi)
    by (symmetry; apply (Z.div_unique t 10000 (100 * hh + mi)
                           (100 * ss + cc)); subst t; lia).
  assert (E3 : t / 100 = 10000 * hh + 100 * mi + ss)
    by (symmetry; apply (Z.div_unique t 100 (10000 * hh + 100 * mi + ss) cc);
        subst t; lia).
  assert (E4 : t mod 100 = cc)
    by (symmetry; apply (Z.mod_unique t 100 (10000 * hh + 100 * mi + ss) cc);
        subst t; lia).
  assert (E5 : (100 * hh + mi) mod 100 = mi)
    by (symmetry; apply (Z.mod_unique _ 100 hh mi); lia).
  assert (E6 : (10000 * hh + 100 * mi + ss) mod 100 = ss)
    by (symmetry; apply (Z.mod_unique _ 100 (100 * hh + mi) ss); lia).
  rewrite E1, E2, E3, E4, E5, E6. unfold u8.
  rewrite !Z.mod_small by lia. repeat split; reflexivity.
Qed.

Lemma cracked_date (dd mo yy : Z) :
  0 <= dd < 100 -> 0 <= mo < 100 -> 0 <= yy < 100 ->
  let d := 10000 * dd + 100 * mo + yy in
  d mod 100 = yy
  /\ u8 ((d / 100) mod 100) = mo
  /\ u8 (d / 10000) = dd.
Proof.
  intros Hd Hm Hy d.
  assert (E1 : d mod 100 = yy)
    by (symmetry; apply (Z.mod_unique d 100 (100 * dd + mo) yy); subst d; lia).
  assert (E2 : d / 100 = 100 * dd + mo)
    by (symmetry; apply (Z.div_unique d 100 (100 * dd + mo) yy); subst d; lia).
  assert (E3 : d / 10000 = dd)
    by (symmetry; apply (Z.div_unique d 10000 dd (100 * mo + yy));
        subst d; lia).
  assert (E4 : (100 * dd + mo) mod 100 = mo)
    by (symmetry; apply (Z.mod_unique _ 100 dd mo); lia).
  rewrite E1, E2, E3, E4. unfold u8.
  rewrite !Z.mod_small by lia. repeat split; reflexivity.
Qed.

Lemma sint_small (pf : platform) (x : Z) :
  - 2 ^ 15 <= x < 2 ^ 15 -> sint pf x = x.
Proof.
  intros Hx. unfold sint. destruct pf; cbn [int_bits];
    rewrite Z.mod_small; lia.
Qed.

(** The time text [hhmmss.cc] and the date text [ddmmyy]. *)
Lemma time_text_value (hh mi ss cc : Z) (more : list Z) :
  0 <= hh < 100 -> 0 <= mi < 100 -> 0 <= ss < 100 -> 0 <= cc < 100 ->
  Forall is_digit more ->
  parse_decimal
    (digits (two hh ++ two mi ++ two ss) ++ ch "." :: digits (two cc ++ more))
  = 1000000 * hh + 10000 * mi + 100 * ss + cc.
Proof.
  intros Hh Hm Hs Hc Hmore.
  rewrite parse_decimal_text.
  - unfold hundredths_of. rewrite decimal_pairs. unfold two at 1 2.
    cbn [app nth].
    pose proof (Z.div_mod cc 10 ltac:(lia)).
    rewrite u32_small; lia.
  - repeat (apply Forall_app; split); apply two_digits; assumption.
  - apply Forall_app. split; [apply two_digits; assumption|exact Hmore].
  - rewrite decimal_pairs. lia.
Qed.

Lemma date_text_value (dd mo yy : Z) :
  0 <= dd < 100 -> 0 <= mo < 100 -> 0 <= yy < 100 ->
  gpsatol (digits (two dd ++ two mo ++ two yy)) = 10000 * dd + 100 * mo + yy.
Proof.
  intros Hd Hm Hy.
  rewrite <- (app_nil_r (digits _)), gpsatol_digits.
  - apply decimal_pairs.
  - repeat (apply Forall_app; split); apply two_digits; assumption.
  - rewrite decimal_pairs. lia.
  - reflexivity.
Qed.

Lemma pairs_text_ordinary (a b c : Z) :
  0 <= a < 100 -> 0 <= b < 100 -> 0 <= c < 100 ->
  Forall is_digit (two a ++ two b ++ two c).
Proof.
  intros Ha Hb Hc.
  repeat (apply Forall_app; split); apply two_digits; assumption.
Qed.



(** [X12] Before any date and time have been published,
    [crack_datetime] decodes the sentinels: it reports the year 2000,
    month 0, day 0 and the time 198:96:72.95, with [GPS_INVALID_AGE].
    That holds from construction on while no call of [encode] has
    returned true and no RMC, PUBX-4 or ZDA sentence has passed its
    checksum. *)
Theorem crack_datetime_unset (pf : platform) (mem : TinyGPS)
        (input : list (Z * Z)) (now : Z) (g : TinyGPS) (vs : list bool) :
  feed pf input (TinyGPS_ctor mem) = Ok (vs, g) ->
  Forall (fun v => v = false) vs ->
  no_clock_commit pf input (TinyGPS_ctor mem) ->
  crack_datetime pf now g = mkDateTime 2000 0 0 198 96 72 95 GPS_INVALID_AGE.
Proof.
  intros Hf Hvs Hno.
  destruct (feed_unvalidated pf input _ _ _ Hf Hvs) as [_ Hall].
  unfold crack_datetime, get_datetime. rewrite (Hall Hno).
  destruct pf; reflexivity.
Qed.

(** [X12] on the known-good RMC sentence sent with a wrong checksum. *)
Lemma crack_datetime_unset_witness :
  crack_datetime ARM32 2000 (state_after ARM32 rmc_bad_checksum fresh)
  = mkDateTime 2000 0 0 198 96 72 95 GPS_INVALID_AGE.
Proof.
  apply (crack_datetime_unset ARM32 zeroed rmc_bad_checksum 2000
           (state_after ARM32 rmc_bad_checksum fresh)
           (returns_of ARM32 rmc_bad_checksum fresh)).
  - vm_compute. reflexivity.
  - vm_compute. repeat constructor.
  - vm_compute. intuition discriminate.
Defined.

(** ** The ZDA sentence and the date accessor *)

Lemma zda_stage_idle (ms k : Z) (term : list Z)
      (acc : Staging * bool * Sats) :
  4 < k -> zda_stage ms k term acc = Ok acc.
Proof.
  intros Hk. unfold zda_stage. destruct acc as [[n good] s].
  repeat match goal with
         | |- context [k =? ?i] =>
             replace (k =? i) with false by (symmetry; apply Z.eqb_neq; lia)
         end.
  reflexivity.
Qed.

(** A ZDA sentence whose time, day, month and year are present. *)
Lemma zda_run_populated (ms : Z) (f1 f2 f3 f4 : list Z)
      (rest : list (list Z)) (n : Staging) (s : Sats) :
  hd 0 f1 <> 0 -> hd 0 f2 <> 0 -> hd 0 f3 <> 0 -> hd 0 f4 <> 0 ->
  run_fields zda_stage ms 1 f1 (f2 :: f3 :: f4 :: rest) (n, false, s)
  = Ok (set_new_date_fix ms
          (set_new_year (u32 (gpsatol (term_of f4)))
             (set_new_date_fix ms
                (set_new_month (u32 (gpsatol (term_of f3)))
                   (set_new_date_fix ms
                      (set_new_day (u32 (gpsatol (term_of f2)))
                         (set_new_time_fix ms
                            (set_new_time (parse_decimal (term_of f1))
                               n))))))),
        false, s).
Proof.
  intros H1 H2 H3 H4. cbn [run_fields].
  change (1 + 1) with 2. change (2 + 1) with 3. change (3 + 1) with 4.
  rewrite (field_of_present zda_stage ms 1 f1) by exact H1.
  cbn [zda_stage Z.eqb Pos.eqb bind].
  rewrite (field_of_present zda_stage ms 2 f2) by exact H2.
  cbn [zda_stage Z.eqb Pos.eqb bind].
  rewrite (field_of_present zda_stage ms 3 f3) by exact H3.
  cbn [zda_stage Z.eqb Pos.eqb bind].
  rewrite (run_fields_last zda_stage ms 4)
    by (intros; apply zda_stage_idle; assumption).
  rewrite (field_of_present zda_stage ms 4 f4) by exact H4.
  reflexivity.
Qed.

Lemma zda_published_fields (ubx ms : Z) (a b c d : Z) (n : Staging)
      (f : Fix) :
  let x :=
    published _GPS_SENTENCE_GPZDA ubx false
      (set_new_date_fix ms
         (set_new_year d
            (set_new_date_fix ms
               (set_new_month c
                  (set_new_date_fix ms
                     (set_new_day b
                        (set_new_time_fix ms (set_new_time a n)))))))) f in
  _time x = a /\ _day x = b /\ _month x = c /\ _year x = d
  /\ _last_time_fix x = ms /\ _last_date_fix x = ms
  /\ _date x = _date f
  /\ position_part x = position_part f.
Proof.
  destruct n, f. cbv zeta. repeat split; reflexivity.
Qed.

Lemma four_digits (y : Z) : 0 <= y < 10000 -> Forall is_digit (four y).
Proof.
  intros Hy. unfold four, is_digit.
  repeat constructor; Z.div_mod_to_equations; lia.
Qed.

Lemma decimal_two (x : Z) : decimal (two x) = x.
Proof.
  unfold decimal, two. cbn [fold_left]. Z.div_mod_to_equations. lia.
Qed.

Lemma decimal_four (y : Z) : decimal (four y) = y.
Proof.
  unfold decimal, four. cbn [fold_left]. Z.div_mod_to_equations. lia.
Qed.

Lemma number_text_value (ds : list Z) :
  Forall is_digit ds -> decimal ds < 2 ^ 31 - 48 ->
  gpsatol (digits ds) = decimal ds.
Proof.
  intros Hds Hlt. rewrite <- (app_nil_r (digits ds)).
  apply gpsatol_digits; auto.
Qed.

Lemma number_text_fits (ds : list Z) :
  Forall is_digit ds -> (List.length ds <= 14)%nat -> fits (digits ds).
Proof.
  intros Hds Hlen. split; [|apply digits_nonzero; exact Hds].
  unfold digits. rewrite length_map. exact Hlen.
Qed.



(** ** The PUBX sentences *)

Lemma pubx00_stage_position (pf : platform) (ms k : Z) (term : list Z)
      (n : Staging) (good : bool) (s : Sats) :
  2 <= k <= 2 + 4 ->
  pubx00_stage pf ms k term (n, good, s)
  = Ok (position_stage ms 2 k term n, good, s).
Proof.
  intros Hk. unfold pubx00_stage.
  replace (k <=? 6) with true by (symmetry; apply Z.leb_le; lia).
  reflexivity.
Qed.

Lemma pubx00_stage_idle (pf : platform) (ms k : Z) (term : list Z)
      (acc : Staging * bool * Sats) :
  18 < k -> pubx00_stage pf ms k term acc = Ok acc.
Proof.
  intros Hk. unfold pubx00_stage. destruct acc as [[n good] s].
  replace (k <=? 6) with false by (symmetry; apply Z.leb_gt; lia).
  repeat match goal with
         | |- context [k =? ?i] =>
             replace (k =? i) with false by (symmetry; apply Z.eqb_neq; lia)
         end.
  reflexivity.
Qed.

Lemma pubx00_field_unused (pf : platform) (ms k : Z) (w : list Z)
      (acc : Staging * bool * Sats) :
  In k [9; 10; 13; 14; 16; 17] ->
  field_of (pubx00_stage pf) ms k (term_of w) acc = Ok acc.
Proof.
  intros Hk. apply field_of_idle. destruct acc as [[n good] s].
  cbn [In] in Hk.
  repeat (destruct Hk as [<-|Hk]; [reflexivity|]). contradiction.
Qed.

(** A PUBX,00 sentence whose time, latitude, longitude, altitude, speed,
    course, hdop and satellite count are present. *)
Lemma pubx00_run_populated (pf : platform) (ms : Z)
      (f2 f3 f4 f5 f6 f7 f8 f9 f10 f11 f12 f13 f14 f15 f16 f17 f18 : list Z)
      (rest : list (list Z)) (n : Staging) (s : Sats) :
  hd 0 f2 <> 0 -> hd 0 f3 <> 0 -> hd 0 f5 <> 0 -> hd 0 f7 <> 0 ->
  hd 0 f11 <> 0 -> hd 0 f12 <> 0 -> hd 0 f15 <> 0 -> hd 0 f18 <> 0 ->
  run_fields (pubx00_stage pf) ms 2 f2
    (f3 :: f4 :: f5 :: f6 :: f7 :: f8 :: f9 :: f10 :: f11 :: f12 :: f13
     :: f14 :: f15 :: f16 :: f17 :: f18 :: rest) (n, false, s)
  = Ok (set_new_numsats (u8 (atoi pf (term_of f18)))
          (set_new_hdop (parse_decimal (term_of f15))
             (set_new_course (parse_decimal (term_of f12))
                (set_new_speed (parse_decimal (term_of f11))
                   (set_new_altitude (s32 (parse_decimal (term_of f7)))
                      (position_staged ms f2 f3 f4 f5 f6 n))))),
        navstat f8, s).
Proof.
  intros H2 H3 H5 H7 H11 H12 H15 H18.
  rewrite (run_position (pubx00_stage pf) ms 2)
    by (auto using pubx00_stage_position).
  change (2 + 5) with 7. cbn [run_fields].
  change (7 + 1) with 8. change (8 + 1) with 9. change (9 + 1) with 10.
  change (10 + 1) with 11. change (11 + 1) with 12. change (12 + 1) with 13.
  change (13 + 1) with 14. change (14 + 1) with 15. change (15 + 1) with 16.
  change (16 + 1) with 17. change (17 + 1) with 18.
  set (n6 := position_staged ms f2 f3 f4 f5 f6 n).
  rewrite (field_of_present (pubx00_stage pf) ms 7 f7) by exact H7.
  cbn [pubx00_stage Z.leb Z.eqb Z.compare Pos.compare Pos.compare_cont
       Pos.eqb bind].
  set (n7 := set_new_altitude (s32 (parse_decimal (term_of f7))) n6).
  assert (E8 : field_of (pubx00_stage pf) ms 8 (term_of f8) (n7, false, s)
               = Ok (n7, navstat f8, s)).
  { unfold field_of, navstat.
    cbn [pubx00_stage Z.leb Z.eqb Z.compare Pos.compare Pos.compare_cont
         Pos.eqb].
    rewrite !hd_term_of. destruct (hd 0 f8 =? 0); reflexivity. }
  rewrite E8. cbn [bind].
  rewrite pubx00_field_unused by (cbn [In]; auto 10). cbn [bind].
  rewrite pubx00_field_unused by (cbn [In]; auto 10). cbn [bind].
  rewrite (field_of_present (pubx00_stage pf) ms 11 f11) by exact H11.
  cbn [pubx00_stage Z.leb Z.eqb Z.compare Pos.compare Pos.compare_cont
       Pos.eqb bind].
  rewrite (field_of_present (pubx00_stage pf) ms 12 f12) by exact H12.
  cbn [pubx00_stage Z.leb Z.eqb Z.compare Pos.compare Pos.compare_cont
       Pos.eqb bind].
  rewrite pubx00_field_unused by (cbn [In]; auto 10). cbn [bind].
  rewrite pubx00_field_unused by (cbn [In]; auto 10). cbn [bind].
  rewrite (field_of_present (pubx00_stage pf) ms 15 f15) by exact H15.
  cbn [pubx00_stage Z.leb Z.eqb Z.compare Pos.compare Pos.compare_cont
       Pos.eqb bind].
  rewrite pubx00_field_unused by (cbn [In]; auto 10). cbn [bind].
  rewrite pubx00_field_unused by (cbn [In]; auto 10). cbn [bind].
  rewrite (run_fields_last (pubx00_stage pf) ms 18)
    by (intros; apply pubx00_stage_idle; assumption).
  rewrite (field_of_present (pubx00_stage pf) ms 18 f18) by exact H18.
  reflexivity.
Qed.

Lemma published_pubx00 (n : Staging) (f : Fix) :
  published _GPS_SENTENCE_PUBX 0 true n f
  = mkFix (_new_time n) (_date f) (_new_latitude n) (_new_longitude n)
      (_new_altitude n) (_new_speed n) (_new_course n) (_new_hdop n)
      (_new_numsats n) (_new_time_fix n) (_new_position_fix n) (_year f)
      (_month f) (_day f) (_last_date_fix f).
Proof. destruct n, f. reflexivity. Qed.



Lemma pubx04_stage_idle (ms k : Z) (term : list Z)
      (acc : Staging * bool * Sats) :
  3 < k -> pubx04_stage ms k term acc = Ok acc.
Proof.
  intros Hk. unfold pubx04_stage. destruct acc as [[n good] s].
  repeat match goal with
         | |- context [k =? ?i] =>
             replace (k =? i) with false by (symmetry; apply Z.eqb_neq; lia)
         end.
  reflexivity.
Qed.

Lemma pubx04_run_populated (ms : Z) (f2 f3 : list Z) (rest : list (list Z))
      (n : Staging) (s : Sats) :
  hd 0 f2 <> 0 -> hd 0 f3 <> 0 ->
  run_fields pubx04_stage ms 2 f2 (f3 :: rest) (n, false, s)
  = Ok (set_new_date (u32 (gpsatol (term_of f3)))
          (set_new_time_fix ms (set_new_time (parse_decimal (term_of f2)) n)),
        false, s).
Proof.
  intros H2 H3. cbn [run_fields]. change (2 + 1) with 3.
  rewrite (field_of_present pubx04_stage ms 2 f2) by exact H2.
  cbn [pubx04_stage Z.eqb Pos.eqb bind].
  rewrite (run_fields_last pubx04_stage ms 3)
    by (intros; apply pubx04_stage_idle; assumption).
  rewrite (field_of_present pubx04_stage ms 3 f3) by exact H3.
  reflexivity.
Qed.

Lemma pubx04_published_fields (ms a d : Z) (n : Staging) (f : Fix) :
  let x :=
    published _GPS_SENTENCE_PUBX 4 false
      (set_new_date d (set_new_time_fix ms (set_new_time a n))) f in
  _time x = a /\ _date x = d /\ _last_time_fix x = ms
  /\ position_part x = position_part f.
Proof.
  destruct n, f. cbv zeta. repeat split; reflexivity.
Qed.



(** ** Sentences without a validity field *)

Lemma dispatch_other (pf : platform) (now : Z) (g : TinyGPS) :
  _sentence_type (cursor g) = _GPS_SENTENCE_OTHER ->
  1 <= _term_number (cursor g) < 32 ->
  dispatch pf now g
  = (a <- gsa_stage (millis now) (_term_number (cursor g))
            (cstr (_term (cursor g)))
            (staged g, _gps_data_good (cursor g), sats g) ;;
     Ok (restaged g a)).
Proof.
  destruct g as [f n [par ck t ty ubx k off good] s st].
  cbn [cursor staged sats _term _sentence_type _term_number _gps_data_good].
  intros -> Hk. unfold dispatch. cbv zeta.
  cbn [cursor staged sats _term _sentence_type _term_number _gps_data_good].
  unfold gsa_stage, restaged.
  field_number k; destruct pf; reflexivity.
Qed.

Lemma dispatch_unvalidated (pf : platform) (ty : sentence) (now : Z)
      (g : TinyGPS) :
  unvalidated ty ->
  _sentence_type (cursor g) = ty ->
  1 <= _term_number (cursor g) < 32 ->
  dispatch pf now g
  = (a <- unvalidated_stage pf ty (millis now) (_term_number (cursor g))
            (cstr (_term (cursor g)))
            (staged g, _gps_data_good (cursor g), sats g) ;;
     Ok (restaged g a)).
Proof.
  intros [->|[->|[->|[->| ->]]]] Hty Hk; cbn [unvalidated_stage].
  - apply dispatch_gns; assumption.
  - apply dispatch_gsa; assumption.
  - rewrite <- Hty. apply dispatch_gsv; [left; exact Hty|exact Hk].
  - rewrite <- Hty. apply dispatch_gsv; [right; exact Hty|exact Hk].
  - apply dispatch_other; assumption.
Qed.

Lemma gns_keeps_flag (pf : platform) : keeps_flag (gns_stage pf).
Proof.
  intros ms k term n good s a. unfold gns_stage.
  destruct (k <=? 5); [intros H; injection H as <-; reflexivity|].
  destruct (k =? 6); [intros H; injection H as <-; reflexivity|].
  destruct (k =? 7); intros H; injection H as <-; reflexivity.
Qed.

Lemma gsa_keeps_flag : keeps_flag gsa_stage.
Proof.
  intros ms k term n good s a. unfold gsa_stage.
  intros H; injection H as <-; reflexivity.
Qed.

Lemma gsv_keeps_flag (pf : platform) (ty : sentence) :
  keeps_flag (gsv_stage pf ty).
Proof.
  intros ms k term n good s a. unfold gsv_stage.
  destruct (k =? 2); [intros H; injection H as <-; reflexivity|].
  destruct ((k =? 4) || (k =? 8) || (k =? 12) || (k =? 16));
    [intros H; injection H as <-; reflexivity|].
  destruct ((k =? 7) || (k =? 11) || (k =? 15) || (k =? 19)).
  - destruct (store_slot _ _ _); cbn [bind]; [|discriminate].
    intros H; injection H as <-; reflexivity.
  - intros H; injection H as <-; reflexivity.
Qed.

Lemma unvalidated_keeps_flag (pf : platform) (ty : sentence) :
  keeps_flag (unvalidated_stage pf ty).
Proof.
  destruct ty; cbn [unvalidated_stage];
    auto using gns_keeps_flag, gsa_keeps_flag, gsv_keeps_flag.
Qed.

Lemma field_of_flag (stage : stager) (ms k : Z) (term : list Z)
      (n : Staging) (good : bool) (s : Sats) (a : Staging * bool * Sats) :
  keeps_flag stage ->
  field_of stage ms k term (n, good, s) = Ok a -> snd (fst a) = good.
Proof.
  intros Hkeep. unfold field_of. destruct (hd 0 term =? 0).
  - intros H; injection H as <-; reflexivity.
  - apply Hkeep.
Qed.

Lemma run_fields_flag (stage : stager) (ms : Z) (fs : list (list Z)) :
  keeps_flag stage ->
  forall (w : list Z) (k : Z) (n : Staging) (good : bool) (s : Sats)
         (a : Staging * bool * Sats),
  run_fields stage ms k w fs (n, good, s) = Ok a -> snd (fst a) = good.
Proof.
  intros Hkeep. induction fs as [|f fs IH]; intros w k n good s a;
    cbn [run_fields].
  - apply field_of_flag. exact Hkeep.
  - destruct (field_of stage ms k (term_of w) (n, good, s))
      as [[[n1 good1] s1]|i] eqn:E; cbn [bind]; [|discriminate].
    apply (field_of_flag _ _ _ _ _ _ _ _ Hkeep) in E. cbn [fst snd] in E.
    subst good1. apply IH.
Qed.

Lemma published_unvalidated (ty : sentence) (ubx : Z) (n : Staging)
      (f : Fix) :
  unvalidated ty -> published ty ubx false n f = f.
Proof.
  intros [->|[->|[->|[->| ->]]]]; destruct f; reflexivity.
Qed.



(** ** The constellations of a GNS sentence *)

Lemma cstr_clean (l : list Z) : Forall (fun c => c <> 0) (cstr l).
Proof.
  induction l as [|c l IH]; cbn [cstr]; [constructor|].
  destruct (c =? 0) eqn:E; [constructor|].
  constructor; [apply Z.eqb_neq; exact E|exact IH].
Qed.

Lemma Forall_prefix {A : Type} (P : A -> Prop) (n : nat) (l : list A) :
  Forall P l -> Forall P (firstn n l).
Proof.
  intros H. revert n. induction H as [|x l Hx _ IH]; intros [|n];
    cbn [firstn]; constructor; auto.
Qed.

Lemma firstn_zeros (k n : nat) :
  exists m : nat, firstn k (repeat 0 n) = repeat 0 m.
Proof.
  revert n. induction k as [|k IH]; intros n; [exists 0%nat; reflexivity|].
  destruct n as [|n]; [exists 0%nat; reflexivity|].
  destruct (IH n) as [m Hm]. exists (S m). cbn [repeat firstn].
  rewrite Hm. reflexivity.
Qed.

Lemma cstr_firstn_padded (n : nat) (t : list Z) :
  Forall (fun c => c <> 0) t ->
  cstr (firstn n (t ++ repeat 0 n) ++ [0]) = firstn n t.
Proof.
  intros Ht. rewrite firstn_app.
  destruct (firstn_zeros (n - List.length t) n) as [m ->].
  rewrite <- app_assoc.
  assert (Hz : exists r : list Z, repeat 0 m ++ [0] = 0 :: r)
    by (destruct m; eexists; reflexivity).
  destruct Hz as [r ->]. rewrite cstr_app_nul.
  apply cstr_nonzero. apply Forall_prefix. exact Ht.
Qed.

Lemma gns_field_sats (pf : platform) (ms k : Z) (term : list Z)
      (n : Staging) (good : bool) (s : Sats) :
  k <> 6 ->
  exists n' : Staging,
    field_of (gns_stage pf) ms k term (n, good, s) = Ok (n', good, s).
Proof.
  intros Hk. unfold field_of, gns_stage.
  destruct (hd 0 term =? 0); [exists n; reflexivity|].
  destruct (k <=? 5); [eexists; reflexivity|].
  replace (k =? 6) with false by (symmetry; apply Z.eqb_neq; exact Hk).
  destruct (k =? 7); eexists; reflexivity.
Qed.

Lemma gns_run_sats_late (pf : platform) (ms : Z) (rest : list (list Z)) :
  forall (w : list Z) (k : Z) (n : Staging) (good : bool) (s : Sats),
  7 <= k ->
  exists n' : Staging,
    run_fields (gns_stage pf) ms k w rest (n, good, s) = Ok (n', good, s).
Proof.
  induction rest as [|r rest IH]; intros w k n good s Hk; cbn [run_fields].
  - apply gns_field_sats. lia.
  - destruct (gns_field_sats pf ms k (term_of w) n good s ltac:(lia))
      as [n1 ->].
    cbn [bind]. apply IH. lia.
Qed.

Lemma gns_run_sats (pf : platform) (ms : Z) (f1 f2 f3 f4 f5 f6 : list Z)
      (rest : list (list Z)) (n : Staging) (good : bool) (s : Sats) :
  hd 0 f6 <> 0 ->
  exists n' : Staging,
    run_fields (gns_stage pf) ms 1 f1 (f2 :: f3 :: f4 :: f5 :: f6 :: rest)
      (n, good, s)
    = Ok (n', good, set_constellations (copy_constellations (term_of f6)) s).
Proof.
  intros H6. cbn [run_fields].
  change (1 + 1) with 2. change (2 + 1) with 3. change (3 + 1) with 4.
  change (4 + 1) with 5. change (5 + 1) with 6.
  destruct (gns_field_sats pf ms 1 (term_of f1) n good s ltac:(lia))
    as [n1 ->]. cbn [bind].
  destruct (gns_field_sats pf ms 2 (term_of f2) n1 good s ltac:(lia))
    as [n2 ->]. cbn [bind].
  destruct (gns_field_sats pf ms 3 (term_of f3) n2 good s ltac:(lia))
    as [n3 ->]. cbn [bind].
  destruct (gns_field_sats pf ms 4 (term_of f4) n3 good s ltac:(lia))
    as [n4 ->]. cbn [bind].
  destruct (gns_field_sats pf ms 5 (term_of f5) n4 good s ltac:(lia))
    as [n5 ->]. cbn [bind].
  destruct rest as [|r rest]; cbn [run_fields].
  - rewrite (field_of_present (gns_stage pf) ms 6 f6) by exact H6.
    exists n5. reflexivity.
  - rewrite (field_of_present (gns_stage pf) ms 6 f6) by exact H6.
    cbn [gns_stage Z.leb Z.eqb Z.compare Pos.compare Pos.compare_cont
         Pos.eqb bind].
    apply gns_run_sats_late. lia.
Qed.



(** ** The counters *)

Lemma encode_good_count (pf : platform) (now c : Z) (g g' : TinyGPS)
      (v : bool) :
  encode pf now c g = Ok (v, g') ->
  _good_sentences (statistics g')
  = (if v then u16 (_good_sentences (statistics g) + 1)
     else _good_sentences (statistics g)).
Proof.
  intros He. destruct (is_terminator c) eqn:Ht.
  - destruct (Z.ltb_spec (_term_offset (cursor g)) 15) as [Hlt|Hge].
    + destruct (_is_checksum_term (cursor g)) eqn:Hck.
      * rewrite encode_checksum_term in He by assumption.
        injection He as <- <-. unfold advance, commit.
        cbn [set_cursor statistics].
        change (_gps_data_good (cursor (closed c g)))
          with (_gps_data_good (cursor g)).
        change (_good_sentences (statistics (closed c g)))
          with (_good_sentences (statistics g)).
        destruct (checksum pf _ =? _); [|reflexivity].
        destruct (_gps_data_good (cursor g)); reflexivity.
      * rewrite encode_terminator in He by assumption.
        destruct (term_complete pf now (closed c g)) as [[v1 g1]|i] eqn:Htc;
          simpl in He; [|discriminate].
        injection He as <- <-.
        apply term_complete_plain in Htc; [|exact Hck].
        destruct Htc as (-> & _ & Hst & _).
        unfold advance; simpl. rewrite Hst. reflexivity.
    + unfold encode in He. rewrite Ht in He.
      apply Z.ltb_ge in Hge.
      destruct (c =? ch ","); simpl in He; rewrite Hge in He;
        simpl in He; injection He as <- <-; reflexivity.
  - destruct (c =? ch "$") eqn:Hd.
    + apply Z.eqb_eq in Hd. subst c. rewrite encode_start in He.
      injection He as <- <-. reflexivity.
    + rewrite encode_ordinary in He
        by (unfold is_ordinary; rewrite Ht, Hd; reflexivity).
      injection He as <- <-. reflexivity.
Qed.

Lemma feed_good_count (pf : platform) (input : list (Z * Z)) :
  forall (g g' : TinyGPS) (vs : list bool) (e : Z),
  feed pf input g = Ok (vs, g') ->
  _good_sentences (statistics g) = u16 e ->
  _good_sentences (statistics g') = u16 (e + count_true vs).
Proof.
  induction input as [|[now c] input IH]; intros g g' vs e Hf He.
  - simpl in Hf. injection Hf as <- <-. rewrite He.
    unfold count_true. simpl. rewrite Z.add_0_r. reflexivity.
  - simpl in Hf.
    destruct (encode pf now c g) as [[v g1]|i] eqn:Henc; simpl in Hf;
      [|discriminate].
    destruct (feed pf input g1) as [[vs1 g2]|i] eqn:Hf1; simpl in Hf;
      [|discriminate].
    injection Hf as <- <-.
    apply encode_good_count in Henc.
    destruct v.
    + rewrite (IH _ _ _ (e + 1) Hf1).
      * f_equal. unfold count_true. cbn [filter List.length]. lia.
      * rewrite Henc, He. unfold u16. rewrite Zplus_mod_idemp_l.
        reflexivity.
    + rewrite (IH _ _ _ e Hf1).
      * f_equal.
      * rewrite Henc, He. reflexivity.
Qed.

(** [X8] The statistics of a freshly constructed parser count what the
    calls did: the character counter is the number of calls of [encode]
    and the good-sentence counter is the number of calls that returned
    true, both reduced to the width of their type. *)
Theorem stats_count_calls (pf : platform) (mem : TinyGPS)
        (input : list (Z * Z)) (vs : list bool) (g : TinyGPS) :
  feed pf input (TinyGPS_ctor mem) = Ok (vs, g) ->
  fst (fst (stats g)) = u32 (Z.of_nat (List.length input))
  /\ snd (fst (stats g)) = u16 (count_true vs).
Proof.
  intros Hf. unfold stats. cbn [fst snd].
  rewrite (feed_counts pf input _ _ _ 0 Hf eq_refl).
  rewrite (feed_good_count pf input _ _ _ 0 Hf eq_refl).
  split; reflexivity.
Qed.

(** [X8] on the capture that holds one complete sentence in its second
    pass. *)
Lemma stats_count_calls_witness :
  fst (fst (stats (state_after ARM32 (at_time 1000 (rotated ++ rotated))
                     fresh))) = 144
  /\ snd (fst (stats (state_after ARM32 (at_time 1000 (rotated ++ rotated))
                        fresh))) = 1.
Proof.
  apply (stats_count_calls ARM32 zeroed (at_time 1000 (rotated ++ rotated))
           (returns_of ARM32 (at_time 1000 (rotated ++ rotated)) fresh)).
  vm_compute. reflexivity.
Defined.

(** ** The write offset of the field buffer *)

Lemma encode_ready (pf : platform) (now c : Z) (g g' : TinyGPS) (v : bool) :
  ready g -> encode pf now c g = Ok (v, g') -> ready g'.
Proof.
  intros [Hoff Hlen] He. destruct (is_terminator c) eqn:Ht.
  - destruct (_is_checksum_term (cursor g)) eqn:Hck.
    + rewrite encode_checksum_term in He by (assumption || lia).
      injection He as _ <-. unfold ready, advance, commit.
      destruct (checksum pf _ =? _); [destruct (_gps_data_good _)|];
        cbn [fst snd set_cursor cursor set_is_checksum_term set_term_offset
             set_term_number set_fix_state set_statistics _term_offset _term];
        (split; [lia|]);
        destruct (closed_plain c g) as (_ & _ & _ & Hl & _);
        rewrite Hl; exact Hlen.
    + apply encode_terminator_plain in He; auto; [|split; assumption].
      destruct He as (_ & _ & _ & _ & Hoff' & Hlen' & _).
      split; [lia|exact Hlen'].
  - destruct (c =? ch "$") eqn:Hd.
    + apply Z.eqb_eq in Hd. subst c. rewrite encode_start in He.
      injection He as _ <-. split; [simpl; lia|exact Hlen].
    + rewrite encode_ordinary in He
        by (unfold is_ordinary; rewrite Ht, Hd; reflexivity).
      injection He as _ <-.
      destruct (ordinary_step_shape c g (Z.to_nat (_term_offset (cursor g))))
        as [Hoff' Hlen']; [lia|lia|].
      unfold ready. rewrite Hoff', Hlen'. split; [|exact Hlen].
      destruct (Z.to_nat (_term_offset (cursor g)) <? 14)%nat eqn:E;
        [apply Nat.ltb_lt in E|apply Nat.ltb_ge in E]; lia.
Qed.

Lemma feed_ready (pf : platform) (input : list (Z * Z)) :
  forall (g g' : TinyGPS) (vs : list bool),
  ready g -> feed pf input g = Ok (vs, g') -> ready g'.
Proof.
  induction input as [|[now c] input IH]; intros g g' vs Hr Hf.
  - simpl in Hf. injection Hf as _ <-. exact Hr.
  - simpl in Hf.
    destruct (encode pf now c g) as [[v g1]|i] eqn:He; simpl in Hf;
      [|discriminate].
    destruct (feed pf input g1) as [[vs1 g2]|i] eqn:Hf1; simpl in Hf;
      [|discriminate].
    injection Hf as _ <-.
    eapply IH; [|exact Hf1]. eapply encode_ready; eassumption.
Qed.

(** [X9] Whatever is fed to a constructed parser, the write offset of the
    field buffer stays between 0 and 14: the characters and the
    terminating NUL are stored inside the 15-byte buffer, and the guard in
    front of [term_complete] never skips a field. *)
Theorem term_offset_bounded (pf : platform) (mem : TinyGPS)
        (input : list (Z * Z)) (vs : list bool) (g : TinyGPS) :
  well_formed mem ->
  feed pf input (TinyGPS_ctor mem) = Ok (vs, g) ->
  0 <= _term_offset (cursor g) <= 14
  /\ List.length (_term (cursor g)) = 15%nat
  /\ (forall now c : Z,
        is_terminator c = true ->
        encode pf now c g
        = (r <- term_complete pf now (closed c g) ;;
           Ok (fst r, advance c (snd r)))).
Proof.
  intros Hwf Hf.
  assert (Hr : ready (TinyGPS_ctor mem)).
  { split; [simpl; lia|]. exact (proj1 (well_formed_ctor mem Hwf)). }
  destruct (feed_ready pf input _ _ _ Hr Hf) as [Hoff Hlen].
  split; [exact Hoff|]. split; [exact Hlen|].
  intros now c Hc. apply encode_terminator; [exact Hc|lia].
Qed.

(** [X9] on a field of 18 characters. *)
Lemma term_offset_bounded_witness :
  0 <= _term_offset (cursor (state_after ARM32 long_field fresh)) <= 14
  /\ List.length (_term (cursor (state_after ARM32 long_field fresh)))
     = 15%nat.
Proof.
  destruct (term_offset_bounded ARM32 zeroed long_field
              (returns_of ARM32 long_field fresh)
              (state_after ARM32 long_field fresh))
    as (Hoff & Hlen & _).
  - split; reflexivity.
  - vm_compute. reflexivity.
  - split; [exact Hoff|exact Hlen].
Defined.

(** ** Field numbers beyond 31 *)

Lemma dispatch_gga_beyond (pf : platform) (now : Z) (g : TinyGPS) :
  _sentence_type (cursor g) = _GPS_SENTENCE_GPGGA ->
  32 <= _term_number (cursor g) < 64 ->
  dispatch pf now g
  = let k := _term_number (cursor g) - 32 in
    let term := cstr (_term (cursor g)) in
    Ok (mkTinyGPS (fix_state g)
          (rmc_stage (millis now) k term (staged g))
          (set_gps_data_good
             (rmc_good k term (_gps_data_good (cursor g))) (cursor g))
          (sats g) (statistics g)).
Proof.
  destruct g as [f n [par ck t ty ubx k off good] s st]. simpl.
  intros -> Hk. unfold dispatch. cbv zeta. simpl cursor. simpl staged.
  simpl sats. simpl _term. simpl _sentence_type. simpl _term_number.
  rewrite !nth0_cstr.
  assert (H : exists j, k = 32 + j /\ 0 <= j < 32)
    by (exists (k - 32); lia).
  destruct H as (j & -> & Hj).
  replace (32 + j - 32) with j by lia.
  assert (H : j = 0 \/ 1 <= j < 32) by lia.
  unfold rmc_stage, rmc_good.
  destruct H as [-> | H];
    [destruct pf; reflexivity|].
  field_number j; destruct pf;
    first [ reflexivity
          | destruct (hd 0 (cstr t) =? ch "S"); reflexivity
          | destruct (hd 0 (cstr t) =? ch "W"); reflexivity ].
Qed.

(** [X19] The dispatch key keeps five bits of the field number, so the
    thirty-third and later fields of a GGA sentence are handled as fields
    of an RMC sentence: field 32 + k is parsed as RMC field k, and field
    34 sets the data-good flag of the GGA sentence. *)
Theorem gga_field_beyond_31 (pf : platform) (now : Z) (g : TinyGPS) :
  _is_checksum_term (cursor g) = false ->
  _sentence_type (cursor g) = _GPS_SENTENCE_GPGGA ->
  32 <= _term_number (cursor g) < 64 ->
  term_complete pf now g
  = let acc :=
      rmc_field (millis now) (_term_number (cursor g) - 32)
        (cstr (_term (cursor g)))
        (staged g, _gps_data_good (cursor g)) in
    Ok (false,
        mkTinyGPS (fix_state g) (fst acc)
          (set_gps_data_good (snd acc) (cursor g)) (sats g) (statistics g)).
Proof.
  intros Hck Hty Hk. unfold term_complete. rewrite Hck.
  assert (Hk0 : (_term_number (cursor g) =? 0) = false)
    by (apply Z.eqb_neq; lia).
  rewrite Hk0, Hty. simpl sentence_eqb. cbv iota. simpl negb. simpl andb.
  rewrite dispatch_gga_beyond by assumption. cbv zeta. unfold rmc_field.
  rewrite nth0_cstr.
  destruct (hd 0 (cstr (_term (cursor g))) =? 0); simpl; [|reflexivity].
  destruct g as [f n [par ck t ty ubx k off good] s st]. reflexivity.
Qed.

(** [X19] on the thirty-fourth field of a GGA sentence, the letter A. *)
Lemma gga_field_beyond_31_witness :
  exists g' : TinyGPS,
    term_complete ARM32 1000 gga_long_state = Ok (false, g')
    /\ _term_number (cursor gga_long_state) = 34
    /\ _gps_data_good (cursor gga_long_state) = false
    /\ _gps_data_good (cursor g') = true.
Proof.
  eexists. split; [|split; [|split]].
  - apply (gga_field_beyond_31 ARM32 1000 gga_long_state).
    + reflexivity.
    + reflexivity.
    + cbn. lia.
  - reflexivity.
  - reflexivity.
  - reflexivity.
Defined.

(** ** A GSV message *)

Lemma gsv_field_unused (pf : platform) (ty : sentence) (ms k : Z)
      (term : list Z) (acc : Staging * bool * Sats) :
  In k [1; 3; 5; 6; 9; 10; 13; 14; 17; 18] ->
  field_of (gsv_stage pf ty) ms k term acc = Ok acc.
Proof.
  intros Hk. apply field_of_idle. destruct acc as [[n good] s].
  unfold gsv_stage. cbn [In] in Hk.
  repeat (destruct Hk as [<- | Hk]; [reflexivity|]). contradiction.
Qed.

Lemma gsv_field_start (pf : platform) (ty : sentence) (ms : Z) (m : list Z)
      (n : Staging) (good : bool) (s : Sats) :
  is_gsv ty ->
  hd 0 m <> 0 ->
  field_of (gsv_stage pf ty) ms 2 (term_of m) (n, good, s)
  = Ok (n, good,
        set_sat_index (gsv_base pf ty (term_of m))
          (set_tracked_sat_rec
             (gsv_cleared pf ty (term_of m) (tracked_sat_rec s)) s)).
Proof.
  intros Hty Hm. rewrite field_of_present by exact Hm.
  unfold gsv_stage, gsv_base, gsv_cleared. cbn [Z.eqb Pos.eqb].
  destruct Hty as [-> | ->]; reflexivity.
Qed.

Lemma gsv_field_prn (pf : platform) (ty : sentence) (ms k : Z) (p : list Z)
      (n : Staging) (good : bool) (s : Sats) :
  In k [4; 8; 12; 16] ->
  hd 0 p <> 0 ->
  field_of (gsv_stage pf ty) ms k (term_of p) (n, good, s)
  = Ok (n, good, set_tracked_satellites_index (atoi pf (term_of p)) s).
Proof.
  intros Hk Hp. rewrite field_of_present by exact Hp.
  unfold gsv_stage. cbn [In] in Hk.
  repeat (destruct Hk as [<- | Hk]; [reflexivity|]). contradiction.
Qed.

Lemma gsv_field_snr (pf : platform) (ty : sentence) (ms j : Z)
      (sn : list Z) (n : Staging) (good : bool) (s : Sats) :
  In j [0; 1; 2; 3] ->
  hd 0 sn <> 0 ->
  0 <= _sat_index s + j < 24 ->
  field_of (gsv_stage pf ty) ms (7 + 4 * j) (term_of sn) (n, good, s)
  = Ok (n, good,
        set_tracked_sat_rec
          (upd (Z.to_nat (_sat_index s + j))
             (packed pf (_tracked_satellites_index s)
                (u8 (atoi pf (term_of sn))))
             (tracked_sat_rec s)) s).
Proof.
  intros Hj Hsn Hb. rewrite field_of_present by exact Hsn.
  assert (E : store_slot (_sat_index s + j)
                (packed pf (_tracked_satellites_index s)
                   (u8 (atoi pf (term_of sn)))) s
              = Ok (set_tracked_sat_rec
                      (upd (Z.to_nat (_sat_index s + j))
                         (packed pf (_tracked_satellites_index s)
                            (u8 (atoi pf (term_of sn))))
                         (tracked_sat_rec s)) s)).
  { unfold store_slot.
    replace (0 <=? _sat_index s + j) with true
      by (symmetry; apply Z.leb_le; lia).
    replace (_sat_index s + j <? 24) with true
      by (symmetry; apply Z.ltb_lt; lia).
    reflexivity. }
  unfold gsv_stage.
  replace (Z.quot (7 + 4 * j - 7) 4) with j
    by (replace (7 + 4 * j - 7) with (j * 4) by lia;
        symmetry; apply Z.quot_mul; lia).
  rewrite E. cbn [In] in Hj.
  repeat (destruct Hj as [<- | Hj]; [reflexivity|]). contradiction.
Qed.

Lemma gsv_field_strength (pf : platform) (ty : sentence) (ms j : Z)
      (sn : list Z) (n : Staging) (good : bool) (s : Sats) :
  In j [0; 1; 2; 3] ->
  0 <= _sat_index s + j < 24 ->
  field_of (gsv_stage pf ty) ms (7 + 4 * j) (term_of sn) (n, good, s)
  = Ok (n, good,
        if hd 0 sn =? 0 then s
        else
          set_tracked_sat_rec
            (upd (Z.to_nat (_sat_index s + j))
               (packed pf (_tracked_satellites_index s)
                  (u8 (atoi pf (term_of sn))))
               (tracked_sat_rec s)) s).
Proof.
  intros Hj Hb. destruct (hd 0 sn =? 0) eqn:E.
  - unfold field_of. rewrite hd_term_of, E. reflexivity.
  - apply gsv_field_snr; [exact Hj| |exact Hb].
    apply Z.eqb_neq. exact E.
Qed.

(** The satellite blocks of a message, entered after field [w]. *)
Lemma gsv_run_blocks (pf : platform) (ty : sentence) (ms : Z)
      (blocks : list SatBlock) :
  forall (j : Z) (w : list Z) (n : Staging) (good : bool) (s0 s : Sats),
  0 <= j ->
  j + Z.of_nat (List.length blocks) <= 4 ->
  0 <= _sat_index s ->
  _sat_index s + j + Z.of_nat (List.length blocks) <= 24 ->
  Forall (fun blk => hd 0 (prn blk) <> 0) blocks ->
  field_of (gsv_stage pf ty) ms (3 + 4 * j) (term_of w) (n, good, s0)
  = Ok (n, good, s) ->
  exists s' : Sats,
    run_fields (gsv_stage pf ty) ms (3 + 4 * j) w
      (flat_map block_fields blocks) (n, good, s0)
    = Ok (n, good, s')
    /\ tracked_sat_rec s'
       = gsv_records pf (_sat_index s) j blocks (tracked_sat_rec s).
Proof.
  induction blocks as [|[p e a sn] blocks IH];
    intros j w n good s0 s Hj Hcount Hb0 Hb Hprn Hw.
  - exists s. split; [exact Hw|reflexivity].
  - cbn [List.length] in Hcount, Hb.
    inversion Hprn as [|? ? Hp Hrest]; subst.
    cbn [prn] in Hp.
    assert (Hin : In j [0; 1; 2; 3]) by (cbn [In]; lia).
    cbn [flat_map block_fields prn elevation azimuth snr app run_fields].
    rewrite Hw. cbn [bind].
    replace (3 + 4 * j + 1) with (4 + 4 * j) by lia.
    assert (Ep : field_of (gsv_stage pf ty) ms (4 + 4 * j) (term_of p)
                   (n, good, s)
                 = Ok (n, good,
                       set_tracked_satellites_index (atoi pf (term_of p)) s)).
    { apply gsv_field_prn; [|exact Hp].
      cbn [In] in Hin |- *.
      destruct Hin as [<- |[<- |[<- |[<- |[]]]]]; cbn; tauto. }
    assert (Ee : forall acc,
                 field_of (gsv_stage pf ty) ms (4 + 4 * j + 1) (term_of e) acc
                 = Ok acc).
    { intros acc. apply gsv_field_unused. cbn [In] in Hin |- *.
      destruct Hin as [<- |[<- |[<- |[<- |[]]]]]; cbn; tauto. }
    assert (Ea : forall acc,
                 field_of (gsv_stage pf ty) ms (4 + 4 * j + 1 + 1)
                   (term_of a) acc
                 = Ok acc).
    { intros acc. apply gsv_field_unused. cbn [In] in Hin |- *.
      destruct Hin as [<- |[<- |[<- |[<- |[]]]]]; cbn; tauto. }
    rewrite Ep. cbn [bind]. rewrite Ee. cbn [bind]. rewrite Ea. cbn [bind].
    replace (4 + 4 * j + 1 + 1 + 1) with (3 + 4 * (j + 1)) by lia.
    set (s1 := set_tracked_satellites_index (atoi pf (term_of p)) s).
    assert (Hi1 : _sat_index s1 = _sat_index s) by reflexivity.
    set (s2 := if hd 0 sn =? 0 then s1
               else
                 set_tracked_sat_rec
                   (upd (Z.to_nat (_sat_index s1 + j))
                      (packed pf (_tracked_satellites_index s1)
                         (u8 (atoi pf (term_of sn))))
                      (tracked_sat_rec s1)) s1).
    assert (Hi2 : _sat_index s2 = _sat_index s)
      by (subst s2; destruct (hd 0 sn =? 0); reflexivity).
    assert (Ht2 : tracked_sat_rec s2
                  = gsv_record pf (_sat_index s) j (mkSatBlock p e a sn)
                      (tracked_sat_rec s))
      by (subst s2; unfold gsv_record; cbn [prn snr];
          destruct (hd 0 sn =? 0); reflexivity).
    assert (Es : field_of (gsv_stage pf ty) ms (3 + 4 * (j + 1)) (term_of sn)
                   (n, good, s1)
                 = Ok (n, good, s2)).
    { replace (3 + 4 * (j + 1)) with (7 + 4 * j) by lia.
      apply gsv_field_strength; [exact Hin|]. rewrite Hi1. lia. }
    destruct (IH (j + 1) sn n good s1 s2 ltac:(lia) ltac:(lia)
                ltac:(rewrite Hi2; exact Hb0) ltac:(rewrite Hi2; lia)
                Hrest Es)
      as (s' & Erun & Etab).
    exists s'. split; [exact Erun|]. rewrite Etab, Hi2, Ht2. reflexivity.
Qed.

Lemma gsv_run_message (pf : platform) (ty : sentence) (ms : Z)
      (total m t : list Z) (blocks : list SatBlock) (n : Staging)
      (good : bool) (s : Sats) :
  is_gsv ty ->
  hd 0 m <> 0 ->
  Forall (fun blk => hd 0 (prn blk) <> 0) blocks ->
  (List.length blocks <= 4)%nat ->
  gsv_base pf ty (term_of m) + Z.of_nat (List.length blocks) <= 24 ->
  exists s' : Sats,
    run_fields (gsv_stage pf ty) ms 1 total
      (m :: t :: flat_map block_fields blocks) (n, good, s)
    = Ok (n, good, s')
    /\ tracked_sat_rec s'
       = gsv_records pf (gsv_base pf ty (term_of m)) 0 blocks
           (gsv_cleared pf ty (term_of m) (tracked_sat_rec s)).
Proof.
  intros Hty Hm Hprn Hcount Hb. cbn [run_fields].
  rewrite gsv_field_unused by (cbn [In]; tauto). cbn [bind].
  change (1 + 1) with 2.
  rewrite gsv_field_start by assumption. cbn [bind].
  set (s1 := set_sat_index _ _).
  assert (Hi : _sat_index s1 = gsv_base pf ty (term_of m)) by reflexivity.
  assert (Ht : tracked_sat_rec s1
               = gsv_cleared pf ty (term_of m) (tracked_sat_rec s))
    by reflexivity.
  assert (H0 : 0 <= gsv_base pf ty (term_of m)).
  { unfold gsv_base. destruct ty; apply Z.mod_pos_bound; reflexivity. }
  destruct (gsv_run_blocks pf ty ms blocks 0 t n good s1 s1)
    as (s' & Erun & Etab).
  - lia.
  - lia.
  - rewrite Hi. exact H0.
  - rewrite Hi. lia.
  - exact Hprn.
  - apply gsv_field_unused. cbn [In]. tauto.
  - exists s'. split; [exact Erun|]. rewrite Etab, Hi, Ht. reflexivity.
Qed.

(** [X20] The satellite table is written while a GSV message is read,
    whatever its checksum: after a GPGSV or GLGSV message of up to four
    satellites, the slots from four times the message number (less four,
    plus twelve for GLONASS) hold the packed PRN and strength of each
    satellite that reports a strength, in order; a satellite with an empty
    strength field leaves its slot as it was, and the first message of a
    sequence clears the twelve slots of its constellation first. *)
Theorem gsv_message_tracked (pf : platform) (now : Z) (g : TinyGPS)
        (ty : sentence) (tag total m t : list Z) (blocks : list SatBlock)
        (h1 h2 eol : Z) :
  let fs := m :: t :: flat_map block_fields blocks in
  let b := gsv_base pf ty (term_of m) in
  is_gsv ty ->
  List.length (_term (cursor g)) = 15%nat ->
  Forall (fun c => is_ordinary c = true) tag ->
  classify (term_of tag) = ty ->
  Forall (Forall (fun c => is_ordinary c = true)) (total :: fs) ->
  hd 0 m <> 0 ->
  Forall (fun blk => hd 0 (prn blk) <> 0) blocks ->
  (List.length blocks <= 4)%nat ->
  b + Z.of_nat (List.length blocks) <= 24 ->
  is_ordinary h1 = true ->
  is_ordinary h2 = true ->
  is_eol eol ->
  exists (vs : list bool) (g' : TinyGPS),
    feed pf
      (at_time now
         (ch "$" :: joined tag (total :: fs) ++ ch "*" :: [h1; h2; eol])) g
    = Ok (vs, g')
    /\ trackedSatellites g'
       = gsv_records pf b 0 blocks
           (gsv_cleared pf ty (term_of m) (trackedSatellites g)).
Proof.
  intros fs b Hty Hlen Htag Hclass Hfields Hm Hprn Hcount Hb Hh1 Hh2 Heol.
  inversion Hfields as [|? ? Hf1 Hfs]; subst x l.
  assert (Hun : unvalidated ty)
    by (destruct Hty as [-> | ->]; unfold unvalidated; tauto).
  assert (Hst : unvalidated_stage pf ty = gsv_stage pf ty)
    by (destruct Hty as [-> | ->]; reflexivity).
  assert (Hfc : Z.of_nat (List.length fs) < 30).
  { subst fs. cbn [List.length].
    assert (Hbl : forall l : list SatBlock,
              List.length (flat_map block_fields l)
              = (4 * List.length l)%nat).
    { induction l as [|x l IHl]; [reflexivity|].
      cbn [flat_map block_fields app List.length]. rewrite IHl. lia. }
    rewrite Hbl. lia. }
  assert (Hrun := sentence_decoded pf ty
                    (_UBX_message_type (cursor g)) 1
                    (unvalidated_stage pf ty)
                    ltac:(lia)
                    ltac:(intros E ms k term acc; exfalso;
                          destruct Hty as [H|H];
                          rewrite H in E; discriminate)
                    ltac:(intros E; exfalso;
                          destruct Hty as [H|H];
                          rewrite H in E; discriminate)
                    (fun now0 g0 Ht _ Hk =>
                       dispatch_unvalidated pf _ now0 g0 Hun Ht Hk)
                    now g tag total fs h1 h2 eol eq_refl eq_refl Hlen Htag
                    Hclass Hf1 Hfs Hfc Hh1 Hh2 Heol).
  cbv zeta in Hrun. rewrite Hst in Hrun. unfold fs in Hrun.
  destruct (gsv_run_message pf ty (millis now) total m t blocks (staged g)
              false (sats g) Hty Hm Hprn Hcount Hb)
    as (s' & Erun & Etab).
  rewrite Erun in Hrun. cbn [fst snd] in Hrun.
  destruct Hrun as (vs & g' & Hfeed & _ & _ & _ & Hsats & _).
  eexists. exists g'. split; [exact Hfeed|].
  unfold trackedSatellites. rewrite Hsats. exact Etab.
Qed.

(** [X20] on the first message of a GPS sequence, sent with a wrong
    checksum: satellite 3 at strength 30, satellite 4 without a strength,
    satellite 6 at strength 12 and satellite 13 at strength 00. *)
Lemma gsv_message_tracked_witness :
  exists (vs : list bool) (g' : TinyGPS),
    feed ARM32
      (at_time 1000
         (ch "$"
          :: joined (chars "GPGSV")
               (chars "3" :: chars "1" :: chars "11"
                :: flat_map block_fields gsv_blocks)
          ++ ch "*" :: [ch "0"; ch "0"; CR]))
      fresh
    = Ok (vs, g')
    /\ trackedSatellites g' = 828 :: 0 :: 1560 :: repeat 0 21.
Proof.
  destruct (gsv_message_tracked ARM32 1000 fresh _GPS_SENTENCE_GPGSV
              (chars "GPGSV") (chars "3") (chars "1") (chars "11")
              gsv_blocks (ch "0") (ch "0") CR)
    as (vs & g' & Hfeed & Htab).
  - left. reflexivity.
  - reflexivity.
  - apply all_ordinary. reflexivity.
  - reflexivity.
  - apply all_fields_ordinary. reflexivity.
  - discriminate.
  - repeat constructor; discriminate.
  - simpl. lia.
  - vm_compute. discriminate.
  - reflexivity.
  - reflexivity.
  - left. reflexivity.
  - exists vs, g'. split; [exact Hfeed|]. rewrite Htab. reflexivity.
Defined.
